(* ===== verification/_CoqProject ===== *)
-Q . S2P
Prelude.v
Data.v
Ring.v
Icmp.v
Scheduler.v
Broadcast.v
Shutdown.v
LateAdd.v
Correlator.v
System.v
Lifecycle.v
Series.v
Config.v
Handlers.v
Live.v
Main.v
