(* ===== verification/Prelude.v ===== *)
(** * icmpmon: a verification development of the ICMP reachability monitor

    The program (Go, [src/]) pings a configured set of peers, matches the
    echo replies with the requests, stores one latency sample per probe
    in a SQLite table and serves the stored series over HTTP.  Its parts:

    - [src/icmpmon.go] [ping], [pingRoutine]: one goroutine per peer that
      allocates a sequence number from the global counter [seqcount]
      (under [lock]), pushes a [Request] on the [messages] ring channel
      and writes the echo request to the raw socket;
    - [src/icmpmon.go] [readListener]: one goroutine per IP family that
      reads datagrams, keeps the echo replies and pushes a [Response];
    - [src/icmpmon.go] [collector]: the single goroutine that owns the
      pending list [requests]; it matches responses, declares timeouts
      on a one-second ticker, deletes old rows on an hourly ticker, and
      emits every sample both to [queryChannel] and to the database;
    - [src/querychannel.go] [QueryChannel]: fan-out of samples to one
      bounded ring channel per live subscriber;
    - [src/quitchannel.go] [QuitChannel]: the shutdown broadcast, one
      buffered [chan bool] per subscriber used for the signal and the
      acknowledgement;
    - [src/icmpmon.go] [dataHandler], [getPeerInterval]: the time-series
      query with gap filling and stride downsampling;
    - [src/config.go] [ReadConfig]: configuration defaults and checks;
    - [src/data.go]: the records [Query], [Request], [Response].

    Layout of the library (one file per component, in dependency order):

    - [Prelude] (this file): the [go_scope] notations for Go's 64-bit
      arithmetic ([+!], [-!], [*!] wrap around modulo 2^64 as Go's
      [int64] does), Go slice idioms ([remove_at] for
      [append(s[:i], s[i+1:]...)], [go_copy] for [copy] between two
      subslices of one backing array), their lemmas, the [icmpmon] hint
      databases and the shared tactics;
    - [Data]: [Query], [Request], [Response], [Peer] ([src/data.go],
      [src/config.go]) and the [Message] sum carried by [messages];
    - [Ring]: the drop-oldest bounded channel of the channels library
      ([channels.NewRingChannel]), a library the sources only call and
      so modelled from its documented behaviour, with its abstract
      specification [lastn] (the buffer is the newest [cap] values ever
      pushed) and the refinement theorem;
    - [Icmp]: the echo messages ([icmp.Message], [icmp.Echo]) with their
      marshalling and parsing, and [readListener]'s handling of one
      datagram ([handle_datagram]);
    - [Scheduler]: the sequence-number allocator of [ping]
      ([alloc_seq], [seq_at]), [ping] itself on an explicit [Sender]
      state (counter, [messages] ring, written datagrams) and one
      iteration of [pingRoutine];
    - [Broadcast]: [QueryChannel] as a store of rings indexed by the
      subscriber's handle, [Add], [Push], [Out], against the class
      [Publisher] the correlator needs;
    - [Shutdown]: [QuitChannel]'s signal/acknowledge protocol as a step
      relation [Shutdown.step] over the main goroutine and its
      subscribers, with an executable [exec]/[run] proved sound, where
      every [Add] happens before [SignalQuit] as the spec assumes;
    - [LateAdd]: the same protocol with [Add] at any time, as the code
      has it, and the range bounds [SignalQuit] and [WaitForCleanup]
      evaluate once ([LateAdd.lstep]); [Shutdown]'s states embed into
      it;
    - [Correlator]: [collector]'s select loop on an explicit state
      (pending list, database rows, live subscribers): one function per
      [case], [collector_step] and [collector_run] over a list of events;
    - [System]: the measurement path [main] sets up, composed: the
      wall clock, [Scheduler]'s [Sender] and [Correlator]'s state in
      one record; an iteration of a [pingRoutine], a datagram of a
      [readListener] or an arm of [collector]'s select as an [Action]
      ([System.exec]); an interleaving of the goroutines as a list of
      actions ([System.run]), reporting the values the full
      [messages] ring discards and the rows the retention sweep
      deletes;
    - [Lifecycle]: [main]'s start of its goroutines (lines 627-643),
      each a subscriber of [quitChannel] with its role, composed with
      [System] and [Shutdown]: an arm of a goroutine's select runs only
      while it is in its loop, its quit arm is [Shutdown]'s receive and
      acknowledgement, [main]'s interrupt, [SignalQuit] and
      [WaitForCleanup] are [Shutdown]'s main steps, and nothing runs
      once [main] has returned ([Lifecycle.lexec], [Lifecycle.lrun]);
    - [Series]: [dataHandler]'s range normalisation, gap filling, the
      synthetic series and the stride downsampling;
    - [Config]: [ReadConfig] and its readers from the decoded HJSON map
      ([src/config.go]), with the library functions they call
      ([strings.EqualFold], [strconv.Atoi], [string(int)], [crc32]);
      [net.ParseIP] and [FormatFloat] are parameters of its section;
    - [Handlers]: [dataHandler] and [statsHandler] from the query
      string and the table rows to the answer: parameter parsing with
      its 400 answers, the SQL selections as filters and a stable sort
      by time, and the series of [Series];
    - [Live]: [liveDataHandler] with the shared [QueryChannel] store:
      the reader goroutine decoding the subscription with
      [binary.BigEndian.Uint32], the three arms of its loop and the
      collector's [Push] as events ([Live.live_exec], [Live.live_run]);
    - [Main]: [main]'s startup decisions ([Main.main_start]: version and
      usage exits, [ReadConfig]'s error, the empty peer list), the
      database and socket opening that ends in [log.Fatal]
      ([Main.main_open]), [webServer]'s route table with
      [http.ServeMux]'s panic on a duplicate pattern and its
      longest-match dispatch ([Main.register], [Main.dispatch]), and
      [assetHandler]'s path handling, with their specifications
      ([main_start_spec], [main_open_start], [webServer_routes]:
      exactly the four API paths reach the API handlers, every other
      path reaches [assetHandler]; [asset_file_spec]).

    What the theorems show, by group:
    - the correlator (C1-C5): a reply is matched with the newest
      pending request of its sequence number, which alone leaves the
      pending list; a reply without one changes nothing; a timeout tick
      removes exactly the requests its (inverted) test selects and emits
      one [-1] sample for each; probes are conserved (pending plus
      stored equals issued);
    - the composed system (C6-C9, C25): over any interleaving every
      probe written to a socket is buffered, pending or stored unless
      the ring discarded it or the retention sweep deleted it (C6, by
      induction on the run from the per-step lemma [exec_accounts]);
      a concrete overload run where all 1025 probes are answered and
      only 1024 samples exist, none of them a loss; a run where one
      peer's samples are stored out of time order; every reachable
      state is well formed (ring of 1024, counter and tags in range,
      C9); an IPv6-only deployment stores only losses;
    - live clients (C10-C12): a first message shorter than 4 bytes,
      and only such a message, crashes the process; a client receives
      its peer's samples in publication order, without duplicates,
      missing exactly those its ring discarded (a [sublist] and a
      permutation of the published stream); only ids in [0, 2^32) can
      be followed;
    - sequence numbers (C13, C27): they follow 1, 2, ..., 65535, 1,
      ... (so none repeats within 65535 consecutive allocations), and
      the datagram written is the echo request whose sequence number is
      the pending [Request]'s;
    - the configuration (C14, C15, C37, C38): an accepted configuration
      is normalised (periods of at least 10 ms, names, IPs and pairwise
      distinct ids); a document without [ListenAddress] is always
      rejected; a non-numeric interval becomes 10 ms; [KeepHistoryFor]
      is ignored;
    - the series (C16-C18, C28): downsampling returns the samples
      picked at stride [len / max] from the end of the pick list; the
      defects of the front and back insertions; the in-place gap loop
      terminates and equals a list reference that puts [(q - p - 501)
      div interval] samples in each gap (C18), so a long gap is
      subdivided;
    - the handlers (C19-C22, C39, C40): [/data] always answers, answers
      400 exactly on a malformed parameter, treats a reversed range as
      the range, and on a plain [/data?peer=N] builds about [T /
      interval] samples (C20); [/stats] does not swap a reversed range
      and reports a truncated integer uptime;
    - the wire (C23, C24, C26): parse after marshal is the identity on
      echo messages; the IPv6 listener drops every reply; the IPv4
      listener accepts replies of any identifier;
    - shutdown (C29-C36): by rule induction on [Shutdown.step], no send
      on a subscriber channel ever blocks and [WaitForCleanup] returns
      only when every one-shot subscriber has exited; from every
      reachable state [main] can finish the shutdown by its own steps
      and the acknowledgements under way, leaving every running
      subscriber untouched (C31, liveness, by a measure on [main]'s
      loops after the pending acknowledgements are flushed), and in
      [main]'s composition of its goroutines this is a run of [main]'s
      steps and quit arms that leaves the measurement state as it was
      (C32, through [Shutdown.quiet_step_exec]); with
      [Add] at any time a [liveDataHandler] subscribing during
      [SignalQuit] makes [WaitForCleanup] block for ever (C33);
      [Shutdown]'s runs are runs of [LateAdd] (C36); in [main]'s
      composition, once the collector has quit the table never
      changes again while pings and replies go on (C34); a looping
      subscriber is signalled twice (C35).
    Most claims were tested by mutation: a plausible bug in the
    definition (a dropped removal, an off-by-one, the other comparison)
    makes the theorem fail.

    Findings the development proves (see PROJECT.json):
    - [collector] times out the requests whose deadline is still in the
      future and never removes an expired one (line 211);
    - [dataHandler]'s front insertion drops the last sample and appends
      a zero sample at time 0 (line 379);
    - gap filling subdivides a long gap into several synthetic samples,
      where the spec asks for one; the back insertion is inert on range
      queries; gap filling also runs without a range, from [interval -
      1] to the first sample, so a plain [/data?peer=N] request builds
      about [T / interval] samples and does not finish (C20);
    - the [messages] ring of 1024 discards requests when the collector
      lags, and such a probe leaves no sample at all (line 629); a
      timeout tick taken before a buffered reply stores one peer's
      samples out of time order (line 208);
    - a live client's first message shorter than 4 bytes panics an
      unrecovered goroutine (line 283); subscriptions are [uint32]
      while [ReadConfig] accepts any [int] id (line 272);
    - the IPv6 reply type is compared with the IPv4 type value and never
      matches; the echo identifier is not checked;
    - [QuitChannel] uses one channel for the signal and the
      acknowledgement, so [WaitForCleanup] can consume its own signal;
      a [liveDataHandler] that subscribes while [SignalQuit] runs is
      never signalled and [WaitForCleanup] waits on it for ever (line
      268), against the spec's premise that no task subscribes after
      the signal;
    - [ReadConfig] returns the "not found" error of an absent
      [ListenAddress] (line 261), so the default ":8000" is never used:
      [main] exits; a non-numeric interval string reads as 0 and is
      clamped to 10 ms; [KeepHistoryFor] is never read.

    Integers.  Times, timeouts and latencies are Go [int64] values: the
    arithmetic of the source is the wrapping [+!]/[-!]/[*!], and the
    theorems that need exact values carry the range hypotheses under
    which no wrap occurs (clock readings below 2^62 ms).

    Fuel.  Only two loops of the source are not structural: the gap
    filling loop of [dataHandler] (it inserts while it iterates) and the
    stride loop of the downsampling.  Both take explicit fuel.  The
    downsampling fuel [length + 1] is proved sufficient ([npicks]: each
    iteration advances by a stride of at least 1).  The gap loop's fuel
    [gap_fuel] is one more than the number of samples plus the number
    of whole intervals between neighbours.  Running out would be
    reported as [None], and it never happens: each iteration either
    visits a slot or takes one interval off the gap ahead, so
    [gap_measure] decreases ([fill_gaps_ref_gen], C18), provided the
    interval is positive (ReadConfig clamps it to at least 10 ms) and
    the times are within 2^61 ms of the epoch (no [int64] wrap).

    Not modelled (listed in PROJECT.json): socket I/O, the x/net
    library's ICMP encoding beyond echo messages, the HTTP and WebSocket
    plumbing (the SQL selections are modelled as list filters in
    [Handlers]), the static assets themselves (generated bindata),
    the reading and HJSON decoding of the file, [net.ParseIP] and
    [FormatFloat] (parameters), the opening of the database and the
    sockets (only whether each succeeds, an argument of
    [Main.main_open]), the database library itself (its table is the
    list of rows of the correlator), [peersHandler]'s JSON encoding,
    [ServeMux]'s redirect of unclean paths (the routes are stated for
    the clean paths it passes on), float64 rounding in [statsHandler].
    [main]'s interrupt wait is the first of [main]'s steps in
    [Lifecycle]; the [liveDataHandler]s the
    web server accepts are composed with [Shutdown] only in [LateAdd]
    and with the collector only in [Live]. *)

From Stdlib Require Export ZArith Lia.
From stdpp Require Export base list decidable.
From stdpp Require Import options.

Declare Scope go_scope.
Delimit Scope go_scope with go.

(** ** Go's 64-bit signed integers *)

Local Open Scope Z_scope.

Definition int64_min : Z := - 2 ^ 63.
Definition int64_max : Z := 2 ^ 63 - 1.

(** Two's complement wrap-around: the value Go keeps of an [int64]
    result. *)
Definition wrap64 (z : Z) : Z := ((z + 2 ^ 63) mod 2 ^ 64) - 2 ^ 63.

Definition add64 (a b : Z) : Z := wrap64 (a + b).
Definition sub64 (a b : Z) : Z := wrap64 (a - b).
Definition mul64 (a b : Z) : Z := wrap64 (a * b).

Definition in_int64 (z : Z) : Prop := int64_min <= z <= int64_max.

#[export] Instance in_int64_dec z : Decision (in_int64 z).
Proof. unfold in_int64. apply _. Defined.

Infix "+!" := add64 (at level 50, left associativity) : go_scope.
Infix "-!" := sub64 (at level 50, left associativity) : go_scope.
Infix "*!" := mul64 (at level 40, left associativity) : go_scope.

Create HintDb icmpmon discriminated.
Create Rewrite HintDb icmpmon_rw.

Lemma wrap64_id z : in_int64 z -> wrap64 z = z.
Proof.
  unfold in_int64, int64_min, int64_max, wrap64. intros Hz.
  rewrite Z.mod_small; lia.
Qed.

Lemma wrap64_in_int64 z : in_int64 (wrap64 z).
Proof.
  unfold in_int64, int64_min, int64_max, wrap64.
  pose proof (Z.mod_pos_bound (z + 2 ^ 63) (2 ^ 64)). lia.
Qed.

Lemma add64_exact a b : in_int64 (a + b) -> (a +! b)%go = a + b.
Proof. apply wrap64_id. Qed.

Lemma sub64_exact a b : in_int64 (a - b) -> (a -! b)%go = a - b.
Proof. apply wrap64_id. Qed.

Lemma mul64_exact a b : in_int64 (a * b) -> (a *! b)%go = a * b.
Proof. apply wrap64_id. Qed.

#[export] Hint Resolve wrap64_in_int64 : icmpmon.

(** [int64_solve] closes the range side conditions of the three
    [_exact] lemmas from bounds in the context. *)
Ltac int64_solve :=
  unfold in_int64, int64_min, int64_max in *; lia.

Ltac go_arith :=
  repeat first
    [ rewrite add64_exact by int64_solve
    | rewrite sub64_exact by int64_solve
    | rewrite mul64_exact by int64_solve ].

(** ** Go slice idioms *)

Section Slices.
Context {A : Type}.
Implicit Types (xs : list A) (x : A).

(** [s = append(s[:i], s[i+1:]...)]: removal of the element at [i]. *)
Definition remove_at (i : nat) xs : list A := take i xs ++ drop (S i) xs.

(** [copy(s[d:], s[src:stop])] on one backing array: Go copies
    [min(len dst, len src)] elements as if through a temporary
    buffer. *)
Definition go_copy xs (d src stop : nat) : list A :=
  let n := Nat.min (length xs - d) (stop - src) in
  take d xs ++ take n (drop src xs) ++ drop (d + n) xs.

Lemma length_remove_at i xs :
  (i < length xs)%nat -> length (remove_at i xs) = pred (length xs).
Proof.
  intros Hi. unfold remove_at. rewrite length_app, length_take, length_drop. lia.
Qed.

(** The Go idiom is stdpp's list deletion, whose lemmas then apply. *)
Lemma remove_at_delete i xs : remove_at i xs = delete i xs.
Proof.
  unfold remove_at. revert xs. induction i as [|i IH]; intros [|x xs]; simpl; try done.
  by rewrite IH.
Qed.

Lemma remove_at_lookup_lt i j xs :
  (j < i)%nat -> remove_at i xs !! j = xs !! j.
Proof. intros Hj. rewrite remove_at_delete. by apply list_lookup_delete_lt. Qed.

Lemma remove_at_lookup_ge i j xs :
  (i <= j)%nat -> remove_at i xs !! j = xs !! S j.
Proof. intros Hj. rewrite remove_at_delete. by apply list_lookup_delete_ge. Qed.

Lemma remove_at_app i xs ys :
  length xs = i -> forall y, remove_at i (xs ++ y :: ys) = xs ++ ys.
Proof.
  intros <- y. unfold remove_at.
  induction xs as [|x xs IH]; simpl; [done | by rewrite IH].
Qed.

Lemma lookup_middle xs x ys : (xs ++ x :: ys) !! length xs = Some x.
Proof. by induction xs. Qed.

Lemma remove_at_ge i xs : (length xs <= i)%nat -> remove_at i xs = xs.
Proof.
  intros Hi. unfold remove_at. rewrite take_ge, drop_ge by lia. apply app_nil_r.
Qed.

(** What holds of every element still holds after removing one, or
    after filtering. *)
Lemma Forall_remove_at (P : A -> Prop) i xs : Forall P xs -> Forall P (remove_at i xs).
Proof. rewrite remove_at_delete. apply Forall_delete. Qed.

Lemma Forall_filter_sub (P : A -> Prop) (Q : A -> Prop) `{!forall x, Decision (Q x)} xs :
  Forall P xs -> Forall P (filter Q xs).
Proof.
  induction 1 as [|x xs Hx _ IH]; [constructor|]. rewrite filter_cons. case_decide; auto.
Qed.

(** The middle insertion of [dataHandler]: append a zero element, shift
    [s[i:]] one slot right, overwrite slot [i]. *)
Lemma go_copy_shift_right xs z i :
  (i < length xs)%nat ->
  go_copy (xs ++ [z]) (S i) i (S (length xs)) = take (S i) xs ++ drop i xs.
Proof.
  intros Hi. unfold go_copy. rewrite length_app. simpl.
  replace (Nat.min (length xs + 1 - S i) (S (length xs) - i)) with (length xs - i)%nat by lia.
  rewrite take_app_le by lia.
  rewrite drop_app_le by lia.
  rewrite take_app_le by (rewrite length_drop; lia).
  rewrite (take_ge (drop i xs)) by (rewrite length_drop; lia).
  rewrite (drop_ge (xs ++ [z])) by (rewrite length_app; simpl; lia).
  by rewrite app_nil_r.
Qed.

Lemma insert_shift_right xs z y i :
  (i < length xs)%nat ->
  <[i := y]> (go_copy (xs ++ [z]) (S i) i (S (length xs))) = take i xs ++ y :: drop i xs.
Proof.
  intros Hi. rewrite go_copy_shift_right by lia.
  destruct (lookup_lt_is_Some_2 xs i) as [x Hx]; [lia|].
  rewrite (take_S_r xs i x Hx), <- app_assoc. simpl.
  rewrite insert_app_r_alt by (rewrite length_take; lia).
  rewrite length_take, Nat.min_l, Nat.sub_diag by lia. done.
Qed.
(** The front insertion of [dataHandler]: the copy moves [len - 1]
    elements where [len] are needed, so the old last element is
    overwritten and the appended zero element stays. *)
Lemma insert_shift_front x xs z y :
  <[0%nat := y]> (go_copy ((x :: xs) ++ [z]) 1 0 (length (x :: xs) - 1)) =
  y :: take (length xs) (x :: xs) ++ [z].
Proof.
  unfold go_copy. rewrite length_app. simpl.
  replace (Nat.min (length xs + 1 - 0) (length xs - 0 - 0)) with (length xs) by lia.
  f_equal. rewrite drop_app_length' by done. f_equal.
  rewrite app_comm_cons, take_app_le by (simpl; lia). done.
Qed.
End Slices.

#[export] Hint Rewrite @length_remove_at using lia : icmpmon_rw.
#[export] Hint Resolve Forall_remove_at Forall_filter_sub : icmpmon.
#[export] Hint Rewrite @lookup_middle : icmpmon_rw.
#[export] Hint Rewrite @remove_at_lookup_lt @remove_at_lookup_ge using lia : icmpmon_rw.
