(* ===== verification/Data.v ===== *)
(** * Data: the records of [src/data.go] and the peer of [src/config.go]

    [Query] is the stored sample (the table [queries]), [Request] a
    pending probe, [Response] a received echo reply, and [Message] the
    two kinds of value the [messages] channel carries (the collector
    dispatches on them with a type switch).  A [Peer] is the peer after
    [ReadConfig] has filled every optional field, so its pointers are
    modelled by plain values. *)

From S2P Require Import Prelude.
From stdpp Require Import strings.
From stdpp Require Import options.

Local Open Scope Z_scope.

(** [net.IP]: the address bytes (4 or 16 of them). *)
Definition IP := list Z.

(** [net.IP.To4]: the 4-byte form of an IPv4 address, given as 4 bytes
    or as an IPv4-mapped 16-byte address, and [None] otherwise. *)
Definition ip_To4 (ip : IP) : option IP :=
  if decide (length ip = 4%nat) then Some ip
  else if decide (length ip = 16%nat /\ take 10 ip = replicate 10 0
                  /\ ip !! 10%nat = Some 255 /\ ip !! 11%nat = Some 255)
  then Some (drop 12 ip) else None.

Record Peer := mkPeer {
  peer_Name : string;
  peer_Address : string;
  peer_Interval : Z;
  peer_Timeout : Z;
  peer_ID : Z;
  peer_ip : IP
}.

(** [type Query struct { PeerID, ResponseTime, Time int64 }]. *)
Record Query := mkQuery {
  q_PeerID : Z;
  q_ResponseTime : Z;
  q_Time : Z
}.

(** [Query{}]: the zero value. *)
Definition zero_query : Query := mkQuery 0 0 0.

#[export] Instance Query_inhabited : Inhabited Query := populate zero_query.
#[export] Instance Query_eq_dec : EqDecision Query.
Proof. solve_decision. Defined.

(** [type Request struct { ID int; IP net.IP; Time int64; Peer *Peer }]. *)
Record Request := mkRequest {
  req_ID : Z;
  req_IP : IP;
  req_Time : Z;
  req_Peer : Peer
}.

(** [type Response struct { ID int; IP net.IP; Time int64 }]. *)
Record Response := mkResponse {
  resp_ID : Z;
  resp_IP : IP;
  resp_Time : Z
}.

(** The values pushed on [messages]: [Request] by [ping], [Response] by
    [readListener]. *)
Inductive Message :=
| MRequest (r : Request)
| MResponse (r : Response).
