(* ===== verification/Ring.v ===== *)
(** * Ring: the drop-oldest bounded channel [channels.RingChannel]

    [src/icmpmon.go] creates [messages] with [channels.NewRingChannel(1024)]
    and [src/querychannel.go] one [channels.NewRingChannel(100)] per live
    subscriber.  The library (gopkg.in/eapache/channels.v1) is not part
    of the repository: it is modelled from its documented behaviour,
    which is also the spec's (section 4.1): a write never blocks, and a
    write to a full buffer discards the oldest buffered value.  The
    buffer is a list, oldest first.

    The abstract specification [spec_push] states the buffer as the
    newest [cap] values of the history, and [ring_push_refines] shows
    that the library's add-then-trim step implements it. *)

From S2P Require Import Prelude.
From stdpp Require Import options.

(** [lastn n l]: the [n] newest elements of [l]. *)
Definition lastn {A} (n : nat) (l : list A) : list A := drop (length l - n) l.

Lemma length_lastn {A} n (l : list A) : length (lastn n l) = Nat.min n (length l).
Proof. unfold lastn. rewrite length_drop. lia. Qed.

Lemma lastn_all {A} n (l : list A) : (length l <= n)%nat -> lastn n l = l.
Proof. intros H. unfold lastn. by replace (length l - n)%nat with 0%nat by lia. Qed.

Lemma last_lastn_snoc {A} n (l : list A) x :
  (1 <= n)%nat -> list.last (lastn n (l ++ [x])) = Some x.
Proof.
  intros Hn. unfold lastn. rewrite length_app. simpl.
  rewrite drop_app_le by lia. apply last_snoc.
Qed.

Lemma lastn_lastn_app {A} n (l m : list A) : lastn n (lastn n l ++ m) = lastn n (l ++ m).
Proof.
  unfold lastn. rewrite <- drop_app_le by lia. rewrite drop_drop, length_drop, !length_app.
  f_equal. lia.
Qed.

#[export] Hint Rewrite @length_lastn : icmpmon_rw.

Module Ring.
Section Ring.
Context {A : Type}.

Record t := mk {
  cap : nat;        (** [size] given to [NewRingChannel] *)
  buf : list A      (** buffered values, oldest first *)
}.

(** [channels.NewRingChannel(size)]. *)
Definition NewRingChannel (size : nat) : t := mk size [].

(** [ch.In() <- v], as the library's buffering goroutine handles it:
    with an empty buffer the value is added; otherwise it is added and
    the oldest value is removed when the length exceeds [size]. *)
Definition push (v : A) (r : t) : t :=
  match buf r with
  | [] => mk (cap r) [v]
  | _ :: _ =>
      let b := buf r ++ [v] in
      mk (cap r) (if decide (cap r < length b)%nat then tail b else b)
  end.

(** [<-ch.Out()]: the oldest value, if any. *)
Definition pop (r : t) : option (A * t) :=
  match buf r with
  | [] => None
  | x :: b => Some (x, mk (cap r) b)
  end.

(** Well-formedness: the buffer holds at most [cap] values. *)
Definition wf (r : t) : Prop := (1 <= cap r)%nat /\ (length (buf r) <= cap r)%nat.

(** The abstract specification: a bounded queue that keeps the
    newest [cap] values. *)
Definition spec_push (cap : nat) (v : A) (q : list A) : list A := lastn cap (q ++ [v]).

Lemma push_cap v r : cap (push v r) = cap r.
Proof. unfold push. by destruct (buf r). Qed.

Lemma ring_push_refines v r : wf r -> buf (push v r) = spec_push (cap r) v (buf r).
Proof.
  intros [Hc Hl]. unfold push, spec_push, lastn.
  destruct (buf r) as [|x b] eqn:Hb; simpl in *.
  - by replace (1 - cap r)%nat with 0%nat by lia.
  - rewrite length_app. simpl. case_decide as Hlt.
    + replace (S (length b + 1) - cap r)%nat with 1%nat by lia. done.
    + by replace (S (length b + 1) - cap r)%nat with 0%nat by lia.
Qed.

Lemma push_wf v r : wf r -> wf (push v r).
Proof.
  intros Hwf. pose proof (ring_push_refines v r Hwf) as Hr.
  destruct Hwf as [Hc Hl]. split; rewrite push_cap; [done|].
  rewrite Hr. unfold spec_push. rewrite length_lastn. lia.
Qed.

Lemma pop_wf r x r' : wf r -> pop r = Some (x, r') -> wf r'.
Proof.
  unfold pop, wf. destruct (buf r); intros [Hc Hl] H; simplify_eq/=. simpl. lia.
Qed.

(** Several writes in a row, oldest first. *)
Definition push_all (vs : list A) (r : t) : t := foldl (fun r v => push v r) r vs.

(** The library's ring channel refines the abstract bounded
    queue: after any sequence of writes to a well-formed ring, the
    buffer holds exactly the newest [cap] values of the old buffer
    followed by the written ones, so no write blocks and only the
    oldest values are lost. *)
Lemma ring_push_all_refines vs r :
  wf r -> buf (push_all vs r) = lastn (cap r) (buf r ++ vs).
Proof.
  revert r. induction vs as [|v vs IH]; intros r Hwf; simpl.
  - rewrite app_nil_r, lastn_all; [done | apply Hwf].
  - rewrite IH by auto using push_wf. rewrite push_cap, ring_push_refines by done.
    unfold spec_push. rewrite lastn_lastn_app, <- app_assoc. done.
Qed.

Lemma NewRingChannel_wf n : (1 <= n)%nat -> wf (NewRingChannel n).
Proof. unfold wf. simpl. lia. Qed.
End Ring.

Arguments t : clear implicits.
#[export] Hint Resolve push_wf pop_wf NewRingChannel_wf : icmpmon.
End Ring.
