(* ===== verification/Icmp.v ===== *)
(** * Icmp: echo messages on the wire and the datagram filter of [readListener]

    [ping] ([src/icmpmon.go] lines 71-97) builds an [icmp.Message] and
    marshals it; [readListener] (lines 151-166) parses each datagram
    with [icmp.ParseMessage(ProtocolICMP, ...)] and forwards a
    [Response] when the message type equals the expected echo-reply
    type of its family.

    The wire format belongs to golang.org/x/net/icmp (not in the
    repository) and is modelled from the library: a 4-byte header
    (type, code, checksum) and, for echo messages, a big-endian 16-bit
    identifier and sequence number followed by the data.  A type is a
    Go interface value: its dynamic type ([ipv4.ICMPType] or
    [ipv6.ICMPType]) takes part in [==], which [icmp_type] keeps as
    two constructors.  Bodies of types other than echo are kept raw:
    the program discards those messages whatever their body. *)

From S2P Require Import Prelude Data.
From stdpp Require Import options.

Local Open Scope Z_scope.

Inductive icmp_type :=
| V4Type (n : Z)     (** an [ipv4.ICMPType] *)
| V6Type (n : Z).    (** an [ipv6.ICMPType] *)

#[export] Instance icmp_type_eq_dec : EqDecision icmp_type.
Proof. solve_decision. Defined.

Definition ipv4_ICMPTypeEcho := V4Type 8.
Definition ipv4_ICMPTypeEchoReply := V4Type 0.
Definition ipv6_ICMPTypeEchoRequest := V6Type 128.
Definition ipv6_ICMPTypeEchoReply := V6Type 129.

(** [const ProtocolICMP = 1] and IANA's number for ICMPv6. *)
Definition ProtocolICMP : Z := 1.
Definition ProtocolIPv6ICMP : Z := 58.

Inductive icmp_body :=
| Echo (ID Seq : Z) (Data : list Z)   (** [*icmp.Echo] *)
| RawBody (Data : list Z).

Record icmp_message := mkMessage {
  m_Type : icmp_type;
  m_Code : Z;
  m_Checksum : Z;
  m_Body : icmp_body
}.

Definition byte_of (z : Z) : Z := Z.land z 255.

(** [binary.BigEndian.PutUint16(b, uint16(v))]. *)
Definition put_uint16 (v : Z) : list Z := [byte_of (Z.shiftr v 8); byte_of v].

(** [binary.BigEndian.Uint16(b)]. *)
Definition get_uint16 (hi lo : Z) : Z := hi * 256 + lo.

(** The one's complement sum of [checksum]: bytes taken in pairs, the
    second one high, a trailing odd byte added alone. *)
Fixpoint sum16 (b : list Z) : Z :=
  match b with
  | x :: y :: r => (y * 256 + x) + sum16 r
  | [x] => x
  | [] => 0
  end.

(** [func checksum(b []byte) uint16]: fold the carries twice, then
    complement. *)
Definition checksum (b : list Z) : Z :=
  let s := sum16 b in
  let s := Z.shiftr s 16 + Z.land s 65535 in
  let s := s + Z.shiftr s 16 in
  Z.lxor (Z.land s 65535) 65535.

Definition body_marshal (bd : icmp_body) : list Z :=
  match bd with
  | Echo id sq data => put_uint16 id ++ put_uint16 sq ++ data
  | RawBody data => data
  end.

Definition type_byte (t : icmp_type) : Z :=
  match t with V4Type n | V6Type n => n end.

(** [icmp.Message.Marshal(nil)]: an ICMPv6 message leaves its
    checksum to the kernel; an ICMPv4 one gets the checksum, low byte
    first, xor-ed into bytes 2 and 3. *)
Definition Marshal (m : icmp_message) : list Z :=
  let b := [type_byte (m_Type m); m_Code m; 0; 0] ++ body_marshal (m_Body m) in
  match m_Type m with
  | V6Type _ => b
  | V4Type _ =>
      let s := checksum b in
      <[3%nat := byte_of (Z.shiftr s 8)]> (<[2%nat := byte_of s]> b)
  end.

Definition mk_type (proto n : Z) : icmp_type :=
  if decide (proto = ProtocolICMP) then V4Type n else V6Type n.

Definition is_echo_type (t : icmp_type) : bool :=
  match t with
  | V4Type n => bool_decide (n = 0 \/ n = 8)
  | V6Type n => bool_decide (n = 128 \/ n = 129)
  end.

(** [parseEcho]: at least 4 bytes of identifier and sequence number. *)
Definition parseEcho (b : list Z) : option icmp_body :=
  match b with
  | i1 :: i0 :: s1 :: s0 :: data => Some (Echo (get_uint16 i1 i0) (get_uint16 s1 s0) data)
  | _ => None
  end.

(** [icmp.ParseMessage(proto, b)]; [None] is the returned error. *)
Definition ParseMessage (proto : Z) (b : list Z) : option icmp_message :=
  match b with
  | t :: c :: k1 :: k0 :: rest =>
      let ty := mk_type proto t in
      if is_echo_type ty then
        bd ← parseEcho rest; Some (mkMessage ty c (get_uint16 k1 k0) bd)
      else Some (mkMessage ty c (get_uint16 k1 k0) (RawBody rest))
  | _ => None
  end.

(** The result of [listener.ReadFrom(bytes)] in [readListener]. *)
Record read_result := mkRead {
  rd_bytes : list Z;       (** [bytes[:r.byteCount]] *)
  rd_remote : IP;          (** [net.ParseIP(r.remote.String())] *)
  rd_err : bool            (** [r.err != nil] *)
}.

(** The expected reply type chosen at the top of [readListener]; any
    other version panics. *)
Definition expected_type (ipVersion : Z) : option icmp_type :=
  if decide (ipVersion = 4) then Some ipv4_ICMPTypeEchoReply
  else if decide (ipVersion = 6) then Some ipv6_ICMPTypeEchoReply
  else None.

(** One datagram of the [readListener] loop (lines 151-166), read at
    time [now] (ms): the [Response] pushed on [messages], if any. *)
Definition handle_datagram (expected : icmp_type) (r : read_result) (now : Z)
    : option Response :=
  if rd_err r then None else
  match ParseMessage ProtocolICMP (rd_bytes r) with
  | None => None
  | Some m =>
      if decide (m_Type m = expected) then
        match m_Body m with
        | Echo _ sq _ => Some (mkResponse sq (rd_remote r) now)
        | RawBody _ => None
        end
      else None
  end.

(** Bytes are in 0..255. *)
Definition is_byte (z : Z) : Prop := 0 <= z < 256.

Lemma byte_of_mod z : byte_of z = z mod 256.
Proof. unfold byte_of. change 255 with (Z.ones 8). by rewrite Z.land_ones by lia. Qed.

Lemma byte_of_range z : is_byte (byte_of z).
Proof. unfold is_byte. rewrite byte_of_mod. apply Z.mod_pos_bound. lia. Qed.

Lemma byte_of_id z : is_byte z -> byte_of z = z.
Proof. unfold is_byte. intros Hz. rewrite byte_of_mod. by apply Z.mod_small. Qed.

(** Big-endian encoding then decoding of a 16-bit value is the identity. *)
Lemma get_put_uint16 v : 0 <= v < 65536 ->
  get_uint16 (byte_of (Z.shiftr v 8)) (byte_of v) = v.
Proof.
  intros Hv. unfold get_uint16. rewrite !byte_of_mod, Z.shiftr_div_pow2 by lia.
  change (2 ^ 8) with 256.
  rewrite (Z.mod_small (v / 256)) by (split; [apply Z.div_pos | apply Z.div_lt_upper_bound]; lia).
  pose proof (Z.div_mod v 256). lia.
Qed.

(** Parsing with [ProtocolICMP] always yields an [ipv4.ICMPType]. *)
Lemma ParseMessage_v4 b m :
  ParseMessage ProtocolICMP b = Some m -> exists n, m_Type m = V4Type n.
Proof.
  unfold ParseMessage. destruct b as [|t [|c [|k1 [|k0 rest]]]]; try done.
  case_match; [destruct (parseEcho rest); simpl|]; intros; simplify_eq; eauto.
Qed.

Definition is_echo_reply_v4 (bytes : list Z) (sq : Z) : Prop :=
  exists c ck id data, ParseMessage ProtocolICMP bytes =
    Some (mkMessage ipv4_ICMPTypeEchoReply c ck (Echo id sq data)).



(** A forwarded datagram was parsed as an [ipv4.ICMPType]: only an
    expected type of that family can let one through. *)
Lemma handle_datagram_v4_type ty r now resp :
  handle_datagram ty r now = Some resp -> exists n, ty = V4Type n.
Proof.
  unfold handle_datagram. destruct (rd_err r); [done|].
  destruct (ParseMessage ProtocolICMP (rd_bytes r)) as [m|] eqn:Hp; [|done].
  destruct (ParseMessage_v4 _ _ Hp) as [n Hn]. rewrite Hn.
  case_decide; [eauto | done].
Qed.

(** C24. [readListener(listener6, 6)] never forwards a reply: every
    datagram is parsed with [ProtocolICMP], so its type is an
    [ipv4.ICMPType], which never equals the expected
    [ipv6.ICMPTypeEchoReply] under Go's interface comparison. *)
Theorem handle_datagram_v6_drops_all r now :
  handle_datagram ipv6_ICMPTypeEchoReply r now = None.
Proof.
  destruct (handle_datagram _ r now) as [resp|] eqn:Hd; [|done].
  by destruct (handle_datagram_v4_type _ _ _ _ Hd).
Qed.

(** C26. [readListener(listener4, 4)] forwards every ICMPv4 echo reply
    with the reply's sequence number, whatever its identifier: replies
    to the echo requests of other processes on the host are accepted
    (the identifier [os.Getpid() & 0xffff] of [ping] is never
    checked). *)
Theorem handle_datagram_any_identifier bytes remote now sq :
  is_echo_reply_v4 bytes sq ->
  handle_datagram ipv4_ICMPTypeEchoReply (mkRead bytes remote false) now
  = Some (mkResponse sq remote now).
Proof.
  intros (c & ck & id & data & Hp). unfold handle_datagram.
  cbn [rd_err rd_bytes rd_remote]. rewrite Hp. cbn [m_Type m_Body].
  by rewrite decide_True.
Qed.

(** The echo reply of another process (identifier 1, this process's
    being any other) with sequence number 5. *)
Definition foreign_reply : list Z :=
  Marshal (mkMessage ipv4_ICMPTypeEchoReply 0 0 (Echo 1 5 [])).

Lemma handle_datagram_any_identifier_witness :
  is_echo_reply_v4 foreign_reply 5 /\
  handle_datagram ipv4_ICMPTypeEchoReply (mkRead foreign_reply [127;0;0;1] false) 1000
  = Some (mkResponse 5 [127;0;0;1] 1000).
Proof.
  assert (is_echo_reply_v4 foreign_reply 5) as H.
  { do 4 eexists. vm_compute. reflexivity. }
  split; [exact H|]. apply (handle_datagram_any_identifier _ _ _ _ H).
Defined.
