(* ===== verification/Scheduler.v ===== *)
(** * Scheduler: the sequence allocator, [ping] and [pingRoutine]

    [src/icmpmon.go] lines 61-115 and 246-264.  The global counter
    [seqcount] (guarded by [lock]) is the field [seqcount] of the
    [Sender] state; the ring channel [messages] and the datagrams
    written to the two raw sockets are the other fields.  One call of
    [ping] is one atomic step here: the only state it shares with other
    goroutines, [seqcount], is updated under the lock, and the push on
    [messages] never blocks.

    [Marshal] cannot fail for the messages [ping] builds (an echo body
    with an [ipv4] or [ipv6] type), so the early return at line 98 is
    not reachable and is not modelled; the write at line 109 can fail,
    which is the [write_ok] argument given by the environment. *)

From S2P Require Import Prelude Data Ring Icmp.
From stdpp Require Import strings.
From stdpp Require Import options.

Local Open Scope Z_scope.

(** Lines 82-86: wrap to 0 at 65535, then increment. *)
Definition alloc_seq (seqcount : Z) : Z :=
  (if decide (65535 <= seqcount) then 0 else seqcount) + 1.

(** The value of the [n]-th allocation of the process (from 0), the
    counter starting at [var seqcount = 0]. *)
Definition seq_at (n : nat) : Z := Nat.iter (S n) alloc_seq 0.

Record Sender := mkSender {
  seqcount : Z;
  messages : Ring.t Message;
  wire : list (bool * IP * list Z)   (** (IPv4 socket?, destination, bytes) *)
}.

(** [ping(peer)] at clock reading [now] (ms), with process id [pid];
    [write_ok] is the outcome of [listener.WriteTo].  Returns the new
    state and whether [ping] returned an error. *)
Definition ping (pid now : Z) (write_ok : bool) (peer : Peer) (st : Sender) : Sender * bool :=
  let isIP4 := if ip_To4 (peer_ip peer) is Some _ then true else false in
  let typ := if isIP4 then ipv4_ICMPTypeEcho else ipv6_ICMPTypeEchoRequest in
  let sq := alloc_seq (seqcount st) in
  let msg := mkMessage typ 0 0 (Echo (Z.land pid 65535) sq []) in
  let bytes := Marshal msg in
  let msgs := Ring.push (MRequest (mkRequest sq [] now peer)) (messages st) in
  let sent := if write_ok then wire st ++ [(isIP4, peer_ip peer, bytes)] else wire st in
  (mkSender sq msgs sent, negb write_ok).

(** One iteration of [pingRoutine]'s loop: a failed [ping] reaches
    [log.Panic], which terminates the whole process. *)
Inductive routine_outcome :=
| Continue (st : Sender)
| Panic (st : Sender).

Definition pingRoutine_iter (pid now : Z) (write_ok : bool) (peer : Peer) (st : Sender)
    : routine_outcome :=
  let '(st', err) := ping pid now write_ok peer st in
  if err then Panic st' else Continue st'.

Definition seq_ok (s : Z) : Prop := 0 <= s <= 65535.

Lemma alloc_seq_range s : seq_ok s -> 1 <= alloc_seq s <= 65535.
Proof. unfold seq_ok, alloc_seq. intros Hs. case_decide; lia. Qed.

Lemma alloc_seq_ok s : seq_ok s -> seq_ok (alloc_seq s).
Proof. intros Hs. pose proof (alloc_seq_range s Hs). unfold seq_ok. lia. Qed.

#[export] Hint Resolve alloc_seq_ok : icmpmon.

Lemma seq_at_S n : seq_at (S n) = alloc_seq (seq_at n).
Proof. reflexivity. Qed.

(** Allocating [n] more numbers from any point [k] of the cycle. *)
Lemma iter_alloc_seq k n :
  Nat.iter n alloc_seq (Z.of_nat k mod 65535 + 1) = Z.of_nat (k + n) mod 65535 + 1.
Proof.
  induction n as [|n IH]; [by rewrite Nat.add_0_r|].
  rewrite Nat.iter_succ, IH. unfold alloc_seq.
  rewrite Nat.add_succ_r, Nat2Z.inj_succ, <- Z.add_1_r, <- Z.add_mod_idemp_l by lia.
  pose proof (Z.mod_pos_bound (Z.of_nat (k + n)) 65535).
  case_decide.
  - replace (Z.of_nat (k + n) mod 65535 + 1) with 65535 by lia. reflexivity.
  - rewrite (Z.mod_small (_ + 1)); lia.
Qed.

Lemma seq_at_mod n : seq_at n = Z.of_nat n mod 65535 + 1.
Proof. unfold seq_at. rewrite Nat.iter_succ_r. apply (iter_alloc_seq 0 n). Qed.

(** C13. The sequence numbers of the process are [1, 2, ..., 65535, 1,
    2, ...]: the [n]-th allocation (from 0) is [n mod 65535 + 1], and
    from any allocation on, the [m]-th next one is [m] further in that
    cycle. *)
Theorem seq_at_formula n m :
  seq_at n = Z.of_nat n mod 65535 + 1 /\ Nat.iter m alloc_seq (seq_at n) = seq_at (n + m).
Proof.
  rewrite !seq_at_mod. split; [done|]. apply iter_alloc_seq.
Qed.

(** Sequence number 0 is never issued, and no number is issued twice
    within 65535 consecutive allocations. *)
Lemma seq_at_window_distinct i j :
  Z.of_nat i < Z.of_nat j < Z.of_nat i + 65535 -> seq_at i <> 0 /\ seq_at i <> seq_at j.
Proof.
  intros Hij. rewrite !seq_at_mod.
  pose proof (Z.mod_pos_bound (Z.of_nat i) 65535).
  split; [lia|]. intros Heq.
  pose proof (Z.div_mod (Z.of_nat i) 65535 ltac:(lia)).
  pose proof (Z.div_mod (Z.of_nat j) 65535 ltac:(lia)).
  lia.
Qed.

(** Under the counter invariant [0 <= seqcount <= 65535], [ping]
    issues a sequence number in 1..65535, stores it back in [seqcount]
    (so the invariant is preserved) and tags the pushed [Request] with
    it. *)
Lemma ping_seq_range pid now write_ok peer st :
  seq_ok (seqcount st) ->
  let '(st', _) := ping pid now write_ok peer st in
  1 <= seqcount st' <= 65535 /\ seq_ok (seqcount st') /\
  Ring.buf (messages st') = Ring.buf (Ring.push (MRequest (mkRequest (seqcount st') [] now peer)) (messages st)).
Proof.
  intros Hs. simpl. pose proof (alloc_seq_range _ Hs). unfold seq_ok. split_and!; [lia..|done].
Qed.

(** An IPv4 peer used by the examples. *)
Definition example_peer4 : Peer :=
  mkPeer "10.0.0.1"%string "10.0.0.1"%string 1000 1000 7 [10; 0; 0; 1].

(** C27. For an IPv4 peer and a successful write, the datagram [ping]
    writes is an ICMPv4 echo request whose parsed sequence number and
    identifier are the [Request]'s [ID] and [pid & 0xffff], and that
    [Request] is the newest value of [messages]: the sequence number
    is the key that the collector later matches. *)
Theorem ping_wire_matches_request pid now peer st ip4 :
  seq_ok (seqcount st) -> ip_To4 (peer_ip peer) = Some ip4 -> Ring.wf (messages st) ->
  let '(st', err) := ping pid now true peer st in
  err = false /\
  exists bytes ck,
    list.last (wire st') = Some (true, peer_ip peer, bytes) /\
    ParseMessage ProtocolICMP bytes =
      Some (mkMessage ipv4_ICMPTypeEcho 0 ck (Echo (Z.land pid 65535) (seqcount st') [])) /\
    list.last (Ring.buf (messages st')) = Some (MRequest (mkRequest (seqcount st') [] now peer)).
Proof.
  intros Hs H4 Hwf. unfold ping. rewrite H4. simpl. split; [done|].
  pose proof (alloc_seq_range _ Hs) as Hr.
  assert (0 <= Z.land pid 65535 < 65536) as Hpid.
  { change 65535 with (Z.ones 16). rewrite Z.land_ones by lia.
    pose proof (Z.mod_pos_bound pid (2 ^ 16)). change (2 ^ 16) with 65536 in *. lia. }
  eexists _, _. split; [by rewrite last_snoc|]. split.
  { unfold Marshal, ParseMessage, mk_type. simpl.
    rewrite !get_put_uint16 by lia. reflexivity. }
  rewrite Ring.ring_push_refines by done. apply last_lastn_snoc. by destruct Hwf.
Qed.

Lemma ping_wire_matches_request_witness :
  (seq_ok 0 /\ ip_To4 (peer_ip example_peer4) = Some [10; 0; 0; 1] /\
   Ring.wf (@Ring.NewRingChannel Message 1024)) /\
  let '(st', err) := ping 4242 0 true example_peer4 (mkSender 0 (Ring.NewRingChannel 1024) []) in
  err = false /\
  exists bytes ck,
    list.last (wire st') = Some (true, peer_ip example_peer4, bytes) /\
    ParseMessage ProtocolICMP bytes =
      Some (mkMessage ipv4_ICMPTypeEcho 0 ck (Echo (Z.land 4242 65535) (seqcount st') [])) /\
    list.last (Ring.buf (messages st')) = Some (MRequest (mkRequest (seqcount st') [] 0 example_peer4)).
Proof.
  assert (seq_ok 0) as H1 by (unfold seq_ok; lia).
  assert (ip_To4 (peer_ip example_peer4) = Some [10; 0; 0; 1]) as H2 by reflexivity.
  assert (Ring.wf (@Ring.NewRingChannel Message 1024)) as H3 by (apply Ring.NewRingChannel_wf; lia).
  split; [split_and!; assumption|].
  exact (ping_wire_matches_request 4242 0 example_peer4 (mkSender 0 (Ring.NewRingChannel 1024) []) _ H1 H2 H3).
Defined.
