(* ===== verification/Broadcast.v ===== *)
(** * Broadcast: the live-sample fan-out [QueryChannel]

    [src/querychannel.go]: [Add] creates a ring channel of capacity 100,
    appends it to the shared list and returns it to the subscriber
    ([liveDataHandler]); [Push] writes a sample to every ring of the
    list.  The pointer [Add] returns aliases the list element, so the
    rings live in one store (the list) and a subscriber holds the index
    of its ring: what [Push] writes is what that subscriber reads.

    The interface a publisher needs is the class [Publisher]: a total
    publish operation that leaves every subscriber's buffer equal to
    the abstract drop-oldest queue of [Ring.spec_push].  The correlator
    is stated against it. *)

From S2P Require Import Prelude Data Ring.
From stdpp Require Import options.

(** What the correlator requires of the live-event broadcaster. *)
Class Publisher (P : Type) := {
  publish : Query -> P -> P;
  subscribers : P -> list (Ring.t Query)
}.

Module QueryChannel.

Record t := mk { channels : list (Ring.t Query) }.

(** [NewQueryChannel()]. *)
Definition NewQueryChannel : t := mk [].

(** [queryChannel.Add()]: the new state and the handle of the
    subscriber's ring. *)
Definition Add (qc : t) : t * nat :=
  (mk (channels qc ++ [Ring.NewRingChannel 100]), length (channels qc)).

(** [queryChannel.Push(query)]: [channels[i].In() <- query] for every
    [i], in order; none of these writes blocks. *)
Definition Push (q : Query) (qc : t) : t := mk (map (Ring.push q) (channels qc)).

(** [<-channel.Out()] by the subscriber holding handle [h]. *)
Definition Out (h : nat) (qc : t) : option (Query * t) :=
  r ← channels qc !! h;
  '(q, r') ← Ring.pop r;
  Some (q, mk (<[h := r']> (channels qc))).

Definition wf (qc : t) : Prop := Forall Ring.wf (channels qc).

#[export] Instance publisher : Publisher t := {
  publish := Push;
  subscribers := channels
}.

Lemma Add_wf qc : wf qc -> wf (Add qc).1.
Proof.
  unfold wf. intros H. simpl. apply Forall_app. split; [done|].
  repeat constructor; simpl; lia.
Qed.

Lemma Push_wf q qc : wf qc -> wf (Push q qc).
Proof.
  unfold wf. simpl. intros H. apply Forall_fmap.
  induction H; constructor; [by apply Ring.push_wf | done].
Qed.

Lemma Push_lookup q qc h :
  channels (Push q qc) !! h = Ring.push q <$> channels qc !! h.
Proof. simpl. apply list_lookup_fmap. Qed.

Lemma length_Push q qc : length (channels (Push q qc)) = length (channels qc).
Proof. simpl. apply length_map. Qed.

(** [Push] over a list of samples, oldest first. *)
Definition Push_all (qs : list Query) (qc : t) : t := foldl (fun c q => Push q c) qc qs.

Lemma Push_all_app qs1 qs2 qc : Push_all (qs1 ++ qs2) qc = Push_all qs2 (Push_all qs1 qc).
Proof. unfold Push_all. by rewrite foldl_app. Qed.

Lemma Push_all_wf qs qc : wf qc -> wf (Push_all qs qc).
Proof. revert qc. induction qs; simpl; eauto using Push_wf. Qed.
End QueryChannel.

#[export] Hint Resolve QueryChannel.Push_wf QueryChannel.Add_wf QueryChannel.Push_all_wf : icmpmon.

(** Publishing never blocks and, for a subscriber whose ring is
    full, drops exactly the oldest buffered sample: after [Push q], the
    ring of handle [h] holds the old buffer without its head, then [q]. *)
Lemma Push_full_drops_oldest q qc h r x rest :
  QueryChannel.wf qc -> QueryChannel.channels qc !! h = Some r ->
  Ring.buf r = x :: rest -> length (Ring.buf r) = Ring.cap r ->
  exists r', QueryChannel.channels (QueryChannel.Push q qc) !! h = Some r' /\
             Ring.buf r' = rest ++ [q] /\ Ring.cap r' = Ring.cap r.
Proof.
  intros Hwf Hh Hb Hfull. rewrite QueryChannel.Push_lookup, Hh. eexists. split; [done|].
  split; [|apply Ring.push_cap].
  rewrite Ring.ring_push_refines by (eapply Forall_lookup_1; eauto).
  unfold Ring.spec_push, lastn. rewrite Hb in *. rewrite length_app. simpl in *.
  by replace (S (length rest + 1) - Ring.cap r)%nat with 1%nat by lia.
Qed.

(** A subscriber whose ring holds 100 samples at times 0..99. *)
Definition full_subscriber : QueryChannel.t :=
  QueryChannel.mk [Ring.mk 100 (map (fun t => mkQuery 7 1 (Z.of_nat t)) (seq 0 100))].

Lemma Push_full_drops_oldest_witness :
  QueryChannel.wf full_subscriber /\
  exists r', QueryChannel.channels (QueryChannel.Push (mkQuery 7 1 100) full_subscriber) !! 0%nat = Some r' /\
    Ring.buf r' = map (fun t => mkQuery 7 1 (Z.of_nat t)) (seq 1 99) ++ [mkQuery 7 1 100] /\
    Ring.cap r' = 100%nat.
Proof.
  assert (QueryChannel.wf full_subscriber) as Hwf.
  { repeat constructor; simpl; rewrite ?length_map, ?length_seq; lia. }
  split; [exact Hwf|].
  exact (Push_full_drops_oldest (mkQuery 7 1 100) full_subscriber 0 _ (mkQuery 7 1 0) _
           Hwf eq_refl eq_refl eq_refl).
Defined.
