(* ===== verification/Shutdown.v ===== *)
(** * Shutdown: the [QuitChannel] broadcast of [src/quitchannel.go]

    Every long-lived goroutine calls [quitChannel.Add()] once and gets a
    [chan bool] of capacity 2, appended to the shared slice.  At exit,
    [main] calls [SignalQuit] (one [true] sent on every channel, in
    order) and then [WaitForCleanup] (one value received from every
    channel, in order).  A subscriber's select arm [case <-quitChannel:]
    is followed by [quitChannel <- true]: the same channel carries the
    signal and the acknowledgement.

    The protocol is a transition system on [QState]: the buffered
    contents of each channel, the program counter of each subscriber
    and of [main].  [step] has one rule per statement; [exec] is the
    same semantics as a function of a scheduling [Action], used to run
    concrete interleavings, and [exec_sound] relates the two.

    Subscribers come in two shapes: [OneShot] tasks ([collector],
    [pingRoutine], [readListener], [webServer]) return after
    acknowledging; [Looping] is [liveDataHandler], whose [break] at
    line 294 leaves the select but not the [for] loop, and which may
    also return on a WebSocket error without acknowledging. *)

From S2P Require Import Prelude.
From stdpp Require Import relations.
From stdpp Require Import options.

Module Shutdown.

Inductive SubKind := OneShot | Looping.

Inductive SubPC :=
| Running     (** in its [select] loop *)
| Acking      (** received from its channel, about to send [true] *)
| Exited.

Record Sub := mkSub { kind : SubKind; pc : SubPC; received : nat }.

Inductive MainPC :=
| MRun                (** before [SignalQuit] *)
| MSignal (i : nat)   (** [SignalQuit]'s loop at index [i] *)
| MWait (i : nat)     (** [WaitForCleanup]'s loop at index [i] *)
| MDone.              (** [WaitForCleanup] returned *)

Record QState := mkQ {
  chans : list (list bool);   (** buffered values of each channel, oldest first *)
  subs : list Sub;            (** the goroutine holding each channel *)
  main : MainPC
}.

(** [make(chan bool, 2)]. *)
Definition chan_cap : nat := 2.

(** [NewQuitChannel()], no goroutine subscribed yet. *)
Definition NewQuitChannel : QState := mkQ [] [] MRun.

Definition after_ack (k : SubKind) : SubPC :=
  match k with OneShot => Exited | Looping => Running end.

Inductive step : QState -> QState -> Prop :=
(** [quitChannel.Add()] (lines 15-21), before shutdown begins. *)
| step_add k cs ss :
    step (mkQ cs ss MRun) (mkQ (cs ++ [[]]) (ss ++ [mkSub k Running 0]) MRun)
(** [main] calls [SignalQuit()]. *)
| step_signal_start cs ss :
    step (mkQ cs ss MRun) (mkQ cs ss (MSignal 0))
(** [quitChannel.channels[i] <- true] (line 25), when the buffer has room. *)
| step_signal i c cs ss :
    cs !! i = Some c -> (length c < chan_cap)%nat ->
    step (mkQ cs ss (MSignal i)) (mkQ (<[i := c ++ [true]]> cs) ss (MSignal (S i)))
(** [SignalQuit] returns and [WaitForCleanup()] starts. *)
| step_signal_end cs ss :
    step (mkQ cs ss (MSignal (length cs))) (mkQ cs ss (MWait 0))
(** [<-quitChannel.channels[i]] (line 31). *)
| step_wait i v c cs ss :
    cs !! i = Some (v :: c) ->
    step (mkQ cs ss (MWait i)) (mkQ (<[i := c]> cs) ss (MWait (S i)))
| step_wait_end cs ss :
    step (mkQ cs ss (MWait (length cs))) (mkQ cs ss MDone)
(** A subscriber's [case <-quitChannel:]. *)
| step_sub_recv h sb v c cs ss m :
    ss !! h = Some sb -> pc sb = Running -> cs !! h = Some (v :: c) ->
    step (mkQ cs ss m)
         (mkQ (<[h := c]> cs) (<[h := mkSub (kind sb) Acking (S (received sb))]> ss) m)
(** Its [quitChannel <- true], then [return] or, for [liveDataHandler],
    [break] back into the loop. *)
| step_sub_ack h sb c cs ss m :
    ss !! h = Some sb -> pc sb = Acking -> cs !! h = Some c -> (length c < chan_cap)%nat ->
    step (mkQ cs ss m)
         (mkQ (<[h := c ++ [true]]> cs) (<[h := mkSub (kind sb) (after_ack (kind sb)) (received sb)]> ss) m)
(** [liveDataHandler] returns on a WebSocket error, its channel left in
    the slice. *)
| step_sub_abandon h sb cs ss m :
    ss !! h = Some sb -> kind sb = Looping -> pc sb = Running ->
    step (mkQ cs ss m) (mkQ cs (<[h := mkSub Looping Exited (received sb)]> ss) m).

Definition reachable (s : QState) : Prop := rtc step NewQuitChannel s.

(** The scheduler's choices, for running concrete interleavings. *)
Inductive Action :=
| AAdd (k : SubKind)
| AMain
| ASub (h : nat)
| AAbandon (h : nat).

Definition exec (a : Action) (s : QState) : option QState :=
  match a with
  | AAdd k =>
      if main s is MRun then Some (mkQ (chans s ++ [[]]) (subs s ++ [mkSub k Running 0]) MRun)
      else None
  | AMain =>
      match main s with
      | MRun => Some (mkQ (chans s) (subs s) (MSignal 0))
      | MSignal i =>
          match chans s !! i with
          | Some c =>
              if decide (length c < chan_cap)%nat
              then Some (mkQ (<[i := c ++ [true]]> (chans s)) (subs s) (MSignal (S i)))
              else None
          | None =>
              if decide (i = length (chans s)) then Some (mkQ (chans s) (subs s) (MWait 0))
              else None
          end
      | MWait i =>
          match chans s !! i with
          | Some (_ :: c) => Some (mkQ (<[i := c]> (chans s)) (subs s) (MWait (S i)))
          | Some [] => None
          | None => if decide (i = length (chans s)) then Some (mkQ (chans s) (subs s) MDone) else None
          end
      | MDone => None
      end
  | ASub h =>
      match subs s !! h, chans s !! h with
      | Some sb, Some c =>
          match pc sb, c with
          | Running, _ :: c' =>
              Some (mkQ (<[h := c']> (chans s))
                        (<[h := mkSub (kind sb) Acking (S (received sb))]> (subs s)) (main s))
          | Acking, _ =>
              if decide (length c < chan_cap)%nat
              then Some (mkQ (<[h := c ++ [true]]> (chans s))
                             (<[h := mkSub (kind sb) (after_ack (kind sb)) (received sb)]> (subs s))
                             (main s))
              else None
          | _, _ => None
          end
      | _, _ => None
      end
  | AAbandon h =>
      match subs s !! h with
      | Some sb =>
          match kind sb, pc sb with
          | Looping, Running => Some (mkQ (chans s) (<[h := mkSub Looping Exited (received sb)]> (subs s)) (main s))
          | _, _ => None
          end
      | None => None
      end
  end.

Fixpoint run (acts : list Action) (s : QState) : option QState :=
  match acts with
  | [] => Some s
  | a :: acts' => s' ← exec a s; run acts' s'
  end.

(** ** The executable semantics follows the step relation *)

Lemma exec_sound a s s' : exec a s = Some s' -> step s s'.
Proof.
  destruct s as [cs ss m]. destruct a as [k| |h|h]; simpl; intros H.
  - destruct m; simplify_eq. constructor.
  - destruct m as [|i|i|]; [simplify_eq; constructor| | |done].
    + destruct (cs !! i) eqn:Hc; case_decide; simplify_eq; [by constructor|].
      constructor.
    + destruct (cs !! i) as [[|v c]|] eqn:Hc; try case_decide; simplify_eq; [by econstructor|].
      constructor.
  - destruct (ss !! h) as [sb|] eqn:Hs, (cs !! h) as [c|] eqn:Hc; try done.
    destruct (pc sb) eqn:Hpc, c as [|v c']; try case_decide; simplify_eq;
      by econstructor.
  - destruct (ss !! h) as [sb|] eqn:Hs; [|done].
    destruct (kind sb) eqn:Hk, (pc sb) eqn:Hpc; simplify_eq. by econstructor.
Qed.

Lemma run_sound acts s s' : run acts s = Some s' -> rtc step s s'.
Proof.
  revert s. induction acts as [|a acts IH]; intros s H; simpl in H; [by simplify_eq|].
  destruct (exec a s) as [s1|] eqn:He; [|done].
  apply rtc_l with s1; [by apply (exec_sound a) | by apply IH].
Qed.

(** ** The balance of every channel *)

(** Whether [main] has sent on, or taken from, channel [h]. *)
Definition sent (m : MainPC) (h : nat) : nat :=
  match m with
  | MRun => 0
  | MSignal i => if decide (h < i)%nat then 1 else 0
  | MWait _ | MDone => 1
  end.

Definition taken (m : MainPC) (h : nat) : nat :=
  match m with
  | MWait i => if decide (h < i)%nat then 1 else 0
  | MDone => 1
  | _ => 0
  end.

Definition acking (sb : Sub) : nat := if pc sb is Acking then 1 else 0.

(** A one-shot task has received nothing while it runs, and exactly the
    signal once it has. *)
Definition fresh_oneshot (sb : Sub) : Prop :=
  kind sb = OneShot -> received sb = (if pc sb is Running then 0 else 1)%nat.

(** Each channel holds what [main] sent, less what [main] took back,
    less the value its subscriber is acknowledging. *)
Definition balanced (s : QState) : Prop :=
  length (chans s) = length (subs s) /\
  forall h c sb, chans s !! h = Some c -> subs s !! h = Some sb ->
    (length c + acking sb + taken (main s) h = sent (main s) h)%nat /\ fresh_oneshot sb.

Lemma balanced_init : balanced NewQuitChannel.
Proof. split; [done|]. intros h c sb Hc. simpl in Hc. by rewrite lookup_nil in Hc. Qed.

Lemma balanced_main cs ss m m2 :
  balanced (mkQ cs ss m) ->
  (forall h, (h < length cs)%nat -> sent m2 h = sent m h /\ taken m2 h = taken m h) ->
  balanced (mkQ cs ss m2).
Proof.
  intros [Hlen Hb] Hm. split; [done|]. intros h c sb Hc Hs. simpl in *.
  destruct (Hm h) as [-> ->]; [by eapply lookup_lt_Some|]. by apply (Hb h c sb).
Qed.

Lemma balanced_update cs ss m h c sb c2 sb2 m2 :
  balanced (mkQ cs ss m) -> cs !! h = Some c -> ss !! h = Some sb ->
  (forall k, k <> h -> sent m2 k = sent m k /\ taken m2 k = taken m k) ->
  ((length c + acking sb + taken m h = sent m h)%nat -> fresh_oneshot sb ->
     (length c2 + acking sb2 + taken m2 h = sent m2 h)%nat /\ fresh_oneshot sb2) ->
  balanced (mkQ (<[h := c2]> cs) (<[h := sb2]> ss) m2).
Proof.
  intros [Hlen Hb] Hc Hs Hm Hh. split; simpl in *; [by rewrite !length_insert|].
  intros k c' sb' Hc' Hs'.
  apply list_lookup_insert_Some in Hc' as [(Hk & Hc2 & _)|(Hk & Hc')];
  apply list_lookup_insert_Some in Hs' as [(Hk' & Hs2 & _)|(Hk' & Hs')]; subst; try done.
  - by apply Hh; apply (Hb k c sb).
  - destruct (Hm k (not_eq_sym Hk)) as [-> ->]. by apply (Hb k).
Qed.

Ltac balance_solve :=
  unfold sent, taken, acking, fresh_oneshot, after_ack in *; simpl in *;
  rewrite ?length_app in *; simpl in *;
  repeat case_decide; repeat case_match; simplify_eq/=;
  try split; try intros Hk;
  repeat match goal with H : ?A -> _, Hk : ?A |- _ => specialize (H Hk) end;
  try lia; try tauto; try congruence.

Lemma step_balanced s s' : step s s' -> balanced s -> balanced s'.
Proof.
  intros Hstep Hbal. pose proof Hbal as [Hlen Hb]. destruct Hstep; simpl in *.
  - split; simpl; [rewrite !length_app; simpl; lia|].
    intros h c sb Hc Hs.
    apply lookup_snoc_Some in Hc as [[Hh Hc]|[Hh Hc]];
    apply lookup_snoc_Some in Hs as [[Hh' Hs]|[Hh' Hs]]; try lia; subst; [by apply (Hb h)|].
    balance_solve.
  - apply balanced_main with MRun; [done|]. intros h _. balance_solve.
  - destruct (lookup_lt_is_Some_2 ss i) as [sb Hs]; [apply lookup_lt_Some in H; lia|].
    rewrite <- (list_insert_id ss i sb Hs).
    eapply balanced_update; eauto; intros; balance_solve.
  - apply balanced_main with (MSignal (length cs)); [done|]. intros h Hh. balance_solve.
  - destruct (lookup_lt_is_Some_2 ss i) as [sb Hs]; [apply lookup_lt_Some in H; lia|].
    rewrite <- (list_insert_id ss i sb Hs).
    eapply balanced_update; eauto; intros; balance_solve.
  - apply balanced_main with (MWait (length cs)); [done|]. intros h Hh. balance_solve.
  - eapply balanced_update; eauto; intros; balance_solve.
  - eapply balanced_update; eauto; intros; balance_solve.
  - destruct (lookup_lt_is_Some_2 cs h) as [c Hc]; [apply lookup_lt_Some in H; lia|].
    rewrite <- (list_insert_id cs h c Hc).
    eapply balanced_update; eauto; intros; balance_solve.
Qed.

Lemma steps_balanced s s' : rtc step s s' -> balanced s -> balanced s'.
Proof. induction 1; eauto using step_balanced. Qed.

Lemma reachable_balanced s : reachable s -> balanced s.
Proof. intros H. eapply steps_balanced; [exact H | apply balanced_init]. Qed.

Lemma sent_le_1 m h : (sent m h <= 1)%nat.
Proof. destruct m; simpl; try case_decide; lia. Qed.

(** C29. The capacity of 2 is enough: in every reachable state each quit
    channel buffers at most one value, so neither the signal sent by
    [SignalQuit] nor any acknowledgement ever blocks on a full buffer. *)
Theorem quit_send_never_blocks s h c :
  reachable s -> chans s !! h = Some c -> (length c <= 1)%nat /\ (length c < chan_cap)%nat.
Proof.
  intros Hr Hc. destruct (reachable_balanced s Hr) as [Hlen Hb].
  destruct (lookup_lt_is_Some_2 (subs s) h) as [sb Hs]; [apply lookup_lt_Some in Hc; lia|].
  destruct (Hb h c sb Hc Hs) as [Heq _]. pose proof (sent_le_1 (main s) h).
  unfold chan_cap. lia.
Qed.

(** One subscriber, signalled by [main]. *)
Definition signalled_state : QState := mkQ [[true]] [mkSub OneShot Running 0] (MSignal 1).

Lemma signalled_state_reachable : reachable signalled_state.
Proof. apply (run_sound [AAdd OneShot; AMain; AMain]). reflexivity. Qed.

Lemma quit_send_never_blocks_witness :
  (reachable signalled_state /\ chans signalled_state !! 0%nat = Some [true]) /\
  (length [true] <= 1 /\ length [true] < chan_cap)%nat.
Proof.
  split; [split; [exact signalled_state_reachable | reflexivity]|].
  exact (quit_send_never_blocks signalled_state 0 [true] signalled_state_reachable eq_refl).
Defined.

(** C30. What [WaitForCleanup] does guarantee: once it has returned, every
    one-shot task that received the quit signal has sent its
    acknowledgement and returned. *)
Theorem wait_done_signalled_exited s h sb :
  reachable s -> main s = MDone -> subs s !! h = Some sb ->
  kind sb = OneShot -> (1 <= received sb)%nat -> pc sb = Exited.
Proof.
  intros Hr Hm Hs Hk Hrec. destruct (reachable_balanced s Hr) as [Hlen Hb].
  destruct (lookup_lt_is_Some_2 (chans s) h) as [c Hc]; [apply lookup_lt_Some in Hs; lia|].
  destruct (Hb h c sb Hc Hs) as [Heq Hfresh]. rewrite Hm in Heq. specialize (Hfresh Hk).
  unfold acking in Heq. simpl in Heq. destruct (pc sb); [lia | lia | done].
Qed.

(** Two one-shot tasks that both take the signal before [main] waits. *)
Definition clean_shutdown : QState :=
  mkQ [[]; []] [mkSub OneShot Exited 1; mkSub OneShot Exited 1] MDone.

Lemma clean_shutdown_reachable : reachable clean_shutdown.
Proof.
  apply (run_sound [AAdd OneShot; AAdd OneShot; AMain; AMain; AMain; ASub 0; ASub 1;
                    AMain; ASub 0; ASub 1; AMain; AMain; AMain]).
  reflexivity.
Qed.

Lemma wait_done_signalled_exited_witness :
  (reachable clean_shutdown /\ main clean_shutdown = MDone /\
   subs clean_shutdown !! 1%nat = Some (mkSub OneShot Exited 1) /\
   kind (mkSub OneShot Exited 1) = OneShot /\ (1 <= received (mkSub OneShot Exited 1))%nat) /\
  pc (mkSub OneShot Exited 1) = Exited.
Proof.
  split; [split_and!; [exact clean_shutdown_reachable | reflexivity.. | simpl; lia]|].
  exact (wait_done_signalled_exited clean_shutdown 1 _ clean_shutdown_reachable eq_refl eq_refl
           eq_refl (le_n 1)).
Defined.

(** [WaitForCleanup] can return while a subscriber has not even seen
    the signal: [main] receives from the channel it has just written to
    and takes its own [true] back before the task does, so the process
    may exit while the collector is still running.  The concrete run of
    the general [shutdown_always_completes] below. *)
Lemma wait_returns_before_signal_taken :
  exists s, reachable s /\ main s = MDone /\ subs s !! 0%nat = Some (mkSub OneShot Running 0).
Proof.
  exists (mkQ [[]] [mkSub OneShot Running 0] MDone). split; [|done].
  apply (run_sound [AAdd OneShot; AMain; AMain; AMain; AMain; AMain]). reflexivity.
Qed.

(** C35. [liveDataHandler] is notified more than once: its [break] leaves
    the select only, so after acknowledging it receives its own
    acknowledgement as a second quit notification. *)
Theorem looping_subscriber_signalled_twice :
  exists s, reachable s /\ subs s !! 0%nat = Some (mkSub Looping Acking 2).
Proof.
  exists (mkQ [[]] [mkSub Looping Acking 2] (MSignal 1)). split; [|done].
  apply (run_sound [AAdd Looping; AMain; AMain; ASub 0; ASub 0; ASub 0]). reflexivity.
Qed.

(** ** Progress: [WaitForCleanup] always returns *)

(** The steps that need no subscriber to take its signal: [main]'s own
    steps (those that leave every subscriber as it is) and the
    acknowledgements already under way. *)
Inductive quiet_step : QState -> QState -> Prop :=
| quiet_main s s' : step s s' -> subs s' = subs s -> quiet_step s s'
| quiet_ack h sb c cs ss m :
    ss !! h = Some sb -> pc sb = Acking -> cs !! h = Some c -> (length c < chan_cap)%nat ->
    quiet_step (mkQ cs ss m)
      (mkQ (<[h := c ++ [true]]> cs) (<[h := mkSub (kind sb) (after_ack (kind sb)) (received sb)]> ss) m).

Lemma quiet_step_step s s' : quiet_step s s' -> step s s'.
Proof. destruct 1; [done|]. by econstructor. Qed.

(** [main]'s loop index never passes the number of channels. *)
Definition main_bounded (s : QState) : Prop :=
  match main s with MSignal i | MWait i => (i <= length (chans s))%nat | _ => True end.

Lemma step_main_bounded s s' : step s s' -> main_bounded s -> main_bounded s'.
Proof.
  unfold main_bounded. destruct 1 as [| |i c cs ss Hc _| |i v c cs ss Hc| | | |]; simpl;
    rewrite ?length_insert; try done; try (apply lookup_lt_Some in Hc); lia.
Qed.

Lemma reachable_main_bounded s : reachable s -> main_bounded s.
Proof.
  unfold reachable. intros Hr. cut (main_bounded NewQuitChannel); [|done].
  induction Hr; eauto using step_main_bounded.
Qed.

#[export] Instance SubPC_eq_dec : EqDecision SubPC.
Proof. solve_decision. Defined.
#[export] Instance MainPC_eq_dec : EqDecision MainPC.
Proof. solve_decision. Defined.

Definition no_acking (s : QState) : Prop := Forall (fun sb => pc sb <> Acking) (subs s).

Definition n_acking (s : QState) : nat := length (filter (fun sb => pc sb = Acking) (subs s)).

Lemma n_acking_insert ss h sb sb' :
  ss !! h = Some sb -> pc sb = Acking -> pc sb' <> Acking ->
  length (filter (fun sb => pc sb = Acking) (<[h := sb']> ss)) =
  pred (length (filter (fun sb => pc sb = Acking) ss)).
Proof.
  intros Hs Ha Hn. pose proof (lookup_lt_Some _ _ _ Hs) as Hlt.
  rewrite <- (take_drop_middle ss h sb Hs) at 2. rewrite insert_take_drop by done.
  rewrite !list.filter_app, !filter_cons_False, filter_cons_True, !length_app by done.
  simpl. lia.
Qed.

(** Every acknowledgement under way can be sent: afterwards nobody is
    acknowledging, [main] has not moved and the books still balance. *)
Lemma n_acking_pos ss h sb :
  ss !! h = Some sb -> pc sb = Acking ->
  (0 < length (filter (fun sb => pc sb = Acking) ss))%nat.
Proof.
  intros Hs Ha. rewrite <- (take_drop_middle ss h sb Hs), list.filter_app, filter_cons_True,
    length_app by done. simpl. lia.
Qed.

(** Every acknowledgement under way can be sent: afterwards nobody is
    acknowledging, [main] has not moved and the books still balance. *)
Lemma flush_acks s :
  balanced s -> exists s', rtc quiet_step s s' /\ no_acking s' /\ main s' = main s /\
    length (chans s') = length (chans s) /\ balanced s'.
Proof.
  remember (n_acking s) as n eqn:Hn. revert s Hn.
  induction n as [n IH] using lt_wf_ind; intros [cs ss m] Hn Hbal.
  destruct (list_find (fun sb => pc sb = Acking) ss) as [[h sb]|] eqn:Hf.
  - apply list_find_Some in Hf as (Hs & Ha & _).
    pose proof Hbal as [Hlen Hb]. simpl in Hlen.
    destruct (lookup_lt_is_Some_2 cs h) as [c Hc]; [apply lookup_lt_Some in Hs; lia|].
    destruct (Hb h c sb Hc Hs) as [Heq _]. simpl in Heq. unfold acking in Heq. rewrite Ha in Heq.
    pose proof (sent_le_1 m h).
    set (sb2 := mkSub (kind sb) (after_ack (kind sb)) (received sb)).
    set (s1 := mkQ (<[h := c ++ [true]]> cs) (<[h := sb2]> ss) m).
    assert (quiet_step (mkQ cs ss m) s1) as Hq by (econstructor; eauto; unfold chan_cap; lia).
    assert (pc sb2 <> Acking) by (simpl; by destruct (kind sb)).
    assert (n_acking s1 < n)%nat.
    { subst n. unfold n_acking. simpl. erewrite n_acking_insert by eauto.
      pose proof (n_acking_pos ss h sb Hs Ha). lia. }
    destruct (IH (n_acking s1) ltac:(done) s1 eq_refl) as (s' & Hrtc & Hna & Hm & Hl & Hb');
      [eapply step_balanced; [apply quiet_step_step, Hq|done]|].
    exists s'. split; [by eapply rtc_l|]. rewrite Hl. simpl. by rewrite length_insert.
  - exists (mkQ cs ss m). split_and!; [done| |done..].
    unfold no_acking. apply Forall_forall. intros sb Hin Ha.
    apply list_find_None in Hf. rewrite Forall_forall in Hf. by apply (Hf sb).
Qed.

(** How far [main] is from returning: [SignalQuit]'s loop counts twice
    the channels, [WaitForCleanup]'s once. *)
Definition main_measure (s : QState) : nat :=
  let n := length (chans s) in
  match main s with
  | MRun => 2 * n + 3
  | MSignal i => 2 * n + 2 - i
  | MWait i => n + 1 - i
  | MDone => 0
  end.

(** With nobody acknowledging, [main] can always take a step: each
    channel it signals is empty, each channel it waits on holds the
    acknowledgement. *)
Lemma main_progress s :
  balanced s -> main_bounded s -> no_acking s -> main s <> MDone ->
  exists s', quiet_step s s' /\ subs s' = subs s /\ length (chans s') = length (chans s) /\
    (main_measure s' < main_measure s)%nat.
Proof.
  destruct s as [cs ss m]. intros [Hlen Hb] Hbd Hna Hm. unfold no_acking in Hna.
  unfold main_bounded, main_measure in *. simpl in *.
  assert (forall i, (i < length cs)%nat -> exists c sb, cs !! i = Some c /\ ss !! i = Some sb /\
            (length c + taken m i = sent m i)%nat) as Hch.
  { intros i Hi. destruct (lookup_lt_is_Some_2 cs i) as [c Hc]; [done|].
    destruct (lookup_lt_is_Some_2 ss i) as [sb Hs]; [lia|].
    destruct (Hb i c sb Hc Hs) as [Heq _]. exists c, sb. split_and!; [done..|].
    unfold acking in Heq. rewrite Forall_lookup in Hna. specialize (Hna i sb Hs).
    destruct (pc sb); [lia|done|lia]. }
  destruct m as [|i|i|]; [| | |done].
  - eexists. split; [apply quiet_main; [apply step_signal_start|done]|]. simpl. split_and!; [done..|lia].
  - destruct (decide (i < length cs)%nat) as [Hi|Hi].
    + destruct (Hch i Hi) as (c & sb & Hc & _ & Heq). simpl in Heq.
      rewrite decide_False in Heq by lia.
      eexists. split; [apply quiet_main; [apply step_signal; [done|unfold chan_cap; lia]|done]|].
      simpl. rewrite length_insert. split_and!; [done..|lia].
    + assert (i = length cs) as -> by lia.
      eexists. split; [apply quiet_main; [apply step_signal_end|done]|]. simpl. split_and!; [done..|lia].
  - destruct (decide (i < length cs)%nat) as [Hi|Hi].
    + destruct (Hch i Hi) as (c & sb & Hc & _ & Heq). simpl in Heq.
      rewrite decide_False in Heq by lia.
      destruct c as [|v c]; [simpl in Heq; lia|].
      eexists. split; [apply quiet_main; [by eapply step_wait|done]|].
      simpl. rewrite length_insert. split_and!; [done..|lia].
    + assert (i = length cs) as -> by lia.
      eexists. split; [apply quiet_main; [apply step_wait_end|done]|]. simpl. split_and!; [done..|lia].
Qed.

(** [main]'s steps keep every invariant the progress argument needs. *)
Lemma main_completes s :
  balanced s -> main_bounded s -> no_acking s -> exists s', rtc quiet_step s s' /\ main s' = MDone.
Proof.
  remember (main_measure s) as n eqn:Hn. revert s Hn.
  induction n as [n IH] using lt_wf_ind; intros s Hn Hbal Hbd Hna.
  destruct (decide (main s = MDone)) as [Hd|Hd]; [by exists s|].
  destruct (main_progress s Hbal Hbd Hna Hd) as (s1 & Hq & Hsubs & _ & Hlt).
  pose proof (quiet_step_step _ _ Hq) as Hstep.
  destruct (IH (main_measure s1) ltac:(lia) s1 eq_refl) as (s' & Hrtc & Hdone);
    [by eapply step_balanced|by eapply step_main_bounded|by unfold no_acking; rewrite Hsubs|].
  exists s'. split; [by eapply rtc_l|done].
Qed.

(** Every reachable state reaches [main]'s return by quiet steps. *)
Lemma reachable_quiet_done s :
  reachable s -> exists s', rtc quiet_step s s' /\ main s' = MDone.
Proof.
  intros Hr. pose proof (reachable_balanced s Hr) as Hbal.
  destruct (flush_acks s Hbal) as (s1 & Hq1 & Hna & Hm & Hl & Hbal1).
  assert (main_bounded s1) as Hbd.
  { pose proof (reachable_main_bounded s Hr) as Hb. unfold main_bounded in *. by rewrite Hm, Hl. }
  destruct (main_completes s1 Hbal1 Hbd Hna) as (s' & Hq2 & Hd).
  exists s'. split; [by etrans|done].
Qed.

Lemma insert_unchanged {A} (l : list A) h x y : l !! h = Some y -> <[h := x]> l = l -> x = y.
Proof.
  intros Hy Hl. apply (f_equal (fun l => l !! h)) in Hl.
  rewrite list_lookup_insert_eq, Hy in Hl by (by eapply lookup_lt_Some). by simplify_eq.
Qed.

(** A quiet step is what the interpreter does for [main] or for the
    acknowledging subscriber. *)
Lemma quiet_step_exec s s' :
  quiet_step s s' -> exec AMain s = Some s' \/ exists h, exec (ASub h) s = Some s'.
Proof.
  destruct 1 as [s s' Hstep Hsubs|h sb c cs ss m Hs Ha Hc Hl].
  - destruct Hstep as [k cs ss|cs ss|i c cs ss Hc Hl|cs ss|i v c cs ss Hc|cs ss
      |h sb v c cs ss m Hs Hp Hc|h sb c cs ss m Hs Hp Hc Hl|h sb cs ss m Hs Hk Hp];
      simpl in *; left.
    + apply (f_equal length) in Hsubs. rewrite length_app in Hsubs. simpl in Hsubs. lia.
    + done.
    + rewrite Hc. by rewrite decide_True.
    + rewrite lookup_ge_None_2 by done. by rewrite decide_True.
    + by rewrite Hc.
    + rewrite lookup_ge_None_2 by done. by rewrite decide_True.
    + apply (insert_unchanged _ _ _ _ Hs) in Hsubs. rewrite <- Hsubs in Hp. discriminate Hp.
    + apply (insert_unchanged _ _ _ _ Hs) in Hsubs. rewrite <- Hsubs in Hp. simpl in Hp.
      destruct (kind sb); discriminate Hp.
    + apply (insert_unchanged _ _ _ _ Hs) in Hsubs. rewrite <- Hsubs in Hp. discriminate Hp.
  - right. exists h. simpl. rewrite Hs, Hc, Ha. by rewrite decide_True.
Qed.

(** A subscriber still in its [select] loop is untouched by quiet steps. *)
Lemma quiet_steps_keep_running s s' h sb :
  rtc quiet_step s s' -> subs s !! h = Some sb -> pc sb = Running -> subs s' !! h = Some sb.
Proof.
  induction 1 as [|s1 s2 s3 Hq _ IH]; [done|]. intros Hs Hr. apply IH; [|done].
  destruct Hq as [s1 s2 _ ->|h' sb' c cs ss m Hs' Ha _ _]; [done|]. simpl in *.
  rewrite list_lookup_insert_ne; [done|]. intros ->. congruence.
Qed.

(** C31. Liveness of the shutdown, under the premise of [step] that
    every [Add] happens before [SignalQuit] (see [LateAdd] for what
    happens without it): from every reachable state, whatever
    subscribers [Add] registered, whichever signals they took and
    whichever [liveDataHandler]s abandoned their loops, [SignalQuit]
    followed by [WaitForCleanup] runs to its return by [main]'s own
    steps and the acknowledgements already under way.  No subscriber
    needs to take its signal, and every subscriber still in its loop is
    left exactly as it was: [WaitForCleanup] reads back [main]'s own
    [true] from an untaken channel. *)
Theorem shutdown_always_completes s :
  reachable s -> exists s', rtc quiet_step s s' /\ main s' = MDone /\
    forall h sb, subs s !! h = Some sb -> pc sb = Running -> subs s' !! h = Some sb.
Proof.
  intros Hr. destruct (reachable_quiet_done s Hr) as (s' & Hq & Hd).
  exists s'. split_and!; [done|done|]. intros h sb Hs Hrun.
  by apply (quiet_steps_keep_running s s' h sb).
Qed.

Lemma shutdown_always_completes_witness :
  reachable signalled_state /\ exists s', rtc quiet_step signalled_state s' /\ main s' = MDone /\
    forall h sb, subs signalled_state !! h = Some sb -> pc sb = Running -> subs s' !! h = Some sb.
Proof.
  split; [apply signalled_state_reachable|].
  apply shutdown_always_completes, signalled_state_reachable.
Defined.

End Shutdown.
