(* ===== verification/LateAdd.v ===== *)
(** * LateAdd: [QuitChannel] with subscriptions at any time

    [Shutdown.step] lets [Add] run only before [SignalQuit], the spec's
    premise that the set of subscribers is closed when the signal is
    sent.  In the code [Add] ([src/quitchannel.go] lines 15-21) has no
    such guard, and [liveDataHandler] ([src/icmpmon.go] line 268) calls
    it for every WebSocket connection the server accepts, which goes on
    until [webServer] takes its own quit arm.  [SignalQuit] and
    [WaitForCleanup] loop with [for i := range quitChannel.channels]: Go
    evaluates the range expression once, so each loop runs over the
    channels that existed when it started.  [main]'s program counter
    here keeps that bound ([LSignal i n], [LWait i n]).

    [embed] maps [Shutdown]'s states into this model, and every step of
    [Shutdown.step] is a step here ([restricted_refines]).  The step
    this model adds, [Add] after [SignalQuit] began, breaks
    [Shutdown.shutdown_always_completes]: a channel added while the
    signal loop runs is never signalled, its subscriber never
    acknowledges, and [WaitForCleanup] waits on it for ever
    ([late_subscriber_blocks_shutdown]). *)

From S2P Require Import Prelude Shutdown.
From stdpp Require Import relations.
From stdpp Require Import options.

Module LateAdd.
Import Shutdown.

(** [main]: before [SignalQuit], in its loop at [i] of the [n] channels
    the range saw, in [WaitForCleanup]'s loop likewise, returned. *)
Inductive LMainPC :=
| LRun
| LSignal (i n : nat)
| LWait (i n : nat)
| LDone.

Record LQState := mkL { lchans : list (list bool); lsubs : list Sub; lmain : LMainPC }.

Inductive lstep : LQState -> LQState -> Prop :=
(** [quitChannel.Add()], whatever [main] is doing. *)
| lstep_add k cs ss m :
    lstep (mkL cs ss m) (mkL (cs ++ [[]]) (ss ++ [mkSub k Running 0]) m)
(** [SignalQuit]'s range is evaluated: [len(quitChannel.channels)]. *)
| lstep_signal_start cs ss :
    lstep (mkL cs ss LRun) (mkL cs ss (LSignal 0 (length cs)))
| lstep_signal i n c cs ss :
    (i < n)%nat -> cs !! i = Some c -> (length c < chan_cap)%nat ->
    lstep (mkL cs ss (LSignal i n)) (mkL (<[i := c ++ [true]]> cs) ss (LSignal (S i) n))
(** [SignalQuit] returns, [WaitForCleanup]'s range is evaluated. *)
| lstep_signal_end n cs ss :
    lstep (mkL cs ss (LSignal n n)) (mkL cs ss (LWait 0 (length cs)))
| lstep_wait i n v c cs ss :
    (i < n)%nat -> cs !! i = Some (v :: c) ->
    lstep (mkL cs ss (LWait i n)) (mkL (<[i := c]> cs) ss (LWait (S i) n))
| lstep_wait_end n cs ss :
    lstep (mkL cs ss (LWait n n)) (mkL cs ss LDone)
| lstep_sub_recv h sb v c cs ss m :
    ss !! h = Some sb -> pc sb = Running -> cs !! h = Some (v :: c) ->
    lstep (mkL cs ss m)
          (mkL (<[h := c]> cs) (<[h := mkSub (kind sb) Acking (S (received sb))]> ss) m)
| lstep_sub_ack h sb c cs ss m :
    ss !! h = Some sb -> pc sb = Acking -> cs !! h = Some c -> (length c < chan_cap)%nat ->
    lstep (mkL cs ss m)
          (mkL (<[h := c ++ [true]]> cs) (<[h := mkSub (kind sb) (after_ack (kind sb)) (received sb)]> ss) m)
| lstep_sub_abandon h sb cs ss m :
    ss !! h = Some sb -> kind sb = Looping -> pc sb = Running ->
    lstep (mkL cs ss m) (mkL cs (<[h := mkSub Looping Exited (received sb)]> ss) m).

Definition lreachable (s : LQState) : Prop := rtc lstep (mkL [] [] LRun) s.

(** A state of [Shutdown]: no channel was added after the signal, so
    each range bound is the number of channels. *)
Definition embed (s : QState) : LQState :=
  mkL (chans s) (subs s)
    (match main s with
     | MRun => LRun
     | MSignal i => LSignal i (length (chans s))
     | MWait i => LWait i (length (chans s))
     | MDone => LDone
     end).

(** ** Refinement *)

Lemma embed_step s s' : step s s' -> lstep (embed s) (embed s').
Proof.
  unfold embed. destruct 1 as [k cs ss|cs ss|i c cs ss Hc Hl|cs ss|i v c cs ss Hc|cs ss
    |h sb v c cs ss m Hs Hp Hc|h sb c cs ss m Hs Hp Hc Hl|h sb cs ss m Hs Hk Hp]; simpl;
    rewrite ?length_insert.
  - by constructor.
  - by constructor.
  - apply lstep_signal; [by eapply lookup_lt_Some|done..].
  - by constructor.
  - eapply lstep_wait; [by eapply lookup_lt_Some|done].
  - by constructor.
  - destruct m; by econstructor.
  - destruct m; by econstructor.
  - destruct m; by econstructor.
Qed.

(** ** A late subscriber blocks [WaitForCleanup] *)

(** Channel [h] is empty, its subscriber is not about to acknowledge,
    and [WaitForCleanup] has still to receive from it: nobody will ever
    write to it again. *)
Definition blocked_on (h : nat) (s : LQState) : Prop :=
  lchans s !! h = Some [] /\ (forall sb, lsubs s !! h = Some sb -> pc sb <> Acking) /\
  exists i n, lmain s = LWait i n /\ (i <= h < n)%nat.

Lemma blocked_on_step h s s' : lstep s s' -> blocked_on h s -> blocked_on h s'.
Proof.
  unfold blocked_on.
  destruct 1 as [k cs ss m|cs ss|i n c cs ss Hi Hc Hl|n cs ss|i n v c cs ss Hi Hc|n cs ss
    |h' sb v c cs ss m Hs Hp Hc|h' sb c cs ss m Hs Hp Hc Hl|h' sb cs ss m Hs Hk Hp];
    simpl; intros (Hch & Hsb & i0 & n0 & Hm & Hrange); simplify_eq.
  - split_and!; [by rewrite lookup_app_l; [|eapply lookup_lt_Some]| |eauto].
    intros sb Hs. apply lookup_app_Some in Hs as [Hs|(_ & Hs)]; [by apply Hsb|].
    by apply list_lookup_singleton_Some in Hs as [_ <-].
  - destruct (decide (i0 = h)) as [->|Hne]; [congruence|].
    split_and!; [by rewrite list_lookup_insert_ne|done|]. exists (S i0), n0. split; [done|lia].
  - lia.
  - destruct (decide (h' = h)) as [->|Hne]; [congruence|].
    split_and!; [by rewrite list_lookup_insert_ne| |eauto].
    intros sb' Hs'. rewrite list_lookup_insert_ne in Hs' by done. by apply Hsb.
  - destruct (decide (h' = h)) as [->|Hne]; [by apply Hsb in Hs|].
    split_and!; [by rewrite list_lookup_insert_ne| |eauto].
    intros sb' Hs'. rewrite list_lookup_insert_ne in Hs' by done. by apply Hsb.
  - split_and!; [done| |eauto]. intros sb' Hs'.
    apply list_lookup_insert_Some in Hs' as [(_ & <- & _)|(_ & Hs')]; [done|by apply Hsb].
Qed.

Lemma blocked_forever h s s' : blocked_on h s -> rtc lstep s s' -> lmain s' <> LDone.
Proof.
  intros Hb Hr. induction Hr as [s|s1 s2 s3 Hs _ IH]; [|by eapply IH, blocked_on_step].
  destruct Hb as (_ & _ & i & n & -> & _). done.
Qed.



(** A [collector] subscribes, [main] signals it, then a WebSocket
    client connects and [liveDataHandler] subscribes before
    [SignalQuit] returns: [WaitForCleanup] starts over two channels. *)
Definition late_subscriber_state : LQState :=
  mkL [[true]; []] [mkSub OneShot Running 0; mkSub Looping Running 0] (LWait 0 2).

(** C33. [WaitForCleanup] can block for ever: there is a reachable state,
    with [main] in [WaitForCleanup], from which no interleaving of
    [main], the subscribers and further subscriptions lets [main]
    return.  The channel [liveDataHandler] added during [SignalQuit] lies
    beyond the signal loop's range, so it never receives the signal,
    never acknowledges, and [WaitForCleanup] waits on it. *)
Theorem late_subscriber_blocks_shutdown :
  exists s, lreachable s /\ (exists i n, lmain s = LWait i n) /\
    forall s', rtc lstep s s' -> lmain s' <> LDone.
Proof.
  exists late_subscriber_state. split_and!; [|eauto|].
  { unfold lreachable, late_subscriber_state.
    eapply rtc_l; [apply (lstep_add OneShot)|]. simpl.
    eapply rtc_l; [apply lstep_signal_start|]. simpl.
    eapply rtc_l; [eapply lstep_signal; [lia|done|cbv; lia]|]. simpl.
    eapply rtc_l; [apply (lstep_add Looping)|]. simpl.
    eapply rtc_l; [apply lstep_signal_end|]. done. }
  intros s'. apply (blocked_forever 1). unfold blocked_on. simpl.
  split_and!; [done| |exists 0%nat, 2%nat; split; [done|lia]].
  intros sb [= <-]. done.
Qed.

End LateAdd.
