(* ===== verification/Correlator.v ===== *)
(** * Correlator: the [collector] goroutine of [src/icmpmon.go]

    [collector] (lines 174-232) owns the pending list [requests] and
    multiplexes four event sources; [cleanup] (lines 234-244) deletes
    old rows.  Its state here is the record [State]: the pending list,
    the live fan-out [queryChannel] (through which every emitted sample
    is published) and the rows of the [queries] table in insertion
    order.  The events are the arms of the [select]:

    - [EvMessage (MRequest r)]: [requests = append(requests, r)];
    - [EvMessage (MResponse resp)]: [match_loop], the newest-first scan
      of lines 190-206 that stops at the first (newest) match;
    - [EvTimeoutTick tnow]: [timeout_loop], the scan of lines 209-224,
      [tnow] being the wall clock in milliseconds; the loop's own
      [time.Now()] readings for the samples' times are taken equal to
      [tnow] (they differ by the loop's running time);
    - [EvCleanupTick tnow]: [cleanup];
    - [EvQuit]: the loop acknowledges and returns.

    A matched or timed-out entry is emitted by [emit_and_remove], in
    the source's order: [queryChannel.Push], removal from [requests],
    [db.Create] (whose error is ignored, so the row is always added). *)

From S2P Require Import Prelude Data Ring Broadcast.
From stdpp Require Import strings.
From stdpp Require Import options.

Local Open Scope Z_scope.

Module Correlator.

Record State := mkState {
  requests : list Request;
  live : QueryChannel.t;
  db : list Query
}.

(** Lines 194-198: the sample of a matched reply. *)
Definition response_query (r : Request) (resp : Response) : Query :=
  mkQuery (peer_ID (req_Peer r)) (resp_Time resp -! req_Time r)%go (resp_Time resp).

(** Lines 213-217: the sample of a timed-out request. *)
Definition timeout_query (r : Request) (tnow : Z) : Query :=
  mkQuery (peer_ID (req_Peer r)) (-1) tnow.

(** [queryChannel.Push(query)]; [requests = append(requests[:i],
    requests[i+1:]...)]; [db.Create(&query)]. *)
Definition emit_and_remove (i : nat) (q : Query) (st : State) : State :=
  mkState (remove_at i (requests st)) (QueryChannel.Push q (live st)) (db st ++ [q]).

(** Lines 190-206, [i] counting down from [len(requests)]. *)
Fixpoint match_loop (resp : Response) (i : nat) (st : State) : State :=
  match i with
  | O => st
  | S i' =>
      match requests st !! i' with
      | Some r =>
          if decide (req_ID r = resp_ID resp)
          then emit_and_remove i' (response_query r resp) st
          else match_loop resp i' st
      | None => match_loop resp i' st
      end
  end.

Definition handle_response (resp : Response) (st : State) : State :=
  match_loop resp (length (requests st)) st.

(** Line 211: [requests[i].Time + int64( *requests[i].Peer.Timeout) > now]. *)
Definition timed_out (now : Z) (r : Request) : Prop :=
  now < (req_Time r +! peer_Timeout (req_Peer r))%go.

#[export] Instance timed_out_dec now r : Decision (timed_out now r).
Proof. unfold timed_out. apply _. Defined.

(** Lines 210-224. *)
Fixpoint timeout_loop (now tnow : Z) (i : nat) (st : State) : State :=
  match i with
  | O => st
  | S i' =>
      let st' :=
        match requests st !! i' with
        | Some r =>
            if decide (timed_out now r) then emit_and_remove i' (timeout_query r tnow) st
            else st
        | None => st
        end in
      timeout_loop now tnow i' st'
  end.

(** Line 209: [now = time.Now().UTC().Unix() * 1000], whole seconds. *)
Definition handle_timeout_tick (tnow : Z) (st : State) : State :=
  timeout_loop ((tnow `div` 1000) * 1000) tnow (length (requests st)) st.

(** [cleanup()]: [DELETE FROM queries WHERE time < cutoff], with
    [cutoff = now.Add(-KeepHistoryFor).Unix()*1000]; [keep] is
    [KeepHistoryFor] in milliseconds. *)
Definition cleanup_cutoff (keep tnow : Z) : Z := ((tnow - keep) `div` 1000) * 1000.

Definition cleanup (keep tnow : Z) (st : State) : State :=
  mkState (requests st) (live st) (filter (fun q => cleanup_cutoff keep tnow <= q_Time q) (db st)).

Inductive Event :=
| EvMessage (m : Message)
| EvTimeoutTick (tnow : Z)
| EvCleanupTick (tnow : Z)
| EvQuit.

(** One iteration of the [for { select { ... } }] loop; [None] once the
    loop has returned. *)
Definition collector_step (keep : Z) (ev : Event) (st : State) : option State :=
  match ev with
  | EvMessage (MRequest r) => Some (mkState (requests st ++ [r]) (live st) (db st))
  | EvMessage (MResponse resp) => Some (handle_response resp st)
  | EvTimeoutTick tnow => Some (handle_timeout_tick tnow st)
  | EvCleanupTick tnow => Some (cleanup keep tnow st)
  | EvQuit => None
  end.

(** The loop over a sequence of events, stopping at [EvQuit]. *)
Fixpoint collector_run (keep : Z) (evs : list Event) (st : State) : State :=
  match evs with
  | [] => st
  | ev :: evs' =>
      match collector_step keep ev st with
      | Some st' => collector_run keep evs' st'
      | None => st
      end
  end.

(** The collector's start (lines 176-181): the first [cleanup()]. *)
Definition collector_start (keep tnow : Z) (st : State) : State := cleanup keep tnow st.

(** ** Replies *)

(** The scan passes over the indices whose entry has another sequence
    number. *)
Lemma match_loop_skip resp i j st :
  (j <= i)%nat ->
  (forall k r, (j <= k < i)%nat -> requests st !! k = Some r -> req_ID r <> resp_ID resp) ->
  match_loop resp i st = match_loop resp j st.
Proof.
  induction i as [|i IH]; intros Hji Hne.
  - by replace j with 0%nat by lia.
  - destruct (decide (j = S i)) as [->|Hj]; [done|].
    simpl. destruct (requests st !! i) as [r|] eqn:Hr.
    + rewrite decide_False by (eapply Hne; [| exact Hr]; lia).
      apply IH; [lia|]. intros k r' Hk. apply Hne. lia.
    + apply IH; [lia|]. intros k r' Hk. apply Hne. lia.
Qed.

(** C1. A reply whose sequence number is pending is matched with the
    newest pending request of that number: the sample
    [(peer, received, received - sent)] is published and stored, and
    exactly that entry leaves the pending list. *)
Theorem response_matches_newest resp st pre r post :
  requests st = pre ++ r :: post ->
  req_ID r = resp_ID resp ->
  Forall (fun r' => req_ID r' <> resp_ID resp) post ->
  handle_response resp st =
    mkState (pre ++ post) (QueryChannel.Push (response_query r resp) (live st))
            (db st ++ [response_query r resp]).
Proof.
  intros Hreq Hid Hpost. unfold handle_response.
  rewrite (match_loop_skip _ _ (S (length pre))).
  - simpl. rewrite Hreq, lookup_middle, decide_True by done.
    unfold emit_and_remove. rewrite Hreq, remove_at_app by done. done.
  - rewrite Hreq, length_app. simpl. lia.
  - intros k r' Hk Hr'. rewrite Hreq, lookup_app_r in Hr' by lia.
    destruct (k - length pre)%nat as [|k'] eqn:E; [lia|]. simpl in Hr'.
    rewrite Forall_lookup in Hpost. eauto.
Qed.

(** A pending list with sequence number 5 sent twice (a wrapped counter)
    and number 6 in between. *)
Definition example_requests : list Request :=
  [mkRequest 5 [] 100 (mkPeer "" "" 1000 1000 7 []);
   mkRequest 6 [] 200 (mkPeer "" "" 1000 1000 8 []);
   mkRequest 5 [] 300 (mkPeer "" "" 1000 1000 9 [])].

Lemma response_matches_newest_witness :
  let st := mkState example_requests QueryChannel.NewQueryChannel [] in
  let resp := mkResponse 5 [] 350 in
  handle_response resp st =
    mkState (take 2 example_requests) (QueryChannel.Push (mkQuery 9 50 350) QueryChannel.NewQueryChannel)
            [mkQuery 9 50 350].
Proof.
  exact (response_matches_newest (mkResponse 5 [] 350) (mkState example_requests QueryChannel.NewQueryChannel [])
           (take 2 example_requests) (mkRequest 5 [] 300 (mkPeer "" "" 1000 1000 9 [])) []
           eq_refl eq_refl (Forall_nil_2 _)).
Defined.

(** C2. A reply whose sequence number is not pending (late, duplicate
    or foreign) changes nothing: no sample, no removal. *)
Theorem response_unmatched_noop resp st :
  Forall (fun r => req_ID r <> resp_ID resp) (requests st) -> handle_response resp st = st.
Proof.
  intros H. unfold handle_response. rewrite (match_loop_skip _ _ 0); [done | lia |].
  intros k r _ Hr. rewrite Forall_lookup in H. eauto.
Qed.

Lemma response_unmatched_noop_witness :
  Forall (fun r => req_ID r <> resp_ID (mkResponse 4 [] 350)) example_requests /\
  handle_response (mkResponse 4 [] 350) (mkState example_requests QueryChannel.NewQueryChannel [])
  = mkState example_requests QueryChannel.NewQueryChannel [].
Proof.
  assert (Forall (fun r => req_ID r <> resp_ID (mkResponse 4 [] 350)) example_requests) as H
    by (repeat constructor; simpl; lia).
  split; [exact H|]. exact (response_unmatched_noop _ (mkState example_requests _ []) H).
Defined.

(** With clock readings between 0 and 2^62 ms and a reply received
    after its request was sent, the stored response time is the exact
    difference of the two readings and is non-negative: the [int64]
    subtraction does not wrap. *)
Lemma response_time_exact r resp :
  0 <= req_Time r <= resp_Time resp -> resp_Time resp < 2 ^ 62 ->
  q_ResponseTime (response_query r resp) = resp_Time resp - req_Time r /\
  0 <= q_ResponseTime (response_query r resp).
Proof. intros H1 H2. simpl. rewrite sub64_exact by int64_solve. lia. Qed.

Lemma response_time_exact_witness :
  (0 <= 300 <= 350 /\ 350 < 2 ^ 62) /\
  q_ResponseTime (response_query (mkRequest 5 [] 300 (mkPeer "" "" 1000 1000 9 [])) (mkResponse 5 [] 350))
    = 350 - 300 /\
  0 <= q_ResponseTime (response_query (mkRequest 5 [] 300 (mkPeer "" "" 1000 1000 9 [])) (mkResponse 5 [] 350)).
Proof.
  split; [lia|]. apply response_time_exact; simpl; lia.
Defined.

(** ** Timeouts *)

Lemma timeout_loop_spec now tnow pre post lv d :
  timeout_loop now tnow (length pre) (mkState (pre ++ post) lv d) =
  let qs := map (fun r => timeout_query r tnow) (rev (filter (timed_out now) pre)) in
  mkState (filter (fun r => ~ timed_out now r) pre ++ post) (QueryChannel.Push_all qs lv) (d ++ qs).
Proof.
  revert post lv d. induction pre as [|x pre IH] using rev_ind; intros post lv d.
  - simpl. by rewrite app_nil_r.
  - rewrite length_app, Nat.add_1_r. cbn [timeout_loop requests].
    replace ((pre ++ [x]) ++ post) with (pre ++ x :: post) by (by rewrite <- app_assoc).
    rewrite lookup_middle.
    rewrite !list.filter_app. case_decide as Hx.
    + rewrite (filter_cons_True (timed_out now)), (filter_cons_False (fun r => ~ timed_out now r))
        by auto.
      rewrite !filter_nil. unfold emit_and_remove. cbn [requests live db].
      rewrite remove_at_app, IH by done. simpl.
      rewrite !app_nil_r, rev_app_distr. simpl. by rewrite <- app_assoc.
    + rewrite (filter_cons_False (timed_out now)), (filter_cons_True (fun r => ~ timed_out now r))
        by auto.
      rewrite !filter_nil, IH, !app_nil_r, <- app_assoc. done.
Qed.

(** The loop run over the whole pending list. *)
Lemma timeout_loop_all now tnow reqs lv d :
  timeout_loop now tnow (length reqs) (mkState reqs lv d) =
  let qs := map (fun r => timeout_query r tnow) (rev (filter (timed_out now) reqs)) in
  mkState (filter (fun r => ~ timed_out now r) reqs) (QueryChannel.Push_all qs lv) (d ++ qs).
Proof.
  pose proof (timeout_loop_spec now tnow reqs [] lv d) as H.
  rewrite !app_nil_r in H. exact H.
Qed.

(** C3. A timeout tick at wall clock [tnow] removes from the pending
    list exactly the requests for which [timed_out] holds, the source's
    test [Time + Timeout > now] with [now] the clock in whole seconds,
    and emits for each of them, newest first, one sample
    [(peer, tnow, -1)], published and stored; the other requests stay
    pending in their order. *)
Theorem timeout_tick_spec tnow st :
  let now := (tnow `div` 1000) * 1000 in
  let qs := map (fun r => timeout_query r tnow) (rev (filter (timed_out now) (requests st))) in
  handle_timeout_tick tnow st =
    mkState (filter (fun r => ~ timed_out now r) (requests st))
            (QueryChannel.Push_all qs (live st)) (db st ++ qs).
Proof. destruct st. unfold handle_timeout_tick. simpl. apply timeout_loop_all. Qed.

Lemma requests_timeout_tick tnow st :
  requests (handle_timeout_tick tnow st) =
  filter (fun r => ~ timed_out ((tnow `div` 1000) * 1000) r) (requests st).
Proof. destruct st. unfold handle_timeout_tick. simpl. by rewrite timeout_loop_all. Qed.

(** C4. The timeout test is inverted: a pending request whose deadline
    [Time + Timeout] has been reached at a tick is not removed by it,
    so through any sequence of later ticks an expired request stays
    pending forever and its loss is never recorded. *)
Theorem expired_request_never_removed r ticks st :
  r ∈ requests st ->
  Forall (fun tnow => (req_Time r +! peer_Timeout (req_Peer r))%go <= (tnow `div` 1000) * 1000) ticks ->
  r ∈ requests (foldl (fun s t => handle_timeout_tick t s) st ticks).
Proof.
  revert st. induction ticks as [|t ticks IH]; intros st Hr Hticks; [done|].
  inversion Hticks as [|? ? Ht Hrest]; subst. simpl. apply IH; [|done].
  rewrite requests_timeout_tick. apply list_elem_of_filter. split; [|done].
  unfold timed_out. lia.
Qed.

(** A request sent at 10.2 s with a 1 s timeout, still pending at the
    ticks of 12.0 s, 12.9 s and 60 s. *)
Definition late_request : Request := mkRequest 1 [] 10200 (mkPeer "" "" 1000 1000 7 []).

Lemma expired_request_never_removed_witness :
  late_request ∈ requests (mkState [late_request] QueryChannel.NewQueryChannel []) /\
  Forall (fun tnow => (req_Time late_request +! peer_Timeout (req_Peer late_request))%go
                      <= (tnow `div` 1000) * 1000) [12000; 12900; 60000] /\
  late_request ∈ requests (foldl (fun s t => handle_timeout_tick t s)
                             (mkState [late_request] QueryChannel.NewQueryChannel []) [12000; 12900; 60000]).
Proof.
  assert (late_request ∈ requests (mkState [late_request] QueryChannel.NewQueryChannel [])) as H1
    by (simpl; constructor).
  assert (Forall (fun tnow => (req_Time late_request +! peer_Timeout (req_Peer late_request))%go
                      <= (tnow `div` 1000) * 1000) [12000; 12900; 60000]) as H2
    by (do 3 (constructor; [apply Z.leb_le; vm_compute; reflexivity|]); constructor).
  split; [exact H1|]. split; [exact H2|]. exact (expired_request_never_removed _ _ _ H1 H2).
Defined.

(** ** Conservation of probes *)

(** The probes the collector accounts for: pending, or stored. *)
Definition probes (st : State) : nat := length (requests st) + length (db st).

Lemma match_loop_probes resp i st : probes (match_loop resp i st) = probes st.
Proof.
  induction i as [|i IH]; [done|]. simpl.
  destruct (requests st !! i) as [r|] eqn:Hr; [|done]. case_decide; [|done].
  unfold probes, emit_and_remove. simpl. apply lookup_lt_Some in Hr.
  rewrite length_remove_at, length_app by done. simpl. lia.
Qed.

Lemma timeout_tick_probes tnow st : probes (handle_timeout_tick tnow st) = probes st.
Proof.
  destruct st as [reqs lv d]. unfold handle_timeout_tick. simpl. rewrite timeout_loop_all.
  unfold probes. simpl. rewrite length_app, length_map, length_rev.
  pose proof (Permutation_length
    (filter_app_complement (timed_out ((tnow `div` 1000) * 1000)) reqs)) as Hp.
  rewrite length_app in Hp. lia.
Qed.

(** A request arriving on [messages] adds one probe. *)
Definition arrival (ev : Event) : nat :=
  match ev with EvMessage (MRequest _) => 1 | _ => 0 end.

(** The events after which the loop goes on and deletes no row. *)
Definition steady (ev : Event) : Prop :=
  match ev with EvCleanupTick _ | EvQuit => False | _ => True end.

(** C5. Every probe is accounted for exactly once: over any run of the
    loop without a retention sweep, the pending requests plus the stored
    samples grow by exactly the number of requests received, since a
    reply or a timeout moves one pending entry to one stored sample and
    a sample is never emitted twice for one entry. *)
Theorem collector_conservation keep evs st :
  Forall steady evs ->
  probes (collector_run keep evs st) = (probes st + sum_list_with arrival evs)%nat.
Proof.
  revert st. induction evs as [|ev evs IH]; intros st Hevs; simpl; [lia|].
  inversion Hevs as [|? ? Hev Hrest]; subst.
  destruct ev as [[r|resp]|tnow|tnow|]; simpl in Hev |- *; try contradiction.
  - rewrite IH by done. unfold probes. simpl. rewrite length_app. simpl. lia.
  - rewrite IH by done. unfold handle_response. rewrite match_loop_probes. lia.
  - rewrite IH, timeout_tick_probes by done. lia.
Qed.

Lemma collector_conservation_witness :
  let evs := [EvMessage (MRequest late_request); EvMessage (MRequest late_request);
              EvMessage (MResponse (mkResponse 1 [] 10250)); EvTimeoutTick 10500] in
  Forall steady evs /\
  probes (collector_run 0 evs (mkState [] QueryChannel.NewQueryChannel []))
  = (probes (mkState [] QueryChannel.NewQueryChannel []) + sum_list_with arrival evs)%nat.
Proof.
  assert (Forall steady [EvMessage (MRequest late_request); EvMessage (MRequest late_request);
              EvMessage (MResponse (mkResponse 1 [] 10250)); EvTimeoutTick 10500]) as H
    by (repeat constructor).
  split; [exact H|]. exact (collector_conservation 0 _ _ H).
Defined.

End Correlator.
