(* ===== verification/System.v ===== *)
(** * System: the measurement path of [main], composed

    [main] (lines 590-660 of [src/icmpmon.go]) starts one [pingRoutine]
    per peer, one [readListener] per socket and the [collector], all
    sharing the ring channel [messages = channels.NewRingChannel(1024)]
    (line 629): [ping] writes a [Request] to it and [readListener] a
    [Response]; the [collector] reads them in order.

    The state [Sys] is the wall clock, the [Sender] of [Scheduler]
    (the global [seqcount], the [messages] ring and the datagrams
    written to the sockets) and the collector's [Correlator.State].
    An [Action] is one step of one goroutine: an iteration of a
    [pingRoutine] loop, one datagram of a [readListener] loop, one arm
    of the collector's [select], or time passing.  [exec] runs it on a
    state; [None] means that the action is not enabled (the collector
    has nothing to read) or that the process is gone ([log.Panic]
    after a failed write, or an unknown IP version).  Any interleaving
    of the goroutines is a list of actions.

    Besides the new state, a step reports what it destroys: the value
    the ring discards when a write finds it full ([Lost]), and the rows
    the retention sweep deletes ([Deleted]).  [system_conservation]
    accounts for every probe written to a socket by these reports. *)

From S2P Require Import Prelude Data Ring Icmp Scheduler Broadcast Correlator.
From stdpp Require Import strings.
From stdpp Require Import options.

Local Open Scope Z_scope.

Module System.
Import Correlator.

(** What a step destroys. *)
Inductive Obs :=
| Lost (m : Message)      (** discarded by the full [messages] ring *)
| Deleted (q : Query).    (** deleted by [cleanup()] *)

Record Sys := mkSys {
  clock : Z;                  (** [time.Now()] in milliseconds *)
  sender : Sender;            (** [seqcount], [messages], the sockets *)
  coll : Correlator.State     (** [requests], [queryChannel], the table *)
}.

(** The value [Ring.push v r] discards: the oldest one, when the
    buffer was not empty and the write takes it over its size. *)
Definition evicted {A} (v : A) (r : Ring.t A) : option A :=
  match Ring.buf r with
  | [] => None
  | x :: _ => if decide (Ring.cap r < length (Ring.buf r ++ [v]))%nat then Some x else None
  end.

Definition lost {A} (f : A -> Obs) (o : option A) : list Obs :=
  from_option (fun x => [f x]) [] o.

(** [messages.In() <- m] from a [readListener]. *)
Definition push_message (m : Message) (s : Sys) : Sys * list Obs :=
  let st := sender s in
  (mkSys (clock s) (mkSender (seqcount st) (Ring.push m (messages st)) (wire st)) (coll s),
   lost Lost (evicted m (messages st))).

Inductive Action :=
| Advance (d : N)                       (** time passes *)
| PingTick (peer : Peer) (write_ok : bool)
    (** an iteration of [pingRoutine(peer)]: [ping], then the wait *)
| Datagram (ipVersion : Z) (r : read_result)
    (** [readListener(listener, ipVersion)] reads [r] *)
| CollectMessage                        (** [case message := <-messages.Out()] *)
| CollectTimeout                        (** [case <-timeoutTicker.C] *)
| CollectCleanup.                       (** [case <-cleanupTicker.C] *)

Section Exec.
Context (pid keep : Z).

(** The collector's loop runs one arm on the state. *)
Definition collect (ev : Event) (msgs : Ring.t Message) (s : Sys) : option Sys :=
  (fun c => mkSys (clock s) (mkSender (seqcount (sender s)) msgs (wire (sender s))) c)
    <$> collector_step keep ev (coll s).

Definition exec (a : Action) (s : Sys) : option (Sys * list Obs) :=
  match a with
  | Advance d => Some (mkSys (clock s + Z.of_N d) (sender s) (coll s), [])
  | PingTick peer ok =>
      let req := MRequest (mkRequest (alloc_seq (seqcount (sender s))) [] (clock s) peer) in
      match pingRoutine_iter pid (clock s) ok peer (sender s) with
      | Continue st' => Some (mkSys (clock s) st' (coll s),
                              lost Lost (evicted req (messages (sender s))))
      | Panic _ => None
      end
  | Datagram v r =>
      match expected_type v with
      | None => None
      | Some ty =>
          match handle_datagram ty r (clock s) with
          | Some resp => Some (push_message (MResponse resp) s)
          | None => Some (s, [])
          end
      end
  | CollectMessage =>
      match Ring.pop (messages (sender s)) with
      | None => None
      | Some (m, msgs) => (fun s' => (s', [])) <$> collect (EvMessage m) msgs s
      end
  | CollectTimeout =>
      (fun s' => (s', [])) <$> collect (EvTimeoutTick (clock s)) (messages (sender s)) s
  | CollectCleanup =>
      (fun s' => (s', map Deleted (filter (fun q => q_Time q < cleanup_cutoff keep (clock s))
                                          (db (coll s)))))
        <$> collect (EvCleanupTick (clock s)) (messages (sender s)) s
  end.

(** An interleaving, the reports in order. *)
Fixpoint run (acts : list Action) (s : Sys) : option (Sys * list Obs) :=
  match acts with
  | [] => Some (s, [])
  | a :: acts' =>
      match exec a s with
      | None => None
      | Some (s1, o1) =>
          match run acts' s1 with
          | None => None
          | Some (s2, o2) => Some (s2, o1 ++ o2)
          end
      end
  end.

End Exec.

(** The state after [main]'s setup: nothing sent, nothing pending, an
    empty table. *)
Definition init : Sys :=
  mkSys 0 (mkSender 0 (Ring.NewRingChannel 1024) []) (mkState [] QueryChannel.NewQueryChannel []).

(** ** Accounting *)

Definition is_request (m : Message) : bool := if m is MRequest _ then true else false.

(** The probes the system still knows of: requests in the ring, pending
    requests, stored samples. *)
Definition accounted (s : Sys) : nat :=
  length (filter (fun m => is_request m = true) (Ring.buf (messages (sender s)))) + probes (coll s).

Definition lost_request (o : Obs) : bool := if o is Lost (MRequest _) then true else false.
Definition is_deleted (o : Obs) : bool := if o is Deleted _ then true else false.

Definition destroyed (obs : list Obs) : nat :=
  length (filter (fun o => lost_request o = true) obs) + length (filter (fun o => is_deleted o = true) obs).

Definition sent (s : Sys) : nat := length (wire (sender s)).

Lemma push_evicted {A} (v : A) r :
  option_list (evicted v r) ++ Ring.buf (Ring.push v r) = Ring.buf r ++ [v].
Proof.
  unfold evicted, Ring.push. destruct (Ring.buf r) as [|x b]; [done|]. simpl.
  by case_decide.
Qed.

(** What the ring holds after a write came from what it held and the
    written value. *)
Lemma push_Forall {A} (P : A -> Prop) v r :
  Forall P (Ring.buf r) -> P v -> Forall P (Ring.buf (Ring.push v r)).
Proof.
  intros Hr Hv. pose proof (push_evicted v r) as He.
  assert (Forall P (option_list (evicted v r) ++ Ring.buf (Ring.push v r))) as Hall
    by (rewrite He; apply Forall_app; auto).
  by apply Forall_app in Hall as [_ ?].
Qed.

Lemma count_push (v : Message) r :
  (length (filter (fun m => is_request m = true) (Ring.buf (Ring.push v r)))
   + length (filter (fun o => lost_request o = true) (lost Lost (evicted v r)))
   = length (filter (fun m => is_request m = true) (Ring.buf r)) + (if is_request v then 1 else 0))%nat.
Proof.
  pose proof (f_equal (fun l => length (filter (fun m => is_request m = true) l)) (push_evicted v r))
    as H. simpl in H. rewrite !filter_app, !length_app in H.
  destruct (evicted v r) as [[q|q]|]; simpl in *;
    destruct v; rewrite ?filter_cons_True, ?filter_cons_False, ?filter_nil in H by done;
    simpl in *; lia.
Qed.

Lemma count_filter_split {A} (P : A -> Prop) `{!forall x, Decision (P x)} l :
  (length (filter P l) + length (filter (fun x => ~ P x) l) = length l)%nat.
Proof.
  pose proof (Permutation_length (filter_app_complement P l)) as Hl.
  by rewrite length_app in Hl.
Qed.

Lemma destroyed_app o1 o2 : destroyed (o1 ++ o2) = (destroyed o1 + destroyed o2)%nat.
Proof. unfold destroyed. rewrite !filter_app, !length_app. lia. Qed.

Lemma destroyed_deleted l : destroyed (map Deleted l) = length l.
Proof.
  unfold destroyed. induction l as [|q l IH]; [done|]. cbn [map].
  rewrite filter_cons_False, filter_cons_True by done. cbn [length]. lia.
Qed.

Lemma destroyed_lost (o : option Message) :
  destroyed (lost Lost o) = length (filter (fun o => lost_request o = true) (lost Lost o)).
Proof.
  by destruct o as [[]|].
Qed.

Lemma destroyed_nil : destroyed [] = 0%nat.
Proof. done. Qed.

#[export] Hint Rewrite destroyed_nil destroyed_app destroyed_deleted destroyed_lost : icmpmon_rw.

(** One step keeps the books: what is accounted after it, plus what it
    destroyed, is what was accounted before plus what it wrote to the
    sockets. *)
Lemma exec_accounts pid keep a s s' o :
  exec pid keep a s = Some (s', o) ->
  (accounted s' + destroyed o + sent s = accounted s + sent s')%nat.
Proof.
  destruct s as [t [sq msgs w] c]. unfold accounted, sent.
  destruct a as [d|peer []|v r| | |]; simpl; intros H.
  - simplify_eq/=. rewrite destroyed_nil. lia.
  - unfold pingRoutine_iter, ping in H. simpl in H. simplify_eq/=.
    rewrite destroyed_lost, length_app. simpl.
    pose proof (count_push (MRequest (mkRequest (alloc_seq sq) [] t peer)) msgs). simpl in *. lia.
  - unfold pingRoutine_iter, ping in H. simpl in H. done.
  - destruct (expected_type v); [|done].
    destruct (handle_datagram _ _ _); simplify_eq/=; [|rewrite destroyed_nil; lia].
    unfold push_message in H. simplify_eq/=. rewrite destroyed_lost. pose proof (count_push (MResponse r0) msgs). simpl in *. lia.
  - unfold Ring.pop in H. simpl in H. destruct msgs as [cap [|m b]]; [done|]. simpl in *.
    unfold collect in H. destruct m as [r|resp]; simplify_eq/=.
    + rewrite destroyed_nil. unfold probes. simpl. rewrite length_app. simpl. lia.
    + rewrite destroyed_nil, filter_cons_False by done.
      unfold handle_response. rewrite match_loop_probes. lia.
  - unfold collect in H. simplify_eq/=. rewrite destroyed_nil, timeout_tick_probes. lia.
  - unfold collect in H. simplify_eq/=. rewrite destroyed_deleted. unfold probes. simpl.
    pose proof (count_filter_split (fun q => cleanup_cutoff keep t <= q_Time q) (db c)) as Hs.
    rewrite (list_filter_iff (fun x => ~ cleanup_cutoff keep t <= q_Time x)
               (fun q => q_Time q < cleanup_cutoff keep t)) in Hs by (intros; lia).
    lia.
Qed.

(** C6. Conservation of probes across the whole measurement path: over
    any interleaving of the ping loops, the listeners and the collector,
    every probe written to a socket is still buffered in [messages] as
    a [Request], pending in the collector, or stored as a sample, unless
    the run reports it destroyed: discarded by the full ring, or deleted
    by the retention sweep.  Nothing else loses a probe, and no probe
    yields two samples. *)
Theorem system_conservation pid keep acts s s' obs :
  run pid keep acts s = Some (s', obs) ->
  (accounted s' + destroyed obs + sent s = accounted s + sent s')%nat.
Proof.
  revert s obs. induction acts as [|a acts IH]; intros s obs H; simpl in H.
  - simplify_eq. rewrite destroyed_nil. lia.
  - destruct (exec pid keep a s) as [[s1 o1]|] eqn:He; [|done].
    destruct (run pid keep acts s1) as [[s2 o2]|] eqn:Hr; [|done]. simplify_eq.
    apply exec_accounts in He. apply IH in Hr. rewrite destroyed_app. lia.
Qed.

(** ** Overload *)

(** The echo reply of [example_peer4] to the probe with sequence
    number [k], as [listener4] reads it. *)
Definition echo_reply (pid k : Z) : read_result :=
  mkRead (Marshal (mkMessage ipv4_ICMPTypeEchoReply 0 0 (Echo (Z.land pid 65535) k [])))
         (peer_ip example_peer4) false.

(** 1025 probes of one peer before the collector runs; then the
    collector takes the 1024 buffered requests; every probe is answered
    5 ms later, the newest first, each reply being collected as it
    arrives; a second later the timeout ticker fires. *)
Definition overload_schedule (pid : Z) : list Action :=
  repeat (PingTick example_peer4 true) 1025 ++
  repeat CollectMessage 1024 ++
  [Advance 5] ++
  flat_map (fun k => [Datagram 4 (echo_reply pid k); CollectMessage])
           (map (fun j => 1025 - Z.of_nat j) (seq 0 1025)) ++
  [Advance 1000; CollectTimeout].


Lemma system_conservation_witness :
  exists s obs, run 4242 0 (overload_schedule 4242) init = Some (s, obs) /\
    (accounted s + destroyed obs + sent init = accounted init + sent s)%nat.
Proof.
  do 2 eexists. split; [vm_compute; reflexivity|].
  apply (system_conservation 4242 0 (overload_schedule 4242) init). vm_compute. reflexivity.
Defined.

(** ** Order of the samples *)

(** Two probes of [example_peer4] (timeout 1000 ms), sent at 0 and 500
    ms; the first one's reply is read at 999 ms, and the timeout ticker
    fires at 1000 ms before the collector has taken the reply: Go's
    [select] chooses at random between ready arms. *)
Definition tick_before_reply (pid : Z) : list Action :=
  [PingTick example_peer4 true; Advance 500; PingTick example_peer4 true;
   CollectMessage; CollectMessage; Advance 499; Datagram 4 (echo_reply pid 1);
   Advance 1; CollectTimeout; CollectMessage].


(** ** IPv6 *)

Definition on_listener6 (a : Action) : Prop :=
  match a with Datagram v _ => v = 6 | _ => True end.

(** Only requests in the ring, only loss samples in the table. *)
Definition v6_inv (s : Sys) : Prop :=
  Forall (fun m => is_request m = true) (Ring.buf (messages (sender s))) /\
  Forall (fun q => q_ResponseTime q = -1) (db (coll s)).

Lemma db_timeout_tick tnow st :
  db (handle_timeout_tick tnow st) =
  db st ++ map (fun r => timeout_query r tnow)
                (rev (filter (timed_out ((tnow `div` 1000) * 1000)) (requests st))).
Proof. destruct st. unfold handle_timeout_tick. simpl. by rewrite timeout_loop_all. Qed.

Lemma exec_v6_inv pid keep a s s' o :
  on_listener6 a -> v6_inv s -> exec pid keep a s = Some (s', o) -> v6_inv s'.
Proof.
  destruct s as [t [sq msgs w] c]. unfold v6_inv.
  destruct a as [d|peer []|v r| | |]; simpl; intros Ha [Hm Hd] H.
  - by simplify_eq/=.
  - unfold pingRoutine_iter, ping in H. simplify_eq/=. split; [|done].
    by apply push_Forall.
  - unfold pingRoutine_iter, ping in H. done.
  - subst v. simpl in H. destruct (handle_datagram _ _ _) as [resp|] eqn:Hd6.
    + by destruct (handle_datagram_v4_type _ _ _ _ Hd6).
    + by simplify_eq/=.
  - destruct msgs as [cap [|m b]]; [done|]. simpl in *. unfold collect in H.
    inversion Hm as [|? ? Hr Hb]; subst. destruct m as [r|resp]; [|done].
    simplify_eq/=. done.
  - unfold collect in H. simplify_eq/=. split; [done|]. rewrite db_timeout_tick.
    apply Forall_app. split; [done|]. apply Forall_forall. intros q Hq.
    apply list_elem_of_fmap in Hq as (r & -> & _). done.
  - unfold collect in H. simplify_eq/=. split; [done|]. by apply Forall_filter_sub.
Qed.

(** C25. Without a working IPv6 listener the table of an IPv6-only
    deployment records only losses: over any run whose datagrams all
    arrive on [listener6], every stored sample has response time [-1],
    whatever the replies, since [readListener(listener6, 6)] forwards
    none of them. *)
Theorem ipv6_only_losses pid keep acts s obs :
  Forall on_listener6 acts ->
  run pid keep acts init = Some (s, obs) ->
  Forall (fun q => q_ResponseTime q = -1) (db (coll s)).
Proof.
  intros Hacts. cut (forall s0, v6_inv s0 -> run pid keep acts s0 = Some (s, obs) -> v6_inv s).
  { intros Hgen Hrun. apply (Hgen init); [split; constructor | done]. }
  induction acts as [|a acts IH] in obs, Hacts |- *; intros s0 Hs0 Hrun; simpl in Hrun.
  - by simplify_eq.
  - inversion Hacts as [|? ? Ha Hrest]; subst.
    destruct (exec pid keep a s0) as [[s1 o1]|] eqn:He; [|done].
    destruct (run pid keep acts s1) as [[s2 o2]|] eqn:Hr; [|done]. simplify_eq.
    apply (IH o2 Hrest s1); [|done]. by eapply exec_v6_inv.
Qed.

(** ** Well-formed states *)

Definition req_ok (r : Request) : Prop := 1 <= req_ID r <= 65535.
Definition msg_ok (m : Message) : Prop := if m is MRequest r then req_ok r else True.

(** The shape every state of the process has: the [messages] ring of
    [main] holding at most 1024 values, the counter in [0..65535], and
    every request buffered or pending tagged with a sequence number
    [ping] can issue. *)
Definition sys_wf (s : Sys) : Prop :=
  Ring.cap (messages (sender s)) = 1024%nat /\ Ring.wf (messages (sender s)) /\
  seq_ok (seqcount (sender s)) /\
  Forall msg_ok (Ring.buf (messages (sender s))) /\ Forall req_ok (requests (coll s)).

Lemma match_loop_requests (P : Request -> Prop) resp i st :
  Forall P (requests st) -> Forall P (requests (match_loop resp i st)).
Proof.
  induction i as [|i IH]; [done|]. simpl. intros H.
  destruct (requests st !! i); [|auto]. case_decide; [|auto].
  by apply Forall_remove_at.
Qed.

Lemma push_wf_1024 (m : Message) r :
  Ring.cap r = 1024%nat -> Ring.wf r -> Forall msg_ok (Ring.buf r) -> msg_ok m ->
  Ring.cap (Ring.push m r) = 1024%nat /\ Ring.wf (Ring.push m r) /\
  Forall msg_ok (Ring.buf (Ring.push m r)).
Proof.
  intros Hc Hw Hf Hm. rewrite Ring.push_cap. split; [done|].
  split; [by apply Ring.push_wf | by apply push_Forall].
Qed.

Lemma exec_wf pid keep a s s' o : sys_wf s -> exec pid keep a s = Some (s', o) -> sys_wf s'.
Proof.
  destruct s as [t [sq msgs w] c]. unfold sys_wf. simpl.
  intros (Hc & Hw & Hs & Hm & Hr) H.
  destruct a as [d|peer []|v r| | |]; simpl in H.
  - by simplify_eq/=.
  - unfold pingRoutine_iter, ping in H. simplify_eq/=.
    destruct (push_wf_1024 (MRequest (mkRequest (alloc_seq sq) [] t peer)) msgs) as (? & ? & ?);
      [done | done | done | by apply alloc_seq_range |].
    split_and!; [done | done | by apply alloc_seq_ok | done | done].
  - unfold pingRoutine_iter, ping in H. done.
  - destruct (expected_type v); [|done].
    destruct (handle_datagram _ _ _) as [resp|]; simplify_eq/=; [|done].
    destruct (push_wf_1024 (MResponse resp) msgs) as (? & ? & ?); [done..|].
    unfold push_message in H. simplify_eq/=. split_and!; done.
  - destruct msgs as [cap [|m b]]; [done|]. simpl in *. unfold collect in H.
    inversion Hm as [|? ? Hm0 Hb]; subst.
    assert (Ring.wf (Ring.mk 1024 b)) by (destruct Hw; split; simpl in *; lia).
    destruct m as [rq|resp]; simplify_eq/=.
    + split_and!; [done..|]. apply Forall_app. split; [done|]. by constructor.
    + split_and!; [done..|]. unfold handle_response. by apply match_loop_requests.
  - unfold collect in H. simplify_eq/=. split_and!; [done..|].
    rewrite requests_timeout_tick. by apply Forall_filter_sub.
  - unfold collect in H. by simplify_eq/=.
Qed.

(** C9. Every state the process reaches is well formed: over any
    interleaving from [main]'s setup, the [messages] ring keeps its
    size of 1024 and never holds more, [seqcount] stays in [0..65535],
    and every request in the ring or pending in the collector carries
    a sequence number in [1..65535]. *)
Theorem system_wf pid keep acts s obs :
  run pid keep acts init = Some (s, obs) -> sys_wf s.
Proof.
  cut (forall s0, sys_wf s0 -> forall s obs, run pid keep acts s0 = Some (s, obs) -> sys_wf s).
  { intros Hgen. apply Hgen. unfold sys_wf, seq_ok, Ring.wf. simpl. split_and!; (lia || constructor). }
  induction acts as [|a acts IH]; intros s0 Hs0 s1 o Hrun; simpl in Hrun; [by simplify_eq|].
  destruct (exec pid keep a s0) as [[s2 o2]|] eqn:He; [|done].
  destruct (run pid keep acts s2) as [[s3 o3]|] eqn:Hr; [|done]. simplify_eq.
  eapply IH; [|done]. by eapply exec_wf.
Qed.

Lemma system_wf_witness :
  exists s obs, run 4242 0 (tick_before_reply 4242) init = Some (s, obs) /\ sys_wf s.
Proof.
  do 2 eexists. assert (run 4242 0 (tick_before_reply 4242) init = Some (_, _)) as H
    by (vm_compute; reflexivity).
  split; [exact H|]. exact (system_wf _ _ _ _ _ H).
Defined.

(** An IPv6 peer ([::1]). *)
Definition example_peer6 : Peer :=
  mkPeer "::1"%string "::1"%string 1000 1000 9 (repeat 0 15 ++ [1]).

(** One probe of [example_peer6], its echo reply read by [listener6],
    a timeout tick 10 ms later. *)
Definition v6_schedule (pid : Z) : list Action :=
  [PingTick example_peer6 true; CollectMessage;
   Datagram 6 (mkRead (Marshal (mkMessage ipv6_ICMPTypeEchoReply 0 0 (Echo (Z.land pid 65535) 1 [])))
                      (peer_ip example_peer6) false);
   Advance 10; CollectTimeout].

Lemma ipv6_only_losses_witness :
  Forall on_listener6 (v6_schedule 4242) /\
  exists s obs, run 4242 0 (v6_schedule 4242) init = Some (s, obs) /\
    db (coll s) = [mkQuery 9 (-1) 10] /\
    Forall (fun q => q_ResponseTime q = -1) (db (coll s)).
Proof.
  assert (Forall on_listener6 (v6_schedule 4242)) as H by (repeat constructor).
  split; [exact H|]. do 2 eexists. split; [vm_compute; reflexivity|].
  split; [vm_compute; reflexivity|].
  eapply (ipv6_only_losses 4242 0 (v6_schedule 4242)); [exact H | vm_compute; reflexivity].
Defined.

End System.
