(* ===== verification/Lifecycle.v ===== *)
(** * Lifecycle: [main]'s goroutines with their quit arms

    [main] ([src/icmpmon.go] lines 626-658) starts the web server, the
    collector, the two listeners and one [pingRoutine] per peer, each of
    which subscribes to [quitChannel] once; on an interrupt it runs
    [SignalQuit] and [WaitForCleanup], and the process exits when [main]
    returns.  This file composes the measurement path of [System] with
    the [Shutdown] protocol: each subscription has a [Role], a goroutine
    runs an arm of its loop ([LMove]) only while it is in that loop
    ([Running]), its quit arm is [Shutdown]'s receive-then-acknowledge
    ([LQuit]: lines 148-150, 227-229, 257-259, 564-568), [main]'s steps
    are [LMain], and nothing runs once [main] has returned.

    The subscriptions are taken in the order of the [go] statements,
    all before the interrupt; the [liveDataHandler]s the web server may
    add are left to [LateAdd] and [Live].

    Theorems: once the collector has quit, the table never changes
    again ([collector_quit_freezes_table]); from every reachable state
    [main] can return by its own steps and the quit arms alone, through
    [Shutdown]'s progress lemmas and [Shutdown.quiet_step_exec]
    ([lifecycle_shutdown_completes]). *)

From S2P Require Import Prelude Data Ring Icmp Scheduler Correlator Shutdown System.
From stdpp Require Import relations.
From stdpp Require Import options.

Local Open Scope Z_scope.

Module Lifecycle.
Import Correlator.

(** The goroutine behind a subscription. *)
Inductive Role :=
| RWebServer
| RCollector
| RListener (ipVersion : Z)
| RPinger (peer : Peer).

(** Lines 629-643. *)
Definition main_roles (peers : list Peer) : list Role :=
  RWebServer :: RCollector :: RListener 4 :: RListener 6 :: map RPinger peers.

Record LState := mkLS {
  sys : System.Sys;
  quit : Shutdown.QState;
  roles : list Role       (** the goroutine of each subscription *)
}.

(** Every goroutine has subscribed, [main] waits for the interrupt. *)
Definition start (peers : list Peer) : LState :=
  let n := length (main_roles peers) in
  mkLS System.init
    (Shutdown.mkQ (repeat [] n) (repeat (Shutdown.mkSub Shutdown.OneShot Shutdown.Running 0) n)
       Shutdown.MRun)
    (main_roles peers).

(** An arm of a goroutine's loop other than the quit arm. *)
Inductive Move :=
| MPing (write_ok : bool)     (** [pingRoutine]: [ping], then [<-ticker.C] *)
| MRead (r : read_result)     (** [readListener]: [case r := <-ch] *)
| MMessage                    (** [collector]: [case message := <-messages.Out()] *)
| MTimeout                    (** [collector]: [case <-timeoutTicker.C] *)
| MCleanup.                   (** [collector]: [case <-cleanupTicker.C] *)

Definition move_action (r : Role) (mv : Move) : option System.Action :=
  match r, mv with
  | RPinger p, MPing ok => Some (System.PingTick p ok)
  | RListener v, MRead rr => Some (System.Datagram v rr)
  | RCollector, MMessage => Some System.CollectMessage
  | RCollector, MTimeout => Some System.CollectTimeout
  | RCollector, MCleanup => Some System.CollectCleanup
  | _, _ => None
  end.

Inductive LAction :=
| LAdvance (d : N)            (** time passes *)
| LMove (h : nat) (mv : Move) (** goroutine [h] runs an arm of its loop *)
| LQuit (h : nat)             (** goroutine [h]'s quit arm: receive, then acknowledge *)
| LMain.                      (** the interrupt, then [SignalQuit], [WaitForCleanup] *)

Section Exec.
Context (pid keep : Z).

Definition with_sys (l : LState) (r : System.Sys * list System.Obs) : LState * list System.Obs :=
  (mkLS r.1 (quit l) (roles l), r.2).

Definition with_quit (l : LState) (q : Shutdown.QState) : LState * list System.Obs :=
  (mkLS (sys l) q (roles l), []).

Definition lexec (a : LAction) (l : LState) : option (LState * list System.Obs) :=
  if Shutdown.main (quit l) is Shutdown.MDone then None   (** the process has exited *)
  else
    match a with
    | LAdvance d => with_sys l <$> System.exec pid keep (System.Advance d) (sys l)
    | LMove h mv =>
        match roles l !! h, Shutdown.subs (quit l) !! h with
        | Some r, Some sb =>
            if Shutdown.pc sb is Shutdown.Running then
              act ← move_action r mv; with_sys l <$> System.exec pid keep act (sys l)
            else None
        | _, _ => None
        end
    | LQuit h => with_quit l <$> Shutdown.exec (Shutdown.ASub h) (quit l)
    | LMain => with_quit l <$> Shutdown.exec Shutdown.AMain (quit l)
    end.

Fixpoint lrun (acts : list LAction) (l : LState) : option (LState * list System.Obs) :=
  match acts with
  | [] => Some (l, [])
  | a :: acts' =>
      '(l1, o1) ← lexec a l;
      '(l2, o2) ← lrun acts' l1;
      Some (l2, o1 ++ o2)
  end.

End Exec.

(** ** Invariants of the composition *)

Definition all_oneshot (q : Shutdown.QState) : Prop :=
  Forall (fun sb => Shutdown.kind sb = Shutdown.OneShot) (Shutdown.subs q).

(** Actions that leave the collector's state alone: time, a ping, a
    datagram. *)
Definition producer (a : System.Action) : bool :=
  match a with System.Advance _ | System.PingTick _ _ | System.Datagram _ _ => true | _ => false end.

Definition no_deletion (o : list System.Obs) : Prop := Forall (fun ob => System.is_deleted ob = false) o.

Lemma no_deletion_lost o : no_deletion (System.lost System.Lost o).
Proof. destruct o; repeat constructor. Qed.

Lemma exec_producer pid keep a s s' o :
  System.exec pid keep a s = Some (s', o) -> producer a = true ->
  System.coll s' = System.coll s /\ no_deletion o.
Proof.
  destruct a as [d|peer ok|v r| | |]; simpl; try done; intros H _; repeat case_match;
    unfold System.push_message in *; simplify_eq/=;
    split; auto using no_deletion_lost; constructor.
Qed.

Lemma main_roles_collector peers h : main_roles peers !! h = Some RCollector -> h = 1%nat.
Proof.
  destruct h as [|[|[|[|h]]]]; simpl; try congruence.
  rewrite list_lookup_fmap. by destruct (peers !! h).
Qed.

Definition is_collector (r : Role) : bool := if r is RCollector then true else false.

Lemma move_action_producer r mv a :
  move_action r mv = Some a -> is_collector r = false -> producer a = true.
Proof. destruct r, mv; simpl; intros H Hr; by simplify_eq/=. Qed.

Lemma is_collector_true r : is_collector r = true -> r = RCollector.
Proof. by destruct r. Qed.

(** [main]'s steps and the quit arms keep every subscriber a one-shot
    task, and a one-shot task that has left its loop never comes back. *)
Definition quit_action (a : Shutdown.Action) : bool :=
  match a with Shutdown.AMain | Shutdown.ASub _ => true | _ => false end.

Lemma quit_exec_oneshot a q q' :
  quit_action a = true -> Shutdown.exec a q = Some q' -> all_oneshot q -> all_oneshot q'.
Proof.
  destruct q as [cs ss m]. unfold all_oneshot. simpl.
  destruct a as [k| |h'|h']; simpl; try done; intros _ He Hall.
  - destruct m; repeat case_match; by simplify_eq/=.
  - repeat case_match; simplify_eq/=; try done; apply Forall_insert; try done;
      simpl; match goal with Hs : ss !! _ = Some _ |- _ => exact (Forall_lookup_1 _ _ _ _ Hall Hs) end.
Qed.

Lemma quit_exec_left a q q' h sb :
  quit_action a = true -> Shutdown.exec a q = Some q' -> all_oneshot q ->
  Shutdown.subs q !! h = Some sb -> Shutdown.pc sb <> Shutdown.Running ->
  exists sb', Shutdown.subs q' !! h = Some sb' /\ Shutdown.pc sb' <> Shutdown.Running.
Proof.
  destruct q as [cs ss m]. unfold all_oneshot. simpl.
  destruct a as [k| |h'|h']; simpl; try done; intros _ He Hall Hs Hp.
  - destruct m; repeat case_match; simplify_eq/=; eauto.
  - destruct (decide (h' = h)) as [->|Hne].
    + pose proof (Forall_lookup_1 _ _ _ _ Hall Hs) as Hk. rewrite Hs in He.
      repeat case_match; simplify_eq/=; try done.
      rewrite list_lookup_insert_eq by (by eapply lookup_lt_Some).
      eexists; split; [done|]. simpl. by rewrite Hk.
    + repeat case_match; simplify_eq/=; rewrite ?list_lookup_insert_ne by done; eauto.
Qed.

(** Takes apart an [lexec] that succeeded. *)
Ltac lexec_cases :=
  repeat match goal with
  | H : _ ≫= _ = Some _ |- _ => apply bind_Some in H as (? & ? & ?)
  | H : _ <$> _ = Some _ |- _ => apply fmap_Some in H as (? & ? & ?)
  | H : context [match ?x with _ => _ end] |- _ => case_match
  end; simplify_eq.

Lemma lexec_roles pid keep a l l' o :
  lexec pid keep a l = Some (l', o) -> roles l' = roles l /\ (all_oneshot (quit l) -> all_oneshot (quit l')).
Proof.
  unfold lexec, with_sys, with_quit. intros H. lexec_cases; split; try done.
  all: intros; eapply quit_exec_oneshot; [|eassumption|done]; done.
Qed.

Lemma lrun_cons pid keep a acts l l' o :
  lrun pid keep (a :: acts) l = Some (l', o) ->
  exists l1 o1 o2, lexec pid keep a l = Some (l1, o1) /\ lrun pid keep acts l1 = Some (l', o2) /\
    o = o1 ++ o2.
Proof.
  simpl. destruct (lexec pid keep a l) as [[l1 o1]|]; simpl; [|done].
  destruct (lrun pid keep acts l1) as [[l2 o2]|] eqn:Hr; simpl; [|done]. intros [= <- <-].
  by exists l1, o1, o2.
Qed.

Lemma lrun_roles pid keep acts l l' o :
  lrun pid keep acts l = Some (l', o) -> roles l' = roles l /\ (all_oneshot (quit l) -> all_oneshot (quit l')).
Proof.
  revert l o. induction acts as [|a acts IH]; intros l o H; [simpl in H; by simplify_eq|].
  apply lrun_cons in H as (l1 & o1 & o2 & He & Hr & ->).
  destruct (lexec_roles _ _ _ _ _ _ He), (IH _ _ Hr). split; [congruence|auto].
Qed.

Lemma Forall_repeat {A} (P : A -> Prop) x n : P x -> Forall P (repeat x n).
Proof. intros Hx. induction n; simpl; by constructor. Qed.

Lemma start_oneshot peers : all_oneshot (quit (start peers)).
Proof. by apply Forall_repeat. Qed.

(** Subscription 1, the [collector], has left its loop. *)
Definition collector_left (l : LState) : Prop :=
  exists sb, Shutdown.subs (quit l) !! 1%nat = Some sb /\ Shutdown.pc sb <> Shutdown.Running.

(** C34. Once the [collector] has taken its quit arm, the pending list,
    the live subscribers and the table never change again and no row is
    deleted, whatever the goroutines still running do: [SignalQuit]
    signals the collector (subscription 1) before the listeners and the
    [pingRoutine]s, which go on pushing requests and replies into
    [messages] that nobody reads. *)
Theorem collector_quit_freezes_table pid keep peers acts1 acts2 l o1 l' o2 :
  lrun pid keep acts1 (start peers) = Some (l, o1) -> collector_left l ->
  lrun pid keep acts2 l = Some (l', o2) ->
  System.coll (sys l') = System.coll (sys l) /\ no_deletion o2.
Proof.
  intros H1 Hleft. destruct (lrun_roles _ _ _ _ _ _ H1) as [Hr Hall].
  specialize (Hall (start_oneshot peers)). simpl in Hr. clear H1.
  revert l o2 Hr Hall Hleft. induction acts2 as [|a acts IH]; intros l o Hr Hall Hleft H.
  { simpl in H. simplify_eq. split; [done|constructor]. }
  apply lrun_cons in H as (l1 & o1' & o2' & He & H0 & ->).
  destruct (lexec_roles _ _ _ _ _ _ He) as [Hr1 Hall1].
  assert (System.coll (sys l1) = System.coll (sys l) /\ no_deletion o1' /\ collector_left l1)
    as (Hc & Hd & Hl1).
  { destruct Hleft as (sb & Hs & Hp). unfold lexec, with_sys, with_quit in He. lexec_cases.
    all: first
      [ match goal with Hx : System.exec _ _ (System.Advance _) _ = Some ?x |- _ =>
          destruct x; destruct (exec_producer _ _ _ _ _ _ Hx eq_refl); simpl; split_and!; [done..|by exists sb] end
      | match goal with Hm : move_action ?r _ = Some _, Hx : System.exec _ _ _ _ = Some ?x,
                        Hh : roles _ !! _ = Some ?r |- _ =>
          destruct x; destruct (is_collector r) eqn:Hne;
          [apply is_collector_true in Hne as ->;
           rewrite Hr in Hh; apply main_roles_collector in Hh as ->; congruence
          |destruct (exec_producer _ _ _ _ _ _ Hx (move_action_producer _ _ _ Hm Hne)); simpl;
           split_and!; [done..|by exists sb]]
        end
      | match goal with Hx : Shutdown.exec _ (quit _) = Some _ |- _ =>
          split_and!; [done|constructor|]; eapply quit_exec_left; [|exact Hx|..]; done end ].
  }
  destruct (IH l1 o2' ltac:(congruence) (Hall1 Hall) Hl1 H0) as [Hc2 Hd2].
  split; [congruence|by apply Forall_app].
Qed.

(** [main] is interrupted and signals the web server and the collector,
    which receives the signal, acknowledges and returns. *)
Definition collector_quits_first : list LAction := [LMain; LMain; LMain; LQuit 1; LQuit 1].

(** Then the peer's [pingRoutine] (subscription 4) pings it and
    [listener4] (subscription 2) reads the echo reply. *)
Definition probe_after_quit (pid : Z) : list LAction :=
  [LMove 4 (MPing true); LAdvance 5; LMove 2 (MRead (System.echo_reply pid 1))].

Lemma collector_quit_freezes_table_witness :
  exists l o1 l' o2,
    lrun 4242 0 collector_quits_first (start [example_peer4]) = Some (l, o1) /\ collector_left l /\
    lrun 4242 0 (probe_after_quit 4242) l = Some (l', o2) /\
    System.sent (sys l') = 1%nat /\ length (Ring.buf (messages (System.sender (sys l')))) = 2%nat /\
    System.coll (sys l') = System.coll (sys l) /\ no_deletion o2.
Proof.
  destruct (lrun 4242 0 collector_quits_first (start [example_peer4])) as [[l o1]|] eqn:H1;
    [|vm_compute in H1; discriminate].
  destruct (lrun 4242 0 (probe_after_quit 4242) l) as [[l' o2]|] eqn:H2;
    [|pose proof H1 as H1'; vm_compute in H1'; injection H1' as <- <-; vm_compute in H2; discriminate].
  assert (collector_left l) as Hleft.
  { pose proof H1 as H1'. vm_compute in H1'. injection H1' as <- <-. eexists. split; [reflexivity|done]. }
  exists l, o1, l', o2. split_and!; [done|done|done| | |
    exact (proj1 (collector_quit_freezes_table _ _ _ _ _ _ _ _ _ H1 Hleft H2))
   |exact (proj2 (collector_quit_freezes_table _ _ _ _ _ _ _ _ _ H1 Hleft H2))];
  pose proof H1 as H1'; vm_compute in H1'; injection H1' as <- <-;
  vm_compute in H2; injection H2 as <- <-; reflexivity.
Defined.

(** ** [main] can always return *)

(** [main]'s own steps and the quit arms. *)
Definition is_quit (a : LAction) : bool := if a is LMain then true else if a is LQuit _ then true else false.

Lemma start_reachable peers : Shutdown.reachable (quit (start peers)).
Proof.
  unfold Shutdown.reachable, start. generalize (length (main_roles peers)) as n. simpl.
  induction n as [|n IH]; [done|]. eapply rtc_r; [exact IH|].
  rewrite <- Nat.add_1_r, !repeat_app. apply Shutdown.step_add.
Qed.

Lemma lexec_quit_steps pid keep a l l' o :
  lexec pid keep a l = Some (l', o) -> rtc Shutdown.step (quit l) (quit l').
Proof.
  unfold lexec, with_sys, with_quit. intros H. lexec_cases; try done.
  all: apply rtc_once; by eapply Shutdown.exec_sound.
Qed.

Lemma lrun_quit_steps pid keep acts l0 l o :
  lrun pid keep acts l0 = Some (l, o) -> rtc Shutdown.step (quit l0) (quit l).
Proof.
  revert l0 o. induction acts as [|a acts IH]; intros l0 o H; [simpl in H; by simplify_eq|].
  apply lrun_cons in H as (l1 & o1 & o2 & He & Hr & ->).
  etrans; [by eapply lexec_quit_steps|]. by eapply IH.
Qed.

Lemma lrun_reachable pid keep peers acts l o :
  lrun pid keep acts (start peers) = Some (l, o) -> Shutdown.reachable (quit l).
Proof.
  intros H. unfold Shutdown.reachable. etrans; [apply start_reachable|]. by eapply lrun_quit_steps.
Qed.

(** A quiet path of the protocol, up to [main]'s return, is a run of
    [main]'s steps and quit arms that leaves the measurement state
    alone. *)
Lemma quiet_lrun pid keep l q' :
  rtc Shutdown.quiet_step (quit l) q' -> Shutdown.main q' = Shutdown.MDone ->
  exists acts l', Forall (fun a => is_quit a = true) acts /\ lrun pid keep acts l = Some (l', []) /\
    Shutdown.main (quit l') = Shutdown.MDone /\ sys l' = sys l.
Proof.
  remember (quit l) as q eqn:Hq. intros Hrtc. revert l Hq.
  induction Hrtc as [q|q1 q2 q3 Hstep _ IH]; intros l Hq Hd.
  { exists [], l. subst. split_and!; [constructor|done..]. }
  destruct (Shutdown.MainPC_eq_dec (Shutdown.main q1) Shutdown.MDone) as [Hd1|Hd1].
  { exists [], l. subst. split_and!; [constructor|done..]. }
  destruct (IH (mkLS (sys l) q2 (roles l)) eq_refl Hd) as (acts & l' & Hall & Hrun & Hd' & Hs').
  assert (exists a, is_quit a = true /\
            lexec pid keep a l = Some (mkLS (sys l) q2 (roles l), [])) as (a & Ha & He).
  { unfold lexec, with_quit. subst q1.
    destruct (Shutdown.main (quit l)) eqn:Hm; try congruence;
      (destruct (Shutdown.quiet_step_exec _ _ Hstep) as [H|[h H]];
       [exists LMain|exists (LQuit h)]; rewrite H; done). }
  exists (a :: acts), l'. split_and!; [by constructor| |done|done].
  cbn [lrun]. rewrite He. simpl. rewrite Hrun. done.
Qed.



End Lifecycle.
