(* ===== verification/Series.v ===== *)
(** * Series: the time-series query of [dataHandler]

    [src/icmpmon.go] lines 311-437.  After parsing the query string and
    reading the rows of the peer (ordered by time, and restricted to
    [start..stop] when both bounds are given), [dataHandler] fills gaps
    and downsamples; [getPeerInterval] gives the expected interval.
    The rows read from the database are the argument [queries]; the
    JSON encoding of the result is not modelled.

    The Go code works on a slice [queries] and a separate length [l]
    that it keeps equal to [len(queries)]; here the list carries its
    length.  Every [append], [copy] and index assignment is modelled
    with the [Prelude]'s slice idioms, so the front insertion's [copy]
    (line 379), which moves one element too few, is reproduced.

    Fuel: the gap loop (lines 393-404) grows the slice while it walks
    it, so it is given the fuel [gap_fuel], one more than the length
    plus the number of interval steps between neighbours, and is proved
    to need no more ([fill_gaps_enough] with the measure [gap_measure]);
    the stride loop of the downsampling (lines 417-419) gets
    [length + 1] and is proved to need no more. *)

From S2P Require Import Prelude Data.
From stdpp Require Import options.

Local Open Scope Z_scope.

Module Series.

(** [var tolerance int64 = 500]. *)
Definition tolerance : Z := 500.

(** [getPeerInterval(peerID)]: the interval of the first configured
    peer with that id, or the global default [*config.Interval]. *)
Fixpoint getPeerInterval (peers : list Peer) (default : Z) (peerID : Z) : Z :=
  match peers with
  | [] => default
  | p :: ps => if decide (peer_ID p = peerID) then peer_Interval p
               else getPeerInterval ps default peerID
  end.

(** Lines 355-360: both bounds given ([>= 0]) and reversed: swap. *)
Definition normalize_range (start stop : Z) : Z * Z :=
  if decide (0 <= start /\ 0 <= stop /\ stop < start) then (stop, start) else (start, stop).

(** Lines 376-382: a first sample far from [start] gets a zero sample
    at [start + interval] before it. *)
Definition fill_front (peerID start interval : Z) (qs : list Query) : list Query :=
  match qs with
  | [] => qs
  | q0 :: _ =>
      let diff := (q_Time q0 -! start -! tolerance)%go in
      if decide (interval < diff) then
        let l := length qs in
        let qs1 := qs ++ [zero_query] in
        let qs2 := go_copy qs1 1 0 (l - 1) in
        <[0%nat := mkQuery peerID 0 (start +! interval)%go]> qs2
      else qs
  end.

(** Lines 385-389: a last sample far from [stop] gets a zero sample at
    [stop - interval] after it (the difference is taken as
    [last - stop]). *)
Definition fill_back (peerID stop interval : Z) (qs : list Query) : list Query :=
  match list.last qs with
  | None => qs
  | Some ql =>
      let diff := (q_Time ql -! stop -! tolerance)%go in
      if decide (interval < diff) then qs ++ [mkQuery peerID 0 (stop -! interval)%go] else qs
  end.

(** Lines 392-404: walk the slice, inserting a zero sample at
    [previous.Time + interval] before [queries[i]] when the two are
    more than [interval + tolerance] apart; [None] when the fuel runs
    out. *)
Fixpoint fill_gaps (fuel : nat) (peerID interval : Z) (i : nat) (prev : option Query)
    (qs : list Query) : option (list Query) :=
  match fuel with
  | O => None
  | S fuel' =>
      if decide (i < length qs)%nat then
        let qi := qs !!! i in
        match prev with
        | Some p =>
            let diff := (q_Time qi -! q_Time p -! tolerance)%go in
            if decide (interval < diff) then
              let ins := mkQuery peerID 0 (q_Time p +! interval)%go in
              let qs' := <[i := ins]> (go_copy (qs ++ [zero_query]) (S i) i (S (length qs))) in
              fill_gaps fuel' peerID interval (S i) (Some ins) qs'
            else fill_gaps fuel' peerID interval (S i) (Some qi) qs
        | None => fill_gaps fuel' peerID interval (S i) (Some qi) qs
        end
      else Some qs
  end.

(** The interval steps between neighbours. *)
Fixpoint gap_budget (interval : Z) (qs : list Query) : nat :=
  match qs with
  | p :: ((q :: _) as rest) =>
      (Z.to_nat ((q_Time q - q_Time p) `div` interval) + gap_budget interval rest)%nat
  | _ => O
  end.

Definition gap_fuel (interval : Z) (qs : list Query) : nat :=
  S (length qs + gap_budget interval qs).

(** Lines 409-411: [max] zero samples from [start], [interval] apart. *)
Definition synth (peerID start interval max : Z) : list Query :=
  map (fun i => mkQuery peerID 0 (start +! interval *! Z.of_nat i)%go) (seq 0 (Z.to_nat max)).

(** Lines 417-419: [for i := 0; i < l; i += s], with fuel. *)
Fixpoint stride_pick (fuel : nat) (qs : list Query) (i s : nat) : list Query :=
  match fuel with
  | O => []
  | S f => if decide (i < length qs)%nat then qs !!! i :: stride_pick f qs (i + s) s else []
  end.

(** Lines 414-420: [resultQueries[len(resultQueries)-max:]]. *)
Definition downsample (max : nat) (qs : list Query) : list Query :=
  let l := length qs in
  let s := (l / max)%nat in
  let picks := stride_pick (S l) qs 0 s in
  drop (length picks - max) picks.

(** Lines 406-427: the output for the (gap-filled) samples. *)
Definition select_output (peerID start interval max : Z) (qs : list Query) : list Query :=
  if decide (0 < max) then
    if decide (length qs = O) then synth peerID start interval max
    else if decide (max < Z.of_nat (length qs)) then downsample (Z.to_nat max) qs
    else qs
  else qs.

(** Lines 369-427: the rows [queries] of the peer, the (normalised)
    bounds [start] and [stop] ([-1] when absent), [max] ([-1] when
    absent) and the expected interval. *)
Definition series (peerID start stop max interval : Z) (queries : list Query)
    : option (list Query) :=
  filled ←
    (if decide (0 < length queries)%nat then
       let qs1 := fill_front peerID start interval queries in
       let qs2 := fill_back peerID stop interval qs1 in
       fill_gaps (gap_fuel interval qs2) peerID interval 0 None qs2
     else Some queries);
  Some (select_output peerID start interval max filled).

(** ** Downsampling *)

(** The number of indices [i, i + s, i + 2s, ...] below [l]. *)
Definition npicks (l i s : nat) : nat := ((l - i + s - 1) / s)%nat.

Lemma npicks_done l i s : (1 <= s)%nat -> (l <= i)%nat -> npicks l i s = O.
Proof. intros Hs Hi. unfold npicks. apply Nat.div_small. lia. Qed.

Lemma npicks_step l i s : (1 <= s)%nat -> (i < l)%nat ->
  npicks l i s = S (npicks l (i + s) s).
Proof.
  intros Hs Hi. unfold npicks.
  replace (l - i + s - 1)%nat with (l - i - 1 + 1 * s)%nat by lia.
  rewrite Nat.div_add by lia. rewrite Nat.add_1_r. f_equal.
  destruct (decide (s <= l - i)%nat).
  - f_equal. lia.
  - rewrite !Nat.div_small; lia.
Qed.

Lemma stride_pick_spec qs s : (1 <= s)%nat -> forall fuel i,
  (npicks (length qs) i s <= fuel)%nat ->
  stride_pick fuel qs i s = map (fun k => qs !!! (i + k * s)%nat) (seq 0 (npicks (length qs) i s)).
Proof.
  intros Hs fuel. induction fuel as [|f IH]; intros i Hf.
  - simpl. by replace (npicks (length qs) i s) with O by lia.
  - simpl. case_decide as Hi.
    + rewrite (npicks_step _ i) in Hf |- * by done. rewrite IH by lia. simpl.
      rewrite <- seq_shift, map_map. rewrite Nat.add_0_r. f_equal.
      apply map_ext. intros k. f_equal. lia.
    + by rewrite npicks_done by lia.
Qed.

(** Every pick is an element of the slice. *)
Lemma stride_pick_elem fuel qs i s : Forall (fun q => q ∈ qs) (stride_pick fuel qs i s).
Proof.
  revert i. induction fuel as [|f IH]; intros i; simpl; [done|].
  case_decide; constructor; [by apply list_elem_of_lookup_total_2 | apply IH].
Qed.

Lemma npicks_bounds l max : (0 < max < l)%nat ->
  (max <= npicks l 0 (l / max) <= l)%nat /\ (1 <= l / max)%nat.
Proof.
  intros Hm. set (s := (l / max)%nat).
  assert (1 <= s)%nat by (apply Nat.div_str_pos; lia).
  assert (max * s <= l)%nat by (unfold s; apply Nat.Div0.mul_div_le).
  unfold npicks. rewrite Nat.sub_0_r. split_and!; [| |lia].
  - apply Nat.div_le_lower_bound; nia.
  - apply Nat.Div0.div_le_upper_bound. nia.
Qed.

(** C16. For [0 < max < len(queries)] the downsampling returns the
    elements at indices [k*s], [s = len/max], for the last [max] values
    of [k] among the picks [0, s, 2s, ...] below [len]; the number of
    picks is at least [max], so the slice [resultQueries[len-max:]] is
    in range. *)
Theorem downsample_spec max qs :
  (0 < max < length qs)%nat ->
  let s := (length qs / max)%nat in
  let n := npicks (length qs) 0 s in
  (max <= n)%nat /\
  downsample max qs = map (fun k => qs !!! (k * s)%nat) (seq (n - max) max).
Proof.
  intros Hm. cbn zeta. destruct (npicks_bounds (length qs) max Hm) as [[Hlo Hhi] Hs].
  set (s := (length qs / max)%nat) in *. set (n := npicks (length qs) 0 s) in *.
  split; [done|]. unfold downsample. fold s.
  rewrite (stride_pick_spec qs s Hs) by lia. fold n.
  rewrite length_map, length_seq, skipn_map, drop_seq. do 2 f_equal; lia.
Qed.

Lemma downsample_spec_witness :
  let qs := map (fun t => mkQuery 7 1 (Z.of_nat t)) (seq 0 100) in
  (0 < 10 < length qs)%nat /\
  map q_Time (downsample 10 qs) = [0; 10; 20; 30; 40; 50; 60; 70; 80; 90].
Proof.
  assert (0 < 10 < length (map (fun t => mkQuery 7 1 (Z.of_nat t)) (seq 0 100)))%nat as H
    by (rewrite length_map, length_seq; lia).
  split; [exact H|].
  destruct (downsample_spec 10 _ H) as [_ ->]. vm_compute. reflexivity.
Defined.

(** With [0 < max < len(queries)], the downsampled series has
    exactly [max] samples, each of them a sample of the input. *)
Lemma downsample_length max qs :
  (0 < max < length qs)%nat ->
  length (downsample max qs) = max /\ Forall (fun q => q ∈ qs) (downsample max qs).
Proof.
  intros Hm. destruct (npicks_bounds (length qs) max Hm) as [[Hlo Hhi] Hs].
  unfold downsample. split.
  - rewrite length_drop, (stride_pick_spec qs _ Hs) by lia. rewrite length_map, length_seq. lia.
  - apply Forall_drop, stride_pick_elem.
Qed.

Lemma downsample_length_witness :
  let qs := map (fun t => mkQuery 7 1 (Z.of_nat t)) (seq 0 100) in
  (0 < 7 < length qs)%nat /\
  length (downsample 7 qs) = 7%nat /\ Forall (fun q => q ∈ qs) (downsample 7 qs).
Proof.
  assert (0 < 7 < length (map (fun t => mkQuery 7 1 (Z.of_nat t)) (seq 0 100)))%nat as H
    by (rewrite length_map, length_seq; lia).
  split; [exact H|]. exact (downsample_length 7 _ H).
Defined.

(** ** Gap filling *)

(** C17. When the first sample is more than [interval + tolerance]
    after [start], the front insertion of lines 376-382 puts the zero
    sample at [start + interval] first, but its [copy] moves one
    element too few: the last sample of the series is lost and the
    zero value [Query{}] (time 0) ends the slice instead. *)
Theorem fill_front_drops_last peerID start interval q0 rest :
  interval < (q_Time q0 -! start -! tolerance)%go ->
  fill_front peerID start interval (q0 :: rest) =
    mkQuery peerID 0 (start +! interval)%go :: take (length rest) (q0 :: rest) ++ [zero_query].
Proof. intros H. unfold fill_front. rewrite decide_True by done. apply insert_shift_front. Qed.

Lemma fill_front_drops_last_witness :
  1000 < (q_Time (mkQuery 0 12 2000) -! 0 -! tolerance)%go /\
  fill_front 7 0 1000 [mkQuery 0 12 2000; mkQuery 0 13 3000; mkQuery 0 14 3500] =
    [mkQuery 7 0 1000; mkQuery 0 12 2000; mkQuery 0 13 3000; zero_query].
Proof.
  assert (1000 < (q_Time (mkQuery 0 12 2000) -! 0 -! tolerance)%go) as H by (vm_compute; reflexivity).
  split; [exact H|]. exact (fill_front_drops_last 7 0 1000 _ _ H).
Defined.

(** Gap filling does not insert one sample per gap: on the spec's
    own example (interval 1000 ms, range [0, 3000], samples at 0 and
    3000) the loop inserts two zero samples, at 1000 and at 2000,
    because after an insertion it compares the next sample with the
    inserted one. *)
Lemma gap_fill_subdivides :
  series 7 0 3000 (-1) 1000 [mkQuery 7 12 0; mkQuery 7 13 3000] =
    Some [mkQuery 7 12 0; mkQuery 7 0 1000; mkQuery 7 0 2000; mkQuery 7 13 3000].
Proof. vm_compute. reflexivity. Qed.

(** C28. For a range query, the end insertion of lines 385-389 never
    fires: with every sample at or before [stop] the difference
    [last - stop - tolerance] is negative, whereas the spec appends a
    zero sample when [stop - last] exceeds [interval + tolerance]. *)
Theorem fill_back_inert_in_range peerID stop interval qs :
  0 < interval -> 0 <= stop < 2 ^ 62 ->
  Forall (fun q => 0 <= q_Time q <= stop) qs ->
  fill_back peerID stop interval qs = qs.
Proof.
  intros Hi Hs Hqs. unfold fill_back.
  destruct (list.last qs) as [ql|] eqn:Hl; [|done].
  apply last_Some_elem_of, list_elem_of_In in Hl. rewrite Forall_forall in Hqs.
  specialize (Hqs ql Hl).
  rewrite decide_False; [done|]. unfold tolerance.
  rewrite (sub64_exact (q_Time ql) stop), sub64_exact by int64_solve. lia.
Qed.

Lemma fill_back_inert_in_range_witness :
  (0 < 1000 /\ 0 <= 10000 < 2 ^ 62 /\
   Forall (fun q => 0 <= q_Time q <= 10000) [mkQuery 7 1 100; mkQuery 7 1 200]) /\
  fill_back 7 10000 1000 [mkQuery 7 1 100; mkQuery 7 1 200] = [mkQuery 7 1 100; mkQuery 7 1 200].
Proof.
  assert (Forall (fun q => 0 <= q_Time q <= 10000) [mkQuery 7 1 100; mkQuery 7 1 200]) as H
    by (repeat constructor; simpl; lia).
  split; [split; [lia | split; [lia | exact H]]|].
  apply fill_back_inert_in_range; [lia | lia | exact H].
Defined.

(** ** Termination of the gap loop *)

(** Sample times within 2^61 ms of the epoch: no [int64] operation of
    the gap loop wraps. *)
Definition time_ok (q : Query) : Prop := - 2 ^ 61 <= q_Time q <= 2 ^ 61.

(** The iterations left: the slots still to visit plus the whole
    intervals between the remembered sample and the samples ahead. *)
Definition gap_measure (interval : Z) (i : nat) (prev : option Query) (qs : list Query) : nat :=
  (length qs - i + gap_budget interval (option_list prev ++ drop i qs))%nat.

(** An insertion takes one interval off the gap it fills. *)
Lemma gap_insert_arith interval p q :
  0 < interval -> time_ok p -> time_ok q ->
  interval < (q_Time q -! q_Time p -! tolerance)%go ->
  ((q_Time p +! interval)%go = q_Time p + interval) /\ (q_Time p + interval < q_Time q) /\
  (Z.to_nat ((q_Time q - (q_Time p + interval)) `div` interval) =
     pred (Z.to_nat ((q_Time q - q_Time p) `div` interval))) /\
  (1 <= Z.to_nat ((q_Time q - q_Time p) `div` interval))%nat.
Proof.
  unfold time_ok, tolerance. intros Hi Hp Hq Hd.
  rewrite (sub64_exact (q_Time q)), sub64_exact in Hd by int64_solve.
  assert (1 <= (q_Time q - q_Time p) `div` interval) by (apply Z.div_le_lower_bound; lia).
  replace (q_Time q - (q_Time p + interval)) with (q_Time q - q_Time p + (-1) * interval) by lia.
  rewrite Z.div_add by lia.
  split; [apply add64_exact; int64_solve | lia].
Qed.

Lemma drop_insert_middle {A} (xs : list A) (y : A) i :
  (i <= length xs)%nat -> drop (S i) (take i xs ++ y :: drop i xs) = drop i xs.
Proof.
  intros Hi. rewrite drop_app_ge; rewrite length_take; [|lia].
  by replace (S i - i `min` length xs)%nat with 1%nat by lia.
Qed.

Lemma sublist_insert_middle {A} (xs : list A) (y : A) i :
  xs `sublist_of` take i xs ++ y :: drop i xs.
Proof.
  rewrite <- (take_drop i xs) at 1. apply sublist_app; [done|]. by apply sublist_cons.
Qed.

(** ** The gap loop against a list reference *)

(** The samples the loop puts between neighbours [p] and [q]: one
    every [interval] after [p], as long as the remaining gap exceeds
    [interval + tolerance]. *)
Definition gap_samples (peerID interval : Z) (p q : Query) : list Query :=
  map (fun j => mkQuery peerID 0 (q_Time p + Z.of_nat j * interval))
      (seq 1 (Z.to_nat ((q_Time q - q_Time p - tolerance - 1) `div` interval))).

(** The reference: every sample, preceded by the samples of the gap
    from the one before it. *)
Fixpoint gaps_ref (peerID interval : Z) (prev : option Query) (qs : list Query) : list Query :=
  match qs with
  | [] => []
  | q :: rest =>
      from_option (fun p => gap_samples peerID interval p q) [] prev ++
      q :: gaps_ref peerID interval (Some q) rest
  end.

Lemma gap_samples_none peerID interval p q :
  0 < interval -> time_ok p -> time_ok q ->
  ~ interval < (q_Time q -! q_Time p -! tolerance)%go -> gap_samples peerID interval p q = [].
Proof.
  unfold time_ok, tolerance. intros Hi Hp Hq Hd.
  rewrite (sub64_exact (q_Time q)), sub64_exact in Hd by int64_solve.
  unfold gap_samples, tolerance.
  replace (Z.to_nat ((q_Time q - q_Time p - 500 - 1) `div` interval)) with 0%nat; [done|].
  assert ((q_Time q - q_Time p - 500 - 1) `div` interval < 1); [|lia].
  apply Z.div_lt_upper_bound; lia.
Qed.

Lemma gap_samples_step peerID interval p q :
  0 < interval -> time_ok p -> time_ok q ->
  interval < (q_Time q -! q_Time p -! tolerance)%go ->
  gap_samples peerID interval p q =
    mkQuery peerID 0 (q_Time p + interval) ::
    gap_samples peerID interval (mkQuery peerID 0 (q_Time p + interval)) q.
Proof.
  unfold time_ok, tolerance. intros Hi Hp Hq Hd.
  rewrite (sub64_exact (q_Time q)), sub64_exact in Hd by int64_solve.
  unfold gap_samples, tolerance. simpl q_Time.
  assert (1 <= (q_Time q - q_Time p - 500 - 1) `div` interval) by (apply Z.div_le_lower_bound; lia).
  replace (q_Time q - (q_Time p + interval) - 500 - 1)
    with (q_Time q - q_Time p - 500 - 1 + (-1) * interval) by lia.
  rewrite Z.div_add by lia.
  replace (Z.to_nat ((q_Time q - q_Time p - 500 - 1) `div` interval))
    with (S (Z.to_nat ((q_Time q - q_Time p - 500 - 1) `div` interval + -1))) by lia.
  simpl. f_equal; [f_equal; lia|].
  rewrite <- seq_shift, map_map. apply map_ext. intros j. f_equal. lia.
Qed.

Lemma take_insert_middle {A} (xs : list A) (y : A) i :
  (i <= length xs)%nat -> take (S i) (take i xs ++ y :: drop i xs) = take i xs ++ [y].
Proof.
  intros Hi. rewrite take_app_ge; rewrite length_take; [|lia].
  by replace (S i - i `min` length xs)%nat with 1%nat by lia.
Qed.

(** The loop, run from slot [i] with the sample [prev] before it, has
    kept the slots before [i] and produces the reference for the
    rest. *)
Lemma fill_gaps_ref_gen peerID interval fuel :
  0 < interval ->
  forall i prev qs, Forall time_ok qs -> (forall p, prev = Some p -> time_ok p) ->
  (gap_measure interval i prev qs < fuel)%nat -> (i <= length qs)%nat ->
  fill_gaps fuel peerID interval i prev qs =
    Some (take i qs ++ gaps_ref peerID interval prev (drop i qs)).
Proof.
  intros Hint. induction fuel as [|fuel IH]; intros i prev qs Hqs Hprev Hm Hle; [lia|].
  simpl. case_decide as Hi.
  2: { rewrite take_ge, drop_ge by lia. by rewrite app_nil_r. }
  destruct (lookup_lt_is_Some_2 qs i Hi) as [qi Hqi].
  rewrite (list_lookup_total_correct qs i qi Hqi).
  assert (time_ok qi) by (eapply Forall_lookup_1; eauto).
  unfold gap_measure in Hm. rewrite (drop_S qs qi i Hqi) in Hm |- *.
  destruct prev as [p|]; cbn [gaps_ref from_option].
  - assert (time_ok p) by eauto. case_decide as Hd.
    + destruct (gap_insert_arith interval p qi) as (Hadd & Hlt & Hdec & Hpos); [done..|].
      rewrite insert_shift_right by lia.
      rewrite IH; [| | by intros ? [= <-]; unfold time_ok in *; simpl; lia | |].
      * rewrite take_insert_middle, drop_insert_middle, (drop_S qs qi i Hqi) by lia.
        rewrite Hadd, (gap_samples_step peerID interval p qi) by done. cbn [gaps_ref from_option].
        by rewrite <- app_assoc.
      * apply Forall_app. split; [by apply Forall_take|].
        constructor; [|by apply Forall_drop]. unfold time_ok in *. simpl. lia.
      * unfold gap_measure. rewrite drop_insert_middle, (drop_S qs qi i Hqi) by lia.
        rewrite length_app, length_take. simpl in *. rewrite length_drop, Hadd, Hdec. lia.
      * rewrite length_app, length_take. simpl. rewrite length_drop. lia.
    + rewrite IH; [| done | by intros ? [= <-] | unfold gap_measure; simpl in *; lia | lia].
      rewrite (take_S_r qs i qi Hqi), (gap_samples_none peerID interval p qi) by done.
      by rewrite <- app_assoc.
  - rewrite IH; [| done | by intros ? [= <-] | unfold gap_measure; simpl in *; lia | lia].
    rewrite (take_S_r qs i qi Hqi). by rewrite <- app_assoc.
Qed.

Lemma fill_gaps_enough peerID interval fuel :
  0 < interval ->
  forall i prev qs, Forall time_ok qs -> (forall p, prev = Some p -> time_ok p) ->
  (gap_measure interval i prev qs < fuel)%nat ->
  exists r, fill_gaps fuel peerID interval i prev qs = Some r /\
            qs `sublist_of` r /\ Forall time_ok r.
Proof.
  intros Hint. induction fuel as [|fuel IH]; intros i prev qs Hqs Hprev Hm; [lia|].
  simpl. case_decide as Hi; [|eauto].
  destruct (lookup_lt_is_Some_2 qs i Hi) as [qi Hqi].
  rewrite (list_lookup_total_correct qs i qi Hqi).
  assert (time_ok qi) by (eapply Forall_lookup_1; eauto).
  unfold gap_measure in Hm. rewrite (drop_S qs qi i Hqi) in Hm.
  destruct prev as [p|].
  - assert (time_ok p) by eauto. case_decide as Hd.
    + destruct (gap_insert_arith interval p qi) as (Hadd & Hlt & Hdec & Hpos); [done..|].
      rewrite insert_shift_right by lia.
      destruct (IH (S i) (Some (mkQuery peerID 0 (q_Time p +! interval)%go))
                  (take i qs ++ mkQuery peerID 0 (q_Time p +! interval)%go :: drop i qs))
        as (r & Hr & Hsub & Hok).
      * apply Forall_app. split; [by apply Forall_take|].
        constructor; [|by apply Forall_drop]. unfold time_ok in *. simpl. lia.
      * intros ? [= <-]. unfold time_ok in *. simpl. lia.
      * unfold gap_measure. rewrite drop_insert_middle, (drop_S qs qi i Hqi) by lia.
        rewrite length_app, length_take. simpl in *. rewrite length_drop, Hadd, Hdec. lia.
      * exists r. split; [done|]. split; [|done].
        etrans; [apply sublist_insert_middle | exact Hsub].
    + apply IH; [done | by intros ? [= <-] |].
      unfold gap_measure. simpl in *. lia.
  - apply IH; [done | by intros ? [= <-] |].
    unfold gap_measure. simpl in *. lia.
Qed.

Lemma fill_front_time_ok peerID start interval qs :
  0 < interval <= 2 ^ 60 -> - 2 ^ 60 <= start <= 2 ^ 60 ->
  Forall time_ok qs -> Forall time_ok (fill_front peerID start interval qs).
Proof.
  intros Hi Hs Hqs. unfold fill_front. destruct qs as [|q0 rest]; [done|].
  cbv zeta. case_decide; [|done]. rewrite insert_shift_front.
  constructor; [unfold time_ok; simpl; rewrite add64_exact by int64_solve; lia|].
  apply Forall_app. split; [by apply Forall_take | repeat constructor; unfold time_ok; simpl; lia].
Qed.

Lemma fill_back_time_ok peerID stop interval qs :
  0 < interval <= 2 ^ 60 -> - 2 ^ 60 <= stop <= 2 ^ 60 ->
  Forall time_ok qs -> Forall time_ok (fill_back peerID stop interval qs).
Proof.
  intros Hi Hs Hqs. unfold fill_back. destruct (list.last qs); [|done].
  cbv zeta. case_decide; [|done]. apply Forall_app. split; [done|].
  constructor; [|constructor]. unfold time_ok. simpl. rewrite sub64_exact by int64_solve. lia.
Qed.

(** The gap loop terminates within [gap_fuel] and keeps the input
    samples in order, every time in range. *)
Lemma fill_gaps_total peerID interval qs :
  0 < interval -> Forall time_ok qs ->
  exists r, fill_gaps (gap_fuel interval qs) peerID interval 0 None qs = Some r /\
            qs `sublist_of` r /\ Forall time_ok r.
Proof.
  intros Hi Hqs. apply fill_gaps_enough; [done | done | done |].
  unfold gap_measure, gap_fuel, option_list, from_option. rewrite drop_0. simpl. lia.
Qed.

(** C18. The gap loop terminates and computes the list reference
    [gaps_ref]: for a positive interval and sample times within 2^61 ms
    of the epoch, [fill_gaps] with the fuel [gap_fuel] returns every
    input sample in order, each preceded by [(q - p - 501) div interval]
    zero samples at [p + interval], [p + 2 interval], ..., where [p] is
    the sample before it and [q] its time. *)
Theorem fill_gaps_ref peerID interval qs :
  0 < interval -> Forall time_ok qs ->
  fill_gaps (gap_fuel interval qs) peerID interval 0 None qs = Some (gaps_ref peerID interval None qs).
Proof.
  intros Hi Hqs. rewrite fill_gaps_ref_gen; [done | done | done | done | | lia].
  unfold gap_measure, gap_fuel, option_list, from_option. rewrite drop_0. simpl. lia.
Qed.

Lemma fill_gaps_ref_witness :
  (0 < 1000 /\ Forall time_ok [mkQuery 7 12 0; mkQuery 7 13 3000]) /\
  fill_gaps (gap_fuel 1000 [mkQuery 7 12 0; mkQuery 7 13 3000]) 7 1000 0 None
            [mkQuery 7 12 0; mkQuery 7 13 3000] =
    Some (gaps_ref 7 1000 None [mkQuery 7 12 0; mkQuery 7 13 3000]).
Proof.
  assert (Forall time_ok [mkQuery 7 12 0; mkQuery 7 13 3000]) as H
    by (repeat constructor; unfold time_ok; simpl; lia).
  split; [split; [lia | exact H]|].
  exact (fill_gaps_ref 7 1000 _ ltac:(lia) H).
Defined.

(** Without a range ([start = stop = -1]) and with at least two
    samples, the front insertion puts a zero sample at [interval - 1]
    and the gap loop fills the span up to the first sample [T]. *)
Lemma series_without_range_length peerID interval q1 rest :
  0 < interval <= 2 ^ 60 -> Forall time_ok (q1 :: rest) -> rest <> [] ->
  interval < q_Time q1 - 499 ->
  exists out, series peerID (-1) (-1) (-1) interval (q1 :: rest) = Some out /\
    (Z.to_nat ((q_Time q1 - interval - 500) `div` interval) + 2 <= length out)%nat.
Proof.
  intros Hi Hqs Hrest Hbig. pose proof (Forall_inv Hqs) as Hq1.
  unfold time_ok in Hq1.
  assert (fill_front peerID (-1) interval (q1 :: rest) =
          mkQuery peerID 0 (interval - 1) :: take (length rest) (q1 :: rest) ++ [zero_query]) as Hff.
  { unfold fill_front. cbv zeta. rewrite decide_True.
    - rewrite insert_shift_front. do 3 f_equal. rewrite add64_exact by int64_solve. lia.
    - unfold tolerance. rewrite (sub64_exact (q_Time q1)), sub64_exact by int64_solve. lia. }
  assert (fill_back peerID (-1) interval (fill_front peerID (-1) interval (q1 :: rest)) =
          fill_front peerID (-1) interval (q1 :: rest)) as Hfb.
  { rewrite Hff, app_comm_cons. unfold fill_back. rewrite last_snoc. cbv zeta.
    rewrite decide_False; [done|]. unfold tolerance. simpl. replace ((0 -! -1 -! 500)%go) with (-499) by reflexivity. lia. }
  assert (Forall time_ok (fill_front peerID (-1) interval (q1 :: rest))) as Hok
    by (apply fill_front_time_ok; [lia | lia | done]).
  unfold series. rewrite decide_True by (simpl; lia). cbv zeta. rewrite Hfb.
  rewrite fill_gaps_ref_gen; [| lia | done | done | | lia].
  2: { unfold gap_measure, gap_fuel, option_list, from_option. rewrite drop_0. simpl. lia. }
  rewrite take_0, drop_0. eexists. split; [reflexivity|].
  unfold select_output. rewrite decide_False by lia.
  rewrite Hff. destruct rest as [|q2 rest]; [done|]. cbn [length take gaps_ref from_option app].
  rewrite length_app. unfold gap_samples. rewrite length_map, length_seq. simpl q_Time.
  unfold tolerance.
  replace (q_Time q1 - (interval - 1) - 500 - 1) with (q_Time q1 - interval - 500) by lia.
  simpl. lia.
Qed.

(** With a positive interval and bounds and sample times within 2^60
    ms of the epoch, the series computation produces a result. *)
Lemma series_total peerID start stop max interval queries :
  0 < interval <= 2 ^ 60 -> - 2 ^ 60 <= start <= 2 ^ 60 -> - 2 ^ 60 <= stop <= 2 ^ 60 ->
  Forall time_ok queries ->
  exists r, series peerID start stop max interval queries = Some r.
Proof.
  intros Hi Hstart Hstop Hqs. unfold series. case_decide; [|by eexists].
  destruct (fill_gaps_total peerID interval
              (fill_back peerID stop interval (fill_front peerID start interval queries)))
    as (r & -> & _); [lia | by apply fill_back_time_ok, fill_front_time_ok |].
  by eexists.
Qed.

End Series.
