(* ===== verification/Config.v ===== *)
(** * Config: [ReadConfig] and its readers ([src/config.go])

    [ReadConfig] turns the decoded HJSON document, a
    [map[string]interface{}], into the [Config] the program runs with:
    global [Interval] and [Timeout] (default 1000 ms, at least 10 ms),
    the database file, the history window, the peers (each with an
    interval, a timeout, a name, a parsed IP and an id, by default the
    CRC-32 of its address with the CRC-32Q polynomial) and the listen
    address; two peers with the same id are an error.

    Model.  The decoded document is a [value]; a Go map is an
    association list in the order [range] visits it (Go leaves that
    order unspecified, so every theorem quantifies over it).  Pointers
    that may be nil are [option]s; an [error] is an [option error]
    returned beside the value, as Go does.  Reading the file and the
    HJSON decoding are not modelled: [ReadConfig] starts from the
    decoded map.  The library functions the readers call are modelled
    from their Go definitions: [strings.EqualFold] against the ASCII
    names used here, [strconv.Atoi] with its fast path and its
    [ParseInt] path, the conversion [string(int)], and
    [crc32.Checksum] with [crc32.MakeTable].  [net.ParseIP] and
    [strconv.FormatFloat] are parameters of the section [Reader]: the
    theorems hold for any of them. *)

From S2P Require Import Prelude Data.
From Stdlib Require Import Btauto.
From stdpp Require Import strings.
From stdpp Require Import options.

Local Open Scope Z_scope.

Module Config.

(** ** Decoded documents *)

(** The dynamic values a [map[string]interface{}] can hold; a float is
    the exact dyadic rational [num / den]. *)
Inductive value :=
| VInt (z : Z)
| VInt64 (z : Z)
| VString (s : string)
| VFloat32 (num : Z) (den : positive)
| VFloat64 (num : Z) (den : positive)
| VBool (b : bool)
| VList (vs : list value)
| VMap (m : list (string * value))
| VOther.

(** The errors of this file: those of the readers ([errors.New]), of
    [strconv] ([ErrSyntax], [ErrRange]) and of [ReadConfig]. *)
Inductive error :=
| ErrNotFound
| ErrInvalidFormat
| ErrSyntax
| ErrRange
| ErrAddressInvalidFormat
| ErrAddressNotFound
| ErrAddressInvalid
| ErrNotIP (addr : string)
| ErrSameID (addr1 addr2 : string)
| ErrListenInvalidFormat.

#[export] Instance error_eq_dec : EqDecision error.
Proof. solve_decision. Defined.

(** [[]byte(s)]: the bytes of a string. *)
Definition bytes (s : string) : list Z :=
  map (fun c => Z.of_N (Ascii.N_of_ascii c)) (String.list_ascii_of_string s).

Definition string_of_bytes (bs : list Z) : string :=
  String.string_of_list_ascii (map (fun b => Ascii.ascii_of_N (Z.to_N b)) bs).

(** ** [strings.EqualFold] *)

Definition lower_byte (b : Z) : Z := if decide (65 <= b <= 90) then b + 32 else b.

(** [strings.EqualFold(key, name)] for an ASCII [name]: bytes equal up
    to ASCII case, and the two runes outside ASCII whose simple case
    folding orbit meets an ASCII letter, U+017F (long s, bytes C5 BF)
    with [s] and U+212A (Kelvin sign, bytes E2 84 AA) with [k]. *)
Fixpoint fold_eq (key name : list Z) : bool :=
  match name with
  | [] => bool_decide (key = [])
  | c :: name' =>
      match key with
      | [] => false
      | b :: key' =>
          if bool_decide (lower_byte b = lower_byte c) then fold_eq key' name'
          else if bool_decide (lower_byte c = 115 /\ b = 197 /\ take 1 key' = [191])
          then fold_eq (drop 1 key') name'
          else if bool_decide (lower_byte c = 107 /\ b = 226 /\ take 2 key' = [132; 170])
          then fold_eq (drop 2 key') name'
          else false
      end
  end.

Definition EqualFold (key name : string) : bool := fold_eq (bytes key) (bytes name).

(** [for key, value := range amap { if strings.EqualFold(key, name)
    { ... return } }]: the first key of the iteration that matches. *)
Fixpoint find_key (amap : list (string * value)) (name : string) : option value :=
  match amap with
  | [] => None
  | (k, v) :: rest => if EqualFold k name then Some v else find_key rest name
  end.

(** ** [strconv.Atoi] *)

Definition maxUint64 : Z := 2 ^ 64 - 1.

(** The sign of [ParseInt] and of [Atoi]'s fast path: a leading [+]
    or [-] is removed. *)
Definition split_sign (s : list Z) : bool * bool * list Z :=
  match s with
  | c :: rest =>
      if decide (c = 45) then (true, true, rest)
      else if decide (c = 43) then (true, false, rest)
      else (false, false, s)
  | [] => (false, false, [])
  end.

(** The digit loop of the fast path: [ch -= '0'; if ch > 9 {error};
    n = n*10 + int(ch)] on Go [int]s. *)
Fixpoint atoi_digits (n : Z) (s : list Z) : option Z :=
  match s with
  | [] => Some n
  | c :: s' =>
      let ch := (c - 48) mod 256 in
      if decide (9 < ch) then None else atoi_digits (n *! 10 +! ch)%go s'
  end.

(** [Atoi]'s fast path, taken for [0 < len(s) < 19]. *)
Definition atoi_fast (s : list Z) : Z * option error :=
  match split_sign s with
  | (true, _, []) => (0, Some ErrSyntax)
  | (_, neg, body) =>
      match atoi_digits 0 body with
      | None => (0, Some ErrSyntax)
      | Some n => (if neg then (0 -! n)%go else n, None)
      end
  end.

(** The loop of [ParseUint(s, 10, 64)]: a non-digit is a syntax error,
    and the first digit that would overflow 64 bits stops the loop with
    a range error and [maxUint64]. *)
Fixpoint parse_uint_loop (n : Z) (s : list Z) : Z * option error :=
  match s with
  | [] => (n, None)
  | c :: s' =>
      if decide (48 <= c <= 57) then
        if decide (maxUint64 / 10 + 1 <= n) then (maxUint64, Some ErrRange)
        else
          let n1 := n * 10 + (c - 48) in
          if decide (maxUint64 < n1) then (maxUint64, Some ErrRange)
          else parse_uint_loop n1 s'
      else (0, Some ErrSyntax)
  end.

Definition ParseUint (s : list Z) : Z * option error :=
  match s with
  | [] => (0, Some ErrSyntax)
  | _ => parse_uint_loop 0 s
  end.

(** [ParseInt(s, 10, 0)] on a 64-bit platform. *)
Definition ParseInt (s : list Z) : Z * option error :=
  match s with
  | [] => (0, Some ErrSyntax)
  | _ =>
      let '(_, neg, body) := split_sign s in
      let '(un, err) := ParseUint body in
      if decide (err = Some ErrSyntax) then (0, Some ErrSyntax)
      else if decide (neg = false /\ 2 ^ 63 <= un) then (2 ^ 63 - 1, Some ErrRange)
      else if decide (neg = true /\ 2 ^ 63 < un) then (- 2 ^ 63, Some ErrRange)
      else (if neg then - un else un, None)
  end.

Definition Atoi (str : string) : Z * option error :=
  let s := bytes str in
  if decide (0 < length s < 19)%nat then atoi_fast s else ParseInt s.

(** ** [string(int)]: the UTF-8 encoding of a rune *)

(** [intstring] and [utf8.EncodeRune]: a value that is not a Unicode
    scalar value (negative, a surrogate, above U+10FFFF, or outside
    [int32]) becomes U+FFFD. *)
Definition rune_string (r : Z) : string :=
  let r := if decide (r < 0 \/ 1114111 < r \/ 55296 <= r <= 57343) then 65533 else r in
  string_of_bytes
    (if decide (r <= 127) then [r]
     else if decide (r <= 2047) then
       [Z.lor 192 (Z.shiftr r 6); Z.lor 128 (Z.land r 63)]
     else if decide (r <= 65535) then
       [Z.lor 224 (Z.shiftr r 12); Z.lor 128 (Z.land (Z.shiftr r 6) 63); Z.lor 128 (Z.land r 63)]
     else
       [Z.lor 240 (Z.shiftr r 18); Z.lor 128 (Z.land (Z.shiftr r 12) 63);
        Z.lor 128 (Z.land (Z.shiftr r 6) 63); Z.lor 128 (Z.land r 63)]).

(** ** [hash/crc32] *)


(** One round of [simpleMakeTable]: [if crc&1 == 1 { crc = (crc >> 1)
    ^ poly } else { crc >>= 1 }]. *)
Definition crc_round (poly crc : Z) : Z :=
  if Z.testbit crc 0 then Z.lxor (Z.shiftr crc 1) poly else Z.shiftr crc 1.

(** [simpleMakeTable(poly)]: entry [i] is [i] after eight rounds. *)
Definition MakeTable (poly : Z) : list Z :=
  map (fun i => Nat.iter 8 (crc_round poly) (Z.of_nat i)) (seq 0 256).

(** The loop of [simpleUpdate]: [crc = tab[byte(crc)^v] ^ (crc >> 8)]. *)
Fixpoint crc_loop (tab : list Z) (crc : Z) (p : list Z) : Z :=
  match p with
  | [] => crc
  | v :: p' =>
      crc_loop tab (Z.lxor (tab !!! Z.to_nat (Z.lxor (Z.land crc 255) v)) (Z.shiftr crc 8)) p'
  end.

(** [simpleUpdate(crc, tab, p)]: the register is complemented before
    and after the loop. *)
Definition simpleUpdate (crc : Z) (tab : list Z) (p : list Z) : Z :=
  Z.lxor (crc_loop tab (Z.lxor crc (2 ^ 32 - 1)) p) (2 ^ 32 - 1).

(** [crc32.Checksum(data, tab)]: [Update(0, tab, data)], which for a
    table other than the IEEE and Castagnoli ones is [simpleUpdate]. *)
Definition Checksum (data : list Z) (tab : list Z) : Z := simpleUpdate 0 tab data.

(** Line 213: [crc32q := crc32.MakeTable(0xD5828281)], the CRC-32Q
    polynomial 0x814141AB in reversed bit order. *)
Definition crc32q : list Z := MakeTable 3582100097.

(** ** Peers and the configuration *)

(** A [Peer] as [readPeers] builds it: [Address] is set on every peer
    it returns, the other pointers may be nil until [ReadConfig] fills
    them; [ip] is nil until [net.ParseIP] has been called. *)
Record RawPeer := mkRaw {
  pName : option string;
  pAddress : string;
  pInterval : option Z;
  pTimeout : option Z;
  pID : option Z;
  pip : option IP
}.

(** [type Config struct]; [KeepHistoryFor] in nanoseconds. *)
Record Config := mkConfig {
  Peers : list RawPeer;
  Interval : option Z;
  Timeout : option Z;
  ListenAddress : option string;
  DataBase : option string;
  KeepHistoryFor : Z
}.

(** [Peer{Address: str}]. *)
Definition address_peer (s : string) : RawPeer := mkRaw None s None None None None.

(** Lines 175-180, 183-188, 216-220 and 222-226: a missing value takes
    the default, a value below 10 becomes 10. *)
Definition clamp10 (v : option Z) (dflt : Z) : Z :=
  match v with
  | None => dflt
  | Some n => if decide (n < 10) then 10 else n
  end.

(** [time.ParseDuration("672h")] in nanoseconds. *)
Definition hours672 : Z := 672 * 3600 * 10 ^ 9.

(** The first pair [(i, j)], [i <> j], in the order of the two nested
    [range] loops of lines 242-248, whose ids are equal. *)
Fixpoint dup_inner (i : nat) (p1 : RawPeer) (j : nat) (ps : list RawPeer) : option error :=
  match ps with
  | [] => None
  | p2 :: ps' =>
      if decide (i <> j /\ pID p1 = pID p2) then Some (ErrSameID (pAddress p1) (pAddress p2))
      else dup_inner i p1 (S j) ps'
  end.

Fixpoint dup_outer (i : nat) (ps1 all : list RawPeer) : option error :=
  match ps1 with
  | [] => None
  | p1 :: ps1' =>
      match dup_inner i p1 0 all with
      | Some e => Some e
      | None => dup_outer (S i) ps1' all
      end
  end.

(** ** Normalisation *)

(** What [ReadConfig] promises of every peer it returns without error:
    the pointers dereferenced later are set and the periods are at
    least 10 ms. *)
Definition peer_ok (p : RawPeer) : Prop :=
  (exists iv, pInterval p = Some iv /\ 10 <= iv) /\
  (exists tm, pTimeout p = Some tm /\ 10 <= tm) /\
  is_Some (pName p) /\ is_Some (pip p) /\ is_Some (pID p).

Lemma clamp10_ge v d : 10 <= d -> 10 <= clamp10 v d.
Proof. unfold clamp10. destruct v; [case_decide|]; lia. Qed.

#[export] Hint Resolve clamp10_ge : icmpmon.

Lemma dup_inner_none i p1 j ps :
  dup_inner i p1 j ps = None <->
  forall k p2, ps !! k = Some p2 -> i <> (j + k)%nat -> pID p1 <> pID p2.
Proof.
  revert j. induction ps as [|p2 ps IH]; intros j; simpl; [split; [by intros|done]|].
  case_decide as Hd.
  - split; [done|]. intros H. exfalso. destruct Hd as [Hij Heq].
    apply (H 0%nat p2); [done | lia | done].
  - rewrite IH. split.
    + intros H [|k] q Hq Hi; simpl in Hq.
      * injection Hq as <-. intros Heq. apply Hd. split; [lia | done].
      * apply (H k); [done | lia].
    + intros H k q Hq Hi. apply (H (S k)); [done | lia].
Qed.

Lemma dup_outer_none i ps1 all :
  dup_outer i ps1 all = None <->
  forall k p1, ps1 !! k = Some p1 -> dup_inner (i + k) p1 0 all = None.
Proof.
  revert i. induction ps1 as [|p1 ps1 IH]; intros i; simpl; [split; [by intros|done]|].
  destruct (dup_inner i p1 0 all) eqn:E.
  - split; [done|]. intros H. specialize (H 0%nat p1 eq_refl). rewrite Nat.add_0_r in H. congruence.
  - rewrite IH. split.
    + intros H [|k] q Hq; simpl in Hq.
      * injection Hq as <-. by rewrite Nat.add_0_r.
      * rewrite <- Nat.add_succ_comm. by apply H.
    + intros H k q Hq. rewrite Nat.add_succ_comm. by apply (H (S k)).
Qed.

(** The scan of lines 242-248 finds a pair exactly when two peers share
    an id. *)
Lemma dup_outer_spec ps : dup_outer 0 ps ps = None <-> NoDup (map pID ps).
Proof.
  rewrite dup_outer_none, NoDup_alt. split.
  - intros H i j x Hi Hj.
    rewrite list_lookup_fmap in Hi, Hj.
    destruct (ps !! i) as [p|] eqn:Ep; [|done]. destruct (ps !! j) as [q|] eqn:Eq; [|done].
    simpl in Hi, Hj. injection Hi as <-. injection Hj as Hj.
    destruct (decide (i = j)) as [|Hne]; [done|]. exfalso.
    eapply dup_inner_none; [apply (H i p Ep) | exact Eq | simpl; lia | done].
  - intros H k p Hp. apply dup_inner_none. intros j q Hq Hne Heq. simpl in Hne.
    apply Hne, (H k j (pID p)); rewrite list_lookup_fmap; [by rewrite Hp | by rewrite Hq, Heq].
Qed.

(** ** Map iteration order *)

Definition key_matches (name : string) (kv : string * value) : Prop := EqualFold kv.1 name = true.

#[export] Instance key_matches_dec name kv : Decision (key_matches name kv).
Proof. unfold key_matches. apply _. Defined.

(** The lookup returns the value of the first matching key. *)
Lemma find_key_filter amap name :
  find_key amap name = head (map snd (filter (key_matches name) amap)).
Proof.
  induction amap as [|[k v] amap IH]; simpl; [done|].
  rewrite filter_cons. case_decide as Hk; unfold key_matches in Hk; simpl in Hk.
  - by rewrite Hk.
  - apply not_true_is_false in Hk. by rewrite Hk.
Qed.

Lemma find_key_perm amap amap' name :
  amap ≡ₚ amap' -> (length (filter (key_matches name) amap) <= 1)%nat ->
  find_key amap name = find_key amap' name.
Proof.
  intros Hp Hl. rewrite !find_key_filter.
  pose proof (filter_Permutation (key_matches name) _ _ Hp) as Hf.
  destruct (filter (key_matches name) amap) as [|x [|y l]] eqn:E; simpl in Hl; [| |lia].
  - apply Permutation_nil in Hf. by rewrite Hf.
  - apply Permutation_length_1_inv in Hf. by rewrite Hf.
Qed.

(** ** [Atoi]'s fast path *)

Definition is_byte (c : Z) : Prop := 0 <= c < 256.

Lemma bytes_are_bytes s : Forall is_byte (bytes s).
Proof.
  unfold bytes. apply Forall_forall. intros x Hx.
  apply list_elem_of_fmap in Hx as [c [-> _]].
  pose proof (Ascii.N_ascii_bounded c). unfold is_byte. lia.
Qed.

(** Below 10^18 the two digit loops agree and neither wraps. *)
Lemma digit_loops_agree s n :
  Forall is_byte s -> 0 <= n -> (n + 1) * 10 ^ Z.of_nat (length s) <= 10 ^ 18 ->
  parse_uint_loop n s = match atoi_digits n s with
                        | Some m => (m, None)
                        | None => (0, Some ErrSyntax)
                        end /\
  (forall m, atoi_digits n s = Some m -> 0 <= m < 10 ^ 18).
Proof.
  revert n. induction s as [|c s IH]; intros n Hs Hn Hb; cbn [parse_uint_loop atoi_digits length] in *.
  - split; [done|]. intros m [= <-]. lia.
  - inversion Hs as [|? ? Hc Hs']; subst. unfold is_byte in Hc.
    rewrite Nat2Z.inj_succ, Z.pow_succ_r in Hb by lia.
    pose proof (Z.pow_pos_nonneg 10 (Z.of_nat (length s)) ltac:(lia) ltac:(lia)).
    destruct (decide (48 <= c <= 57)) as [Hd|Hd].
    + rewrite (Z.mod_small (c - 48)) by lia.
      replace (maxUint64 `div` 10) with 1844674407370955161 by reflexivity.
      unfold maxUint64. rewrite !decide_False by nia.
      assert (n + 1 <= 10 ^ 17) by nia.
      rewrite mul64_exact, add64_exact by int64_solve.
      apply IH; [done | lia | nia].
    + rewrite decide_True; [split; [done | done]|].
      destruct (decide (c < 48)).
      * rewrite Z.mod_eq by lia.
        replace ((c - 48) `div` 256) with (-1) by (apply Z.div_unique with (c + 208); lia).
        lia.
      * rewrite Z.mod_small; lia.
Qed.

(** [strconv.Atoi]'s fast path, taken for strings of 1 to 18 bytes,
    returns what its general path [ParseInt(s, 10, 0)] returns, value
    and error: the fast loop's [int] arithmetic cannot wrap there. *)
Lemma atoi_fast_ParseInt s :
  Forall is_byte s -> (0 < length s < 19)%nat -> atoi_fast s = ParseInt s.
Proof.
  intros Hs Hl. unfold atoi_fast, ParseInt, ParseUint.
  destruct s as [|c s]; [simpl in Hl; lia|].
  assert (forall body, Forall is_byte body -> (length body <= 18)%nat ->
            parse_uint_loop 0 body = match atoi_digits 0 body with
                                     | Some m => (m, None) | None => (0, Some ErrSyntax) end /\
            (forall m, atoi_digits 0 body = Some m -> 0 <= m < 10 ^ 18)) as Hagree.
  { intros body Hb Hlen. apply digit_loops_agree; [done | lia |].
    rewrite Z.mul_1_l. apply Z.pow_le_mono_r; lia. }
  pose proof Hs as Hs0. apply Forall_cons in Hs0 as [Hc Hs'].
  unfold split_sign. simpl in Hl.
  destruct (decide (c = 45)); [|destruct (decide (c = 43))]; subst.
  - destruct (Hagree s) as [Hp Hm]; [done | lia |].
    destruct s as [|c' s']; [done|]. rewrite Hp.
    destruct (atoi_digits 0 _) as [m|]; [specialize (Hm m eq_refl) | done].
    rewrite !decide_False by (first [done | intros [? ?]; lia]).
    rewrite sub64_exact by int64_solve. f_equal; lia.
  - destruct (Hagree s) as [Hp Hm]; [done | lia |].
    destruct s as [|c' s']; [done|]. rewrite Hp.
    destruct (atoi_digits 0 _) as [m|]; [specialize (Hm m eq_refl) | done].
    by rewrite !decide_False by (first [done | intros [? ?]; lia]).
  - destruct (Hagree (c :: s)) as [Hp Hm]; [done | simpl; lia |].
    change (ParseUint (c :: s)) with (parse_uint_loop 0 (c :: s)). rewrite Hp.
    destruct (atoi_digits 0 (c :: s)) as [m|]; [specialize (Hm m eq_refl) | done].
    by rewrite !decide_False by (first [done | intros [? ?]; lia]).
Qed.

(** ** The CRC of the default peer ids *)

(** The bitwise CRC the table encodes: the byte is xored into the low
    bits of the register, then eight rounds. *)
Fixpoint crc_bitwise (poly crc : Z) (p : list Z) : Z :=
  match p with
  | [] => crc
  | v :: p' => crc_bitwise poly (Nat.iter 8 (crc_round poly) (Z.lxor crc v)) p'
  end.

Lemma crc_round_lxor poly a b :
  crc_round poly (Z.lxor a b) = Z.lxor (crc_round poly a) (crc_round poly b).
Proof.
  unfold crc_round. rewrite Z.lxor_spec, Z.shiftr_lxor.
  apply Z.bits_inj'. intros i Hi.
  destruct (Z.testbit a 0), (Z.testbit b 0); simpl; rewrite !Z.lxor_spec; btauto.
Qed.

Lemma iter_round_lxor n poly a b :
  Nat.iter n (crc_round poly) (Z.lxor a b) =
  Z.lxor (Nat.iter n (crc_round poly) a) (Nat.iter n (crc_round poly) b).
Proof. induction n as [|n IH]; [done|]. rewrite !Nat.iter_succ, IH. apply crc_round_lxor. Qed.

(** Rounds on a register whose low bits are clear only shift it. *)
Lemma iter_round_shiftl k m poly y :
  (k <= m)%nat ->
  Nat.iter k (crc_round poly) (Z.shiftl y (Z.of_nat m)) = Z.shiftl y (Z.of_nat (m - k)).
Proof.
  induction k as [|k IH]; intros Hk; [by rewrite Nat.sub_0_r|].
  rewrite Nat.iter_succ, IH by lia. unfold crc_round.
  rewrite Z.shiftl_spec_low by lia. rewrite Z.shiftr_shiftl_l by lia. f_equal. lia.
Qed.

Lemma split_low_byte x : x = Z.lxor (Z.land x 255) (Z.shiftl (Z.shiftr x 8) 8).
Proof.
  apply Z.bits_inj'. intros i Hi. rewrite Z.lxor_spec, Z.land_spec.
  change 255 with (Z.ones 8). rewrite Z.testbit_ones_nonneg by lia.
  destruct (Z.ltb_spec i 8).
  - rewrite Z.shiftl_spec_low by lia. by destruct (Z.testbit x i).
  - rewrite Z.shiftl_spec_high, Z.shiftr_spec by lia.
    replace (i - 8 + 8) with i by lia. by destruct (Z.testbit x i).
Qed.

Lemma land_255_range x : 0 <= Z.land x 255 < 256.
Proof.
  change 255 with (Z.ones 8). rewrite Z.land_ones by lia.
  apply Z.mod_pos_bound. lia.
Qed.

Lemma MakeTable_lookup poly n :
  (n < 256)%nat -> MakeTable poly !!! n = Nat.iter 8 (crc_round poly) (Z.of_nat n).
Proof.
  intros Hn. unfold MakeTable.
  rewrite list_lookup_total_alt, list_lookup_fmap, lookup_seq_lt by done. done.
Qed.

(** One table step is eight rounds: the table holds the rounds of the
    low byte, and the rounds are linear. *)
Lemma table_step poly x :
  Nat.iter 8 (crc_round poly) x = Z.lxor (MakeTable poly !!! Z.to_nat (Z.land x 255)) (Z.shiftr x 8).
Proof.
  pose proof (land_255_range x).
  rewrite MakeTable_lookup, Z2Nat.id by lia.
  rewrite (split_low_byte x) at 1. rewrite iter_round_lxor.
  rewrite (iter_round_shiftl 8 8) by lia. by rewrite Nat.sub_diag, Z.shiftl_0_r.
Qed.

Lemma land_lxor_distr a b c : Z.land (Z.lxor a b) c = Z.lxor (Z.land a c) (Z.land b c).
Proof.
  apply Z.bits_inj'. intros i Hi. rewrite !Z.land_spec, !Z.lxor_spec, !Z.land_spec. btauto.
Qed.

Lemma crc_loop_bitwise poly crc p :
  Forall is_byte p -> crc_loop (MakeTable poly) crc p = crc_bitwise poly crc p.
Proof.
  revert crc. induction p as [|v p IH]; intros crc Hp; [done|].
  apply Forall_cons in Hp as [Hv Hp]. unfold is_byte in Hv. cbn [crc_loop crc_bitwise].
  rewrite IH by done. f_equal. rewrite table_step.
  rewrite land_lxor_distr, Z.shiftr_lxor.
  assert (Z.land v 255 = v) as ->.
  { change 255 with (Z.ones 8). rewrite Z.land_ones, Z.mod_small; lia. }
  rewrite (Z.shiftr_div_pow2 v), Z.div_small, Z.lxor_0_r by lia. done.
Qed.

Lemma lxor_bound a b n :
  0 < n -> 0 <= a < 2 ^ n -> 0 <= b < 2 ^ n -> 0 <= Z.lxor a b < 2 ^ n.
Proof.
  intros Hn Ha Hb. assert (0 <= Z.lxor a b) by (apply Z.lxor_nonneg; lia). split; [done|].
  destruct (Z.eq_dec (Z.lxor a b) 0) as [->|]; [lia|].
  assert (forall c, 0 <= c < 2 ^ n -> Z.log2 c < n) as Hlog.
  { intros c Hc. destruct (Z.eq_dec c 0) as [->|].
    - simpl. lia.
    - apply Z.log2_lt_pow2; lia. }
  apply Z.log2_lt_pow2; [lia|].
  pose proof (Z.log2_lxor a b ltac:(lia) ltac:(lia)). pose proof (Hlog a Ha). pose proof (Hlog b Hb). lia.
Qed.

Lemma crc_round_bound poly c :
  0 <= poly < 2 ^ 32 -> 0 <= c < 2 ^ 32 -> 0 <= crc_round poly c < 2 ^ 32.
Proof.
  intros Hp Hc. unfold crc_round.
  assert (0 <= Z.shiftr c 1 < 2 ^ 32).
  { rewrite Z.shiftr_div_pow2 by lia. split; [apply Z.div_pos | apply Z.div_lt_upper_bound]; lia. }
  destruct (Z.testbit c 0); [apply lxor_bound; lia | done].
Qed.

Lemma crc_bitwise_bound poly crc p :
  0 <= poly < 2 ^ 32 -> 0 <= crc < 2 ^ 32 -> Forall is_byte p ->
  0 <= crc_bitwise poly crc p < 2 ^ 32.
Proof.
  intros Hpoly. revert crc. induction p as [|v p IH]; intros crc Hc Hp; [done|].
  apply Forall_cons in Hp as [Hv Hp]. unfold is_byte in Hv. cbn [crc_bitwise]. apply IH; [|done].
  assert (0 <= Z.lxor crc v < 2 ^ 32) as Hx by (apply lxor_bound; lia).
  generalize (Z.lxor crc v) Hx. clear Hx. intros x Hx.
  generalize 8%nat. intros k. induction k as [|k IHk]; [done|].
  rewrite Nat.iter_succ. by apply crc_round_bound.
Qed.

(** The default id of a peer (line 237) is the CRC the table
    encodes: [crc32.Checksum] with the CRC-32Q table computes, byte by
    byte, eight rounds of the reversed polynomial on the complemented
    register; the id is below 2^32, so [int64] holds it and it is never
    negative. *)
Lemma Checksum_crc32q data :
  Forall is_byte data ->
  Checksum data crc32q = Z.lxor (crc_bitwise 3582100097 (2 ^ 32 - 1) data) (2 ^ 32 - 1) /\
  0 <= Checksum data crc32q < 2 ^ 32.
Proof.
  intros Hd. unfold Checksum, simpleUpdate, crc32q. rewrite Z.lxor_0_l.
  rewrite crc_loop_bitwise by done. split; [done|].
  apply lxor_bound; [lia | apply crc_bitwise_bound; [lia | lia | done] | lia].
Qed.

Section Reader.
(** [strconv.FormatFloat(f, 'E', -1, 32)] and [(f, 'E', -1, 64)]. *)
Variable FormatFloat32 FormatFloat64 : Z -> positive -> string.
(** [net.ParseIP]. *)
Variable ParseIP : string -> option IP.

(** The type switch of [readInt] (lines 38-69). *)
Definition int_of_value (v : value) : option Z * option error :=
  match v with
  | VInt z | VInt64 z => (Some z, None)
  | VString s => let '(n, err) := Atoi s in (Some n, err)
  | VFloat32 num den | VFloat64 num den => (Some (Z.quot num (Zpos den)), None)
  | VBool b => (Some (if b then 1 else 0), None)
  | _ => (None, Some ErrInvalidFormat)
  end.

Definition readInt (amap : list (string * value)) (name : string) : option Z * option error :=
  match find_key amap name with
  | Some v => int_of_value v
  | None => (None, Some ErrNotFound)
  end.

(** The type switch of [readString] (lines 78-108). *)
Definition string_of_value (v : value) : option string * option error :=
  match v with
  | VInt z | VInt64 z => (Some (rune_string z), None)
  | VString s => (Some s, None)
  | VFloat32 num den => (Some (FormatFloat32 num den), None)
  | VFloat64 num den => (Some (FormatFloat64 num den), None)
  | VBool b => (Some (if b then "true" else "false"), None)
  | _ => (None, Some ErrInvalidFormat)
  end.

Definition readString (amap : list (string * value)) (name : string)
    : option string * option error :=
  match find_key amap name with
  | Some v => string_of_value v
  | None => (None, Some ErrNotFound)
  end.

(** Lines 129-151: a peer given as a map. *)
Definition read_peer (m : list (string * value)) : RawPeer + error :=
  let id := (readInt m "ID").1 in
  let interval := (readInt m "Interval").1 in
  let timeout := (readInt m "Timeout").1 in
  let '(addr, err) := readString m "Address" in
  match err with
  | Some ErrInvalidFormat => inr ErrAddressInvalidFormat
  | Some ErrNotFound => inr ErrAddressNotFound
  | _ =>
      match addr with
      | Some a =>
          if decide (String.length a = 0%nat) then inr ErrAddressInvalid
          else inl (mkRaw (readString m "Name").1 a interval timeout id None)
      | None => inr ErrAddressInvalid
      end
  end.

(** Lines 123-153: the elements of a peer list; strings and maps are
    peers, anything else is skipped; an error returns the peers read
    so far. *)
Fixpoint read_peer_list (vs : list value) (peers : list RawPeer) : list RawPeer * option error :=
  match vs with
  | [] => (peers, None)
  | VString s :: vs' => read_peer_list vs' (peers ++ [address_peer s])
  | VMap m :: vs' =>
      match read_peer m with
      | inl p => read_peer_list vs' (peers ++ [p])
      | inr e => (peers, Some e)
      end
  | _ :: vs' => read_peer_list vs' peers
  end.

Definition readPeers (amap : list (string * value)) (name : string) : list RawPeer * option error :=
  match find_key amap name with
  | Some (VString s) => ([address_peer s], None)
  | Some (VList vs) => read_peer_list vs []
  | _ => ([], None)
  end.

(** Lines 216-238 for one peer: defaults and clamping, then the address
    is parsed; a peer whose address is not an IP stops the loop. *)
Definition normalize_peer (interval timeout : Z) (p : RawPeer) : RawPeer * option error :=
  let iv := clamp10 (pInterval p) interval in
  let tm := clamp10 (pTimeout p) timeout in
  match ParseIP (pAddress p) with
  | None => (mkRaw (pName p) (pAddress p) (Some iv) (Some tm) (pID p) None, Some (ErrNotIP (pAddress p)))
  | Some ipv =>
      let name := match pName p with Some n => Some n | None => Some (pAddress p) end in
      let id := match pID p with
                | Some i => Some i
                | None => Some (Checksum (bytes (pAddress p)) crc32q)
                end in
      (mkRaw name (pAddress p) (Some iv) (Some tm) id (Some ipv), None)
  end.

(** Lines 215-239: [for i := range config.Peers], updating in place. *)
Fixpoint normalize_peers (interval timeout : Z) (ps : list RawPeer) : list RawPeer * option error :=
  match ps with
  | [] => ([], None)
  | p :: ps' =>
      match normalize_peer interval timeout p with
      | (p', Some e) => (p' :: ps', Some e)
      | (p', None) => let '(ps'', e) := normalize_peers interval timeout ps' in (p' :: ps'', e)
      end
  end.

(** [ReadConfig] from the decoded document: the configuration as far
    as it was built, and the error returned beside it. *)
Definition ReadConfig (dat : list (string * value)) : Config * option error :=
  let interval := clamp10 (readInt dat "Interval").1 1000 in
  let timeout := clamp10 (readInt dat "Timeout").1 1000 in
  let database := match (readString dat "DataBase").1 with
                  | Some d => if decide (String.length d = 0%nat) then "data.db" else d
                  | None => "data.db"
                  end in
  let keep := match (readString dat "KeepHistoryFor").1 with
              | None => hours672
              | Some _ => hours672
              end in
  let cfg ps la := mkConfig ps (Some interval) (Some timeout) la (Some database) keep in
  let '(peers, perr) := readPeers dat "Peers" in
  match perr with
  | Some e => (cfg peers None, Some e)
  | None =>
      let '(peers', nerr) := normalize_peers interval timeout peers in
      match nerr with
      | Some e => (cfg peers' None, Some e)
      | None =>
          match dup_outer 0 peers' peers' with
          | Some e => (cfg peers' None, Some e)
          | None =>
              let '(la, lerr) := readString dat "ListenAddress" in
              if decide (lerr = Some ErrInvalidFormat) then (cfg peers' la, Some ErrListenInvalidFormat)
              else (cfg peers' (Some (default ":8000" la)), lerr)
          end
      end
  end.
Lemma normalize_peers_ok iv tm ps ps' :
  10 <= iv -> 10 <= tm -> normalize_peers iv tm ps = (ps', None) -> Forall peer_ok ps'.
Proof.
  intros Hiv Htm. revert ps'. induction ps as [|p ps IH]; intros ps' H; simpl in H.
  - by injection H as <-.
  - unfold normalize_peer in H. destruct (ParseIP (pAddress p)) as [ipv|]; [|done].
    destruct (normalize_peers iv tm ps) as [ps'' e] eqn:E. injection H as <- ->.
    constructor; [|by apply IH].
    split; [eexists; split; [done | by apply clamp10_ge]|].
    split; [eexists; split; [done | by apply clamp10_ge]|].
    simpl. split; [by destruct (pName p)|]. split; [done|]. by destruct (pID p).
Qed.

(** C14. A configuration [ReadConfig] accepts is normalised: global and
    per-peer intervals and timeouts are set and at least 10 ms, every
    peer has a name, a parsed IP and an id, the ids are pairwise
    distinct, and the listen address and a non-empty database file are
    set. *)
Theorem ReadConfig_ok dat cfg :
  ReadConfig dat = (cfg, None) ->
  (exists iv, Interval cfg = Some iv /\ 10 <= iv) /\
  (exists tm, Timeout cfg = Some tm /\ 10 <= tm) /\
  Forall peer_ok (Peers cfg) /\ NoDup (map pID (Peers cfg)) /\
  is_Some (ListenAddress cfg) /\ (exists d, DataBase cfg = Some d /\ d <> ""%string).
Proof.
  unfold ReadConfig. intros H.
  destruct (readPeers dat "Peers") as [peers [e|]]; [done|].
  destruct (normalize_peers _ _ peers) as [peers' [e|]] eqn:Hn; [done|].
  destruct (dup_outer 0 peers' peers') eqn:Hd; [done|].
  destruct (readString dat "ListenAddress") as [la lerr].
  case_decide; [done|]. injection H as <- ->. simpl.
  split; [eexists; split; [done | by apply clamp10_ge]|].
  split; [eexists; split; [done | by apply clamp10_ge]|].
  split; [eapply normalize_peers_ok; [..|exact Hn]; by apply clamp10_ge|].
  split; [by apply dup_outer_spec|]. split; [done|].
  eexists; split; [done|]. destruct (readString dat "DataBase").1 as [d|]; [|done].
  case_decide; [done|]. intros ->. done.
Qed.

(** C15. [ReadConfig] never succeeds on a document without a
    [ListenAddress] key: the "not found" error of [readString] is left
    in [err] and returned on line 261, although line 258 gives the
    field its default [":8000"]; [main] then exits. *)
Theorem ReadConfig_requires_ListenAddress dat :
  find_key dat "ListenAddress" = None -> (ReadConfig dat).2 <> None.
Proof.
  intros Hl. unfold ReadConfig.
  destruct (readPeers dat "Peers") as [peers [e|]]; [done|].
  destruct (normalize_peers _ _ peers) as [peers' [e|]]; [done|].
  destruct (dup_outer 0 peers' peers'); [done|].
  unfold readString. rewrite Hl. rewrite decide_False by done. done.
Qed.

(** The fields set before the peers are read keep their values on
    every path out of [ReadConfig]. *)
Lemma ReadConfig_globals dat :
  let cfg := (ReadConfig dat).1 in
  Interval cfg = Some (clamp10 (readInt dat "Interval").1 1000) /\
  Timeout cfg = Some (clamp10 (readInt dat "Timeout").1 1000) /\
  DataBase cfg = Some (match (readString dat "DataBase").1 with
                       | Some d => if decide (String.length d = 0%nat) then "data.db" else d
                       | None => "data.db"
                       end) /\
  KeepHistoryFor cfg = hours672.
Proof.
  unfold ReadConfig. cbv zeta.
  destruct (readString dat "KeepHistoryFor").1;
  destruct (readPeers dat "Peers") as [peers [e|]]; try done;
  destruct (normalize_peers _ _ peers) as [peers' [e|]]; try done;
  destruct (dup_outer 0 peers' peers'); try done;
  destruct (readString dat "ListenAddress") as [la lerr]; by case_decide.
Qed.

(** C38. [KeepHistoryFor] is never read: whatever the document says,
    the history window is 672 h (lines 198-206 parse the constant
    "672h" in both branches); absent [Interval], [Timeout] and
    [DataBase] keys give 1000 ms, 1000 ms and "data.db". *)
Theorem ReadConfig_defaults dat :
  KeepHistoryFor (ReadConfig dat).1 = 672 * 3600 * 10 ^ 9 /\
  (find_key dat "Interval" = None -> Interval (ReadConfig dat).1 = Some 1000) /\
  (find_key dat "Timeout" = None -> Timeout (ReadConfig dat).1 = Some 1000) /\
  (find_key dat "DataBase" = None -> DataBase (ReadConfig dat).1 = Some "data.db"%string).
Proof.
  destruct (ReadConfig_globals dat) as (Hi & Ht & Hd & Hk).
  unfold readInt, readString in *.
  split; [done|]. split; [intros E; by rewrite Hi, E|].
  split; [intros E; by rewrite Ht, E | intros E; by rewrite Hd, E].
Qed.

(** A string that [Atoi] rejects as a syntax error reads as 0. *)
Lemma Atoi_syntax_zero s n : Atoi s = (n, Some ErrSyntax) -> n = 0.
Proof.
  unfold Atoi, atoi_fast, ParseInt.
  repeat (case_match || case_decide); intros; simplify_eq; done.
Qed.

(** C37. An [Interval] given as a string that is not a decimal number
    (say "1s" or "1000ms") does not fall back to the 1000 ms default
    nor fail: [readInt] returns the 0 that [Atoi] produced beside its
    error, [ReadConfig] discards the error, and the interval is
    clamped to 10 ms. *)
Theorem ReadConfig_Interval_syntax_error dat s :
  find_key dat "Interval" = Some (VString s) -> (Atoi s).2 = Some ErrSyntax ->
  Interval (ReadConfig dat).1 = Some 10.
Proof.
  intros Hk Hs. destruct (ReadConfig_globals dat) as (Hi & _).
  rewrite Hi. unfold readInt. rewrite Hk. simpl.
  destruct (Atoi s) as [n e] eqn:E. simpl in Hs. subst e.
  rewrite (Atoi_syntax_zero s n E). done.
Qed.

(** When at most one key of the document matches a name up to
    case, [readInt] does not depend on the order in which Go's [range]
    visits the map. *)
Lemma readInt_order_independent amap amap' name :
  amap ≡ₚ amap' -> (length (filter (key_matches name) amap) <= 1)%nat ->
  readInt amap name = readInt amap' name.
Proof. intros Hp Hl. unfold readInt. by rewrite (find_key_perm amap amap' name Hp Hl). Qed.

(** [readInt] on a string value returns exactly what
    [strconv.ParseInt(s, 10, 0)] returns, value and error, whichever
    path [Atoi] takes: a decimal within [int64] is read exactly, a
    syntax error reads as 0 and an out-of-range number as the nearest
    [int64] bound. *)
Lemma int_of_value_string s :
  int_of_value (VString s) = (Some (ParseInt (bytes s)).1, (ParseInt (bytes s)).2).
Proof.
  unfold int_of_value, Atoi. case_decide.
  - rewrite atoi_fast_ParseInt by (done || apply bytes_are_bytes). by destruct (ParseInt _).
  - by destruct (ParseInt _).
Qed.

(** With two keys that differ only in case, the configuration
    depends on the map iteration order, which Go randomises: the same
    document yields a 100 ms or a 5000 ms interval. *)
Lemma ReadConfig_order_dependent :
  [("interval", VInt 100); ("Interval", VInt 5000)] ≡ₚ [("Interval", VInt 5000); ("interval", VInt 100)] /\
  Interval (ReadConfig [("interval", VInt 100); ("Interval", VInt 5000)]).1 = Some 100 /\
  Interval (ReadConfig [("Interval", VInt 5000); ("interval", VInt 100)]).1 = Some 5000.
Proof.
  split; [apply Permutation_swap|].
  rewrite !(proj1 (ReadConfig_globals _)). split; reflexivity.
Qed.

End Reader.

(** ** Concrete documents *)

(** A stand-in for [net.ParseIP] that knows two addresses, and a
    stand-in for [FormatFloat]. *)
Definition example_ParseIP (s : string) : option IP :=
  if String.eqb s "10.0.0.1" then Some [10; 0; 0; 1]
  else if String.eqb s "10.0.0.2" then Some [10; 0; 0; 2] else None.

Definition example_FormatFloat (num : Z) (den : positive) : string := "".

(** Two peers, one as a bare address, one as a map with an interval
    below the minimum; a listen address. *)
Definition example_doc : list (string * value) :=
  [("Peers", VList [VString "10.0.0.1"; VMap [("address", VString "10.0.0.2"); ("Interval", VInt 5)]]);
   ("ListenAddress", VString ":9000")].

Lemma ReadConfig_ok_witness :
  let cfg := (ReadConfig example_FormatFloat example_FormatFloat example_ParseIP example_doc).1 in
  ReadConfig example_FormatFloat example_FormatFloat example_ParseIP example_doc = (cfg, None) /\
  (exists iv, Interval cfg = Some iv /\ 10 <= iv) /\
  (exists tm, Timeout cfg = Some tm /\ 10 <= tm) /\
  Forall peer_ok (Peers cfg) /\ NoDup (map pID (Peers cfg)) /\
  is_Some (ListenAddress cfg) /\ (exists d, DataBase cfg = Some d /\ d <> ""%string).
Proof.
  cbv zeta.
  assert (ReadConfig example_FormatFloat example_FormatFloat example_ParseIP example_doc =
          ((ReadConfig example_FormatFloat example_FormatFloat example_ParseIP example_doc).1, None))
    as H by (vm_compute; reflexivity).
  split; [exact H|]. exact (ReadConfig_ok _ _ _ _ _ H).
Defined.

(** An explicit peer id need not fit in 32 bits: [ReadConfig] accepts
    [2^40] (and negative ids), which [liveDataHandler]'s [uint32]
    subscription cannot name. *)
Definition wide_id_doc : list (string * value) :=
  [("Peers", VList [VMap [("address", VString "10.0.0.1"); ("ID", VInt (2 ^ 40))]]);
   ("ListenAddress", VString ":9000")].

Lemma ReadConfig_accepts_wide_id :
  (ReadConfig example_FormatFloat example_FormatFloat example_ParseIP wide_id_doc).2 = None /\
  map pID (Peers (ReadConfig example_FormatFloat example_FormatFloat example_ParseIP wide_id_doc).1)
    = [Some (2 ^ 40)%Z].
Proof. split; vm_compute; reflexivity. Qed.

Lemma ReadConfig_requires_ListenAddress_witness :
  find_key [("Peers", VString "10.0.0.1")] "ListenAddress" = None /\
  (ReadConfig example_FormatFloat example_FormatFloat example_ParseIP [("Peers", VString "10.0.0.1")]).2 <> None.
Proof.
  assert (find_key [("Peers", VString "10.0.0.1")] "ListenAddress" = None) as H by reflexivity.
  split; [exact H|]. exact (ReadConfig_requires_ListenAddress _ _ _ _ H).
Defined.

Lemma ReadConfig_Interval_syntax_error_witness :
  (find_key [("interval", VString "1s")] "Interval" = Some (VString "1s") /\
   (Atoi "1s").2 = Some ErrSyntax) /\
  Interval (ReadConfig example_FormatFloat example_FormatFloat example_ParseIP
              [("interval", VString "1s")]).1 = Some 10.
Proof.
  assert (find_key [("interval", VString "1s")] "Interval" = Some (VString "1s")) as H1 by reflexivity.
  assert ((Atoi "1s").2 = Some ErrSyntax) as H2 by reflexivity.
  split; [split; [exact H1 | exact H2]|].
  exact (ReadConfig_Interval_syntax_error _ _ _ _ _ H1 H2).
Defined.

Lemma ReadConfig_defaults_witness :
  KeepHistoryFor (ReadConfig example_FormatFloat example_FormatFloat example_ParseIP
                    [("KeepHistoryFor", VString "24h")]).1 = 672 * 3600 * 10 ^ 9 /\
  Interval (ReadConfig example_FormatFloat example_FormatFloat example_ParseIP
              [("KeepHistoryFor", VString "24h")]).1 = Some 1000.
Proof.
  destruct (ReadConfig_defaults example_FormatFloat example_FormatFloat example_ParseIP
              [("KeepHistoryFor", VString "24h")]) as (Hk & Hi & _).
  split; [exact Hk | apply Hi; reflexivity].
Defined.

Lemma readInt_order_independent_witness :
  ([("interval", VInt 100); ("Timeout", VInt 50)] ≡ₚ [("Timeout", VInt 50); ("interval", VInt 100)] /\
   (length (filter (key_matches "Interval") [("interval", VInt 100); ("Timeout", VInt 50)]) <= 1)%nat) /\
  readInt [("interval", VInt 100); ("Timeout", VInt 50)] "Interval" =
  readInt [("Timeout", VInt 50); ("interval", VInt 100)] "Interval".
Proof.
  assert ([("interval", VInt 100); ("Timeout", VInt 50)] ≡ₚ [("Timeout", VInt 50); ("interval", VInt 100)])
    as H1 by apply Permutation_swap.
  assert (length (filter (key_matches "Interval") [("interval", VInt 100); ("Timeout", VInt 50)]) <= 1)%nat
    as H2 by (vm_compute; lia).
  split; [split; [exact H1 | exact H2]|]. exact (readInt_order_independent _ _ _ H1 H2).
Defined.

End Config.
