(* ===== verification/Handlers.v ===== *)
(** * Handlers: the HTTP handlers [/data] and [/stats] ([src/icmpmon.go])

    [dataHandler] (lines 311-428) reads the parameters [peer], [start],
    [stop] and [max] of the query string, answers 400 when one of them
    does not parse, selects the peer's rows (restricted to the range
    when both bounds are non-negative, after swapping reversed bounds)
    ordered by time, and encodes the series of [Series.series].
    [statsHandler] (lines 438-507) reads [peer], [start] and [stop]
    and selects the rows its two SQL aggregates range over.

    Model.  The query string is the list of its pairs in order
    ([url.Values.Get] returns the first value of a key); the table is
    the list of its rows in insertion order, and a [SELECT ... ORDER BY
    time] is a stable sort of the matching rows (rows of equal time in
    table order: SQLite's scan order, which SQL does not promise).  The
    JSON encoding, the headers and the HTTP plumbing are not modelled;
    a response is [BadRequest] or the list of samples encoded. *)

From S2P Require Import Prelude Data Series Config.
From stdpp Require Import strings.
From stdpp Require Import options.

Local Open Scope Z_scope.

Module Handlers.

(** [req.URL.Query()]: the decoded pairs of the query string. *)
Definition Values := list (string * string).

(** [url.Values.Get(key)]: the first value of [key], or [""]. *)
Fixpoint Get (vs : Values) (key : string) : string :=
  match vs with
  | [] => ""
  | (k, v) :: rest => if String.eqb k key then v else Get rest key
  end.

(** [strconv.ParseInt(str, 10, 0)] and [strconv.Atoi(str)], an error
    as [None]. *)
Definition parse_int (str : string) : option Z :=
  match Config.ParseInt (Config.bytes str) with
  | (n, None) => Some n
  | _ => None
  end.

Definition atoi (str : string) : option Z :=
  match Config.Atoi str with
  | (n, None) => Some n
  | _ => None
  end.

(** [if len(str) > 0 { x, err = parse(str); if err != nil { 400 } }]:
    an optional parameter keeps its default when empty. *)
Definition optional (parse : string -> option Z) (str : string) (dflt : Z) : option Z :=
  if decide (String.length str = 0%nat) then Some dflt else parse str.

Record data_params := mkDataParams {
  dp_peer : Z;
  dp_start : Z;
  dp_stop : Z;
  dp_max : Z
}.

(** Lines 312-349; [None] is the [w.WriteHeader(400)] of any of the
    four checks. *)
Definition parse_data (vs : Values) : option data_params :=
  peer ← parse_int (Get vs "peer");
  start ← optional parse_int (Get vs "start") (-1);
  stop ← optional parse_int (Get vs "stop") (-1);
  max ← optional atoi (Get vs "max") (-1);
  Some (mkDataParams peer start stop max).

(** [ORDER BY time] as a stable insertion sort. *)
Fixpoint insert_by_time (q : Query) (qs : list Query) : list Query :=
  match qs with
  | [] => [q]
  | q' :: rest => if decide (q_Time q' <= q_Time q) then q' :: insert_by_time q rest else q :: qs
  end.

Definition sort_by_time (qs : list Query) : list Query :=
  foldl (fun acc q => insert_by_time q acc) [] qs.

Definition in_range (range : option (Z * Z)) (t : Z) : Prop :=
  match range with
  | Some (a, b) => a <= t <= b
  | None => True
  end.

#[export] Instance in_range_dec range t : Decision (in_range range t).
Proof. destruct range as [[a b]|]; simpl; apply _. Defined.

(** Lines 358-364: [db.Select("response_time, time").Where(...)
    .Order("time").Find(&queries)]; only the two selected columns are
    filled, so [PeerID] is 0. *)
Definition select_rows (rows : list Query) (peerID : Z) (range : option (Z * Z)) : list Query :=
  map (fun q => mkQuery 0 (q_ResponseTime q) (q_Time q))
      (sort_by_time (filter (fun q => q_PeerID q = peerID /\ in_range range (q_Time q)) rows)).

Inductive response :=
| BadRequest
| JSON (qs : list Query).

(** [dataHandler] with the configured peers and default interval and
    the rows of the table; [None] only if the gap loop ran out of fuel,
    which [dataHandler_answers] excludes. *)
Definition dataHandler (peers : list Peer) (dflt_interval : Z) (rows : list Query) (vs : Values)
    : option response :=
  match parse_data vs with
  | None => Some BadRequest
  | Some p =>
      let '(start, stop) := Series.normalize_range (dp_start p) (dp_stop p) in
      let range := if decide (0 <= start /\ 0 <= stop) then Some (start, stop) else None in
      let queries := select_rows rows (dp_peer p) range in
      let interval := Series.getPeerInterval peers dflt_interval (dp_peer p) in
      JSON <$> Series.series (dp_peer p) start stop (dp_max p) interval queries
  end.

Record stats_params := mkStatsParams {
  sp_peer : Z;
  sp_start : Z;
  sp_stop : Z
}.

(** Lines 439-467: all three parameters through [strconv.Atoi]. *)
Definition parse_stats (vs : Values) : option stats_params :=
  peer ← atoi (Get vs "peer");
  start ← optional atoi (Get vs "start") (-1);
  stop ← optional atoi (Get vs "stop") (-1);
  Some (mkStatsParams peer start stop).

(** Line 477: the range is used only when both bounds are positive,
    and it is not swapped when reversed. *)
Definition stats_range (p : stats_params) : option (Z * Z) :=
  if decide (0 < sp_start p /\ 0 < sp_stop p) then Some (sp_start p, sp_stop p) else None.

(** The rows of the peer the two [SELECT]s range over. *)
Definition stats_rows (rows : list Query) (p : stats_params) : list Query :=
  filter (fun q => q_PeerID q = sp_peer p /\ in_range (stats_range p) (q_Time q)) rows.

(** [AverageResponseTime] as the exact quotient [avg_sum / avg_count]
    of [AVG(response_time) ... AND response_time > 0] (a NULL average,
    for no such row, reads as 0), and [Uptime] as SQLite computes
    [COUNT(...) * 100 / (SELECT COUNT(...) ...)]: an integer division. *)
Inductive stats_response :=
| StatsBadRequest
| Stats (avg_sum avg_count uptime : Z).

Definition statsHandler (rows : list Query) (vs : Values) : stats_response :=
  match parse_stats vs with
  | None => StatsBadRequest
  | Some p =>
      let sel := stats_rows rows p in
      let pos := filter (fun q => 0 < q_ResponseTime q) sel in
      let uptime := if decide (length sel = 0%nat) then 0
                    else (Z.of_nat (length pos) * 100) `div` Z.of_nat (length sel) in
      Stats (foldr (fun q acc => q_ResponseTime q + acc) 0 pos) (Z.of_nat (length pos)) uptime
  end.

(** ** The selected rows *)

Lemma insert_by_time_perm q qs : insert_by_time q qs ≡ₚ q :: qs.
Proof.
  induction qs as [|q' qs IH]; simpl; [done|].
  case_decide; [|done]. rewrite IH. apply Permutation_swap.
Qed.

Lemma sort_by_time_perm qs : sort_by_time qs ≡ₚ qs.
Proof.
  unfold sort_by_time. rewrite <- (app_nil_r qs) at 2. generalize (@nil Query).
  induction qs as [|q qs IH]; intros acc; simpl; [done|].
  rewrite IH, insert_by_time_perm. symmetry. apply Permutation_middle.
Qed.

(** The rows [select_rows] returns are the matching rows, each with its
    response time and time. *)
Lemma select_rows_perm rows peerID range :
  select_rows rows peerID range ≡ₚ
  map (fun q => mkQuery 0 (q_ResponseTime q) (q_Time q))
      (filter (fun q => q_PeerID q = peerID /\ in_range range (q_Time q)) rows).
Proof. unfold select_rows. by rewrite sort_by_time_perm. Qed.

Lemma select_rows_time (P : Z -> Prop) rows peerID range :
  Forall (fun q => q_PeerID q = peerID -> P (q_Time q)) rows ->
  Forall (fun q => P (q_Time q)) (select_rows rows peerID range).
Proof.
  intros H. rewrite select_rows_perm.
  apply Forall_fmap, Forall_forall. intros q Hq. apply list_elem_of_filter in Hq as [[Hp _] Hq].
  rewrite Forall_forall in H. simpl. by apply H.
Qed.

Lemma getPeerInterval_bound (P : Z -> Prop) peers dflt peerID :
  Forall (fun p => P (peer_Interval p)) peers -> P dflt -> P (Series.getPeerInterval peers dflt peerID).
Proof.
  intros Hps Hd. induction Hps as [|p ps Hp Hps IH]; simpl; [done|]. by case_decide.
Qed.

Lemma normalize_range_bounds (P : Z -> Prop) start stop :
  P start -> P stop -> P (Series.normalize_range start stop).1 /\ P (Series.normalize_range start stop).2.
Proof. unfold Series.normalize_range. by case_decide. Qed.

(** ** The answers of [dataHandler] *)

(** C19. [dataHandler] always answers: with the peers' intervals and
    the default interval positive (ReadConfig makes them at least
    10 ms) and below 2^60, row times within 2^60 ms of the epoch, and
    range bounds that parse within 2^60, the response is 400 or the
    encoded series; the gap loop never runs out of fuel. *)
Theorem dataHandler_answers peers dflt rows vs :
  Forall (fun p => 0 < peer_Interval p <= 2 ^ 60) peers -> 0 < dflt <= 2 ^ 60 ->
  Forall (fun q => - 2 ^ 60 <= q_Time q <= 2 ^ 60) rows ->
  (forall p, parse_data vs = Some p ->
     - 2 ^ 60 <= dp_start p <= 2 ^ 60 /\ - 2 ^ 60 <= dp_stop p <= 2 ^ 60) ->
  exists r, dataHandler peers dflt rows vs = Some r.
Proof.
  intros Hps Hd Hrows Hparse. unfold dataHandler.
  destruct (parse_data vs) as [p|] eqn:Ep; [|by eexists].
  destruct (Hparse p eq_refl) as [Hs Ht].
  destruct (normalize_range_bounds (fun z => - 2 ^ 60 <= z <= 2 ^ 60) (dp_start p) (dp_stop p) Hs Ht)
    as [Hs' Ht'].
  destruct (Series.normalize_range (dp_start p) (dp_stop p)) as [start stop]. simpl in Hs', Ht'.
  destruct (Series.series_total (dp_peer p) start stop (dp_max p)
              (Series.getPeerInterval peers dflt (dp_peer p))
              (select_rows rows (dp_peer p)
                 (if decide (0 <= start /\ 0 <= stop) then Some (start, stop) else None)))
    as [r Hr]; [ | done | done | |].
  - by apply (getPeerInterval_bound (fun z => 0 < z <= 2 ^ 60)).
  - apply (select_rows_time (fun t => - 2 ^ 61 <= t <= 2 ^ 61)).
    eapply Forall_impl; [exact Hrows|]. simpl. lia.
  - rewrite Hr. by eexists.
Qed.

(** The parameters of [/data?peer=str]. *)
Lemma parse_data_peer_only str n :
  parse_int str = Some n -> parse_data [("peer", str)] = Some (mkDataParams n (-1) (-1) (-1)).
Proof. intros H. unfold parse_data. simpl. by rewrite H. Qed.

(** C20. A plain [/data?peer=N], without range, does not finish on a
    real history: if the peer has at least two rows, all at or after
    [T] ms, the answer has at least [(T - interval - 500) div interval
    + 2] samples, about 1.6 * 10^9 for a 2020 timestamp at the 1 s
    default, each inserted by copying the slice. *)
Theorem dataHandler_without_range peers dflt rows str n T :
  parse_int str = Some n ->
  let interval := Series.getPeerInterval peers dflt n in
  0 < interval <= 2 ^ 60 -> interval < T - 499 ->
  Forall (fun q => - 2 ^ 60 <= q_Time q <= 2 ^ 60) rows ->
  Forall (fun q => q_PeerID q = n -> T <= q_Time q) rows ->
  (2 <= length (filter (fun q => q_PeerID q = n) rows))%nat ->
  exists out, dataHandler peers dflt rows [("peer", str)] = Some (JSON out) /\
    (Z.to_nat ((T - interval - 500) `div` interval) + 2 <= length out)%nat.
Proof.
  intros Hstr interval Hiv HT Hrows HTs Hlen. unfold dataHandler.
  rewrite (parse_data_peer_only str n Hstr). simpl dp_start; simpl dp_stop; simpl dp_max; simpl dp_peer.
  unfold Series.normalize_range. rewrite decide_False by lia. rewrite decide_False by lia.
  fold interval.
  assert (Forall (fun q => Series.time_ok q) (select_rows rows n None)) as Hok.
  { apply (select_rows_time (fun t => - 2 ^ 61 <= t <= 2 ^ 61)).
    eapply Forall_impl; [exact Hrows|]. simpl. lia. }
  assert (Forall (fun q => T <= q_Time q) (select_rows rows n None)) as HT' by by apply select_rows_time.
  assert (2 <= length (select_rows rows n None))%nat as Hl.
  { rewrite select_rows_perm, length_map.
    erewrite list_filter_iff; [exact Hlen|]. simpl. tauto. }
  destruct (select_rows rows n None) as [|q1 [|q2 rest]] eqn:E; simpl in Hl; [lia | lia |].
  pose proof (Forall_inv HT') as Hq1. simpl in Hq1.
  destruct (Series.series_without_range_length n interval q1 (q2 :: rest)) as (out & Hout & Hbound);
    [lia | done | done | lia |].
  rewrite Hout. eexists. split; [reflexivity|].
  assert ((T - interval - 500) `div` interval <= (q_Time q1 - interval - 500) `div` interval)
    by (apply Z.div_le_mono; lia).
  lia.
Qed.

(** C22. A reversed range is the range itself: [/data] with [start] and
    [stop] exchanged answers the same, for non-negative bounds (lines
    354-360 swap them before the select). *)
Theorem dataHandler_reversed_range peers dflt rows vs1 vs2 a b :
  Get vs1 "peer" = Get vs2 "peer" -> Get vs1 "max" = Get vs2 "max" ->
  Get vs1 "start" = Get vs2 "stop" -> Get vs1 "stop" = Get vs2 "start" ->
  optional parse_int (Get vs1 "start") (-1) = Some a ->
  optional parse_int (Get vs1 "stop") (-1) = Some b ->
  0 <= a -> 0 <= b ->
  dataHandler peers dflt rows vs1 = dataHandler peers dflt rows vs2.
Proof.
  intros Hp Hm H12 H21 Ha Hb Ha0 Hb0. unfold dataHandler, parse_data.
  rewrite <- Hp, <- Hm, <- H12, <- H21, Ha, Hb.
  destruct (parse_int (Get vs1 "peer")) as [n|]; [simpl|done].
  destruct (optional atoi (Get vs1 "max") (-1)) as [m|]; [simpl|done].
  unfold Series.normalize_range.
  destruct (Z.lt_trichotomy a b) as [Hab|[<-|Hab]].
  - rewrite (decide_False (P := 0 <= a /\ 0 <= b /\ b < a)) by lia.
    by rewrite (decide_True (P := 0 <= b /\ 0 <= a /\ a < b)) by lia.
  - done.
  - rewrite (decide_True (P := 0 <= a /\ 0 <= b /\ b < a)) by lia.
    by rewrite (decide_False (P := 0 <= b /\ 0 <= a /\ a < b)) by lia.
Qed.

(** C21. [/data] answers 400 exactly when [peer] does not parse as a
    decimal [int64], or [start] or [stop] is given and does not parse,
    or [max] is given and [Atoi] rejects it; otherwise the answer is the
    encoded series. *)
Theorem dataHandler_bad_request peers dflt rows vs :
  dataHandler peers dflt rows vs = Some BadRequest <->
  (Config.ParseInt (Config.bytes (Get vs "peer"))).2 <> None \/
  (Get vs "start" <> ""%string /\ (Config.ParseInt (Config.bytes (Get vs "start"))).2 <> None) \/
  (Get vs "stop" <> ""%string /\ (Config.ParseInt (Config.bytes (Get vs "stop"))).2 <> None) \/
  (Get vs "max" <> ""%string /\ (Config.Atoi (Get vs "max")).2 <> None).
Proof.
  assert (forall str, parse_int str = None <-> (Config.ParseInt (Config.bytes str)).2 <> None) as Hpi.
  { intros str. unfold parse_int. destruct (Config.ParseInt _) as [? [?|]]; simpl; naive_solver. }
  assert (forall str, atoi str = None <-> (Config.Atoi str).2 <> None) as Hat.
  { intros str. unfold atoi. destruct (Config.Atoi _) as [? [?|]]; simpl; naive_solver. }
  assert (forall parse str, optional parse str (-1) = None <-> str <> ""%string /\ parse str = None) as Hopt.
  { intros parse str. unfold optional. case_decide as Hl.
    - destruct str; simpl in Hl; [naive_solver | lia].
    - split; [|naive_solver]. intros H. split; [|done]. intros ->. done. }
  unfold dataHandler, parse_data.
  destruct (parse_int (Get vs "peer")) as [n|] eqn:Ep; simpl;
    [|split; [intros _; left; by apply Hpi | done]].
  assert ((Config.ParseInt (Config.bytes (Get vs "peer"))).2 = None) as Ep'.
  { unfold parse_int in Ep. by destruct (Config.ParseInt _) as [? [?|]]. }
  rewrite <- !Hpi, <- !Hat, <- !Hopt.
  destruct (optional parse_int (Get vs "start") (-1)) as [a|]; simpl; [|naive_solver].
  destruct (optional parse_int (Get vs "stop") (-1)) as [b|]; simpl; [|naive_solver].
  destruct (optional atoi (Get vs "max") (-1)) as [m|]; simpl; [|naive_solver].
  destruct (Series.normalize_range a b).
  split; [|naive_solver]. intros H. exfalso.
  destruct (Series.series _ _ _ _ _ _); simpl in H; congruence.
Qed.

(** ** The answers of [statsHandler] *)

Lemma filter_none {A} (P : A -> Prop) `{forall x, Decision (P x)} l :
  (forall x, ~ P x) -> filter P l = [].
Proof.
  intros HP. induction l as [|x l IH]; [done|]. rewrite filter_cons_False by apply HP. exact IH.
Qed.

(** C39. [/stats] does not swap a reversed range as [/data] does: with
    [0 < stop < start] both aggregates range over no row, and the
    answer is an average of 0 and an uptime of 0. *)
Theorem statsHandler_reversed_range rows vs p :
  parse_stats vs = Some p -> 0 < sp_stop p < sp_start p -> statsHandler rows vs = Stats 0 0 0.
Proof.
  intros Hp Hr. unfold statsHandler. rewrite Hp.
  assert (stats_rows rows p = []) as ->; [|done].
  apply filter_none. intros q [_ Hq]. unfold stats_range in Hq.
  rewrite decide_True in Hq by lia. simpl in Hq. lia.
Qed.

(** C40. [Uptime] is a whole percentage between 0 and 100: SQLite
    divides the integer [COUNT(...) * 100] by the count, so 2 answered
    probes out of 3 give 66, not 66.67; [AverageResponseTime] is taken
    over the answered probes only. *)
Theorem statsHandler_uptime rows vs p s c u :
  parse_stats vs = Some p -> statsHandler rows vs = Stats s c u ->
  let sel := stats_rows rows p in
  c = Z.of_nat (length (filter (fun q => 0 < q_ResponseTime q) sel)) /\ 0 <= u <= 100 /\
  (sel <> [] -> u * Z.of_nat (length sel) <= 100 * c < (u + 1) * Z.of_nat (length sel)).
Proof.
  intros Hp Hs sel. unfold statsHandler in Hs. rewrite Hp in Hs. fold sel in Hs.
  injection Hs as _ <- <-.
  pose proof (length_filter (fun q => 0 < q_ResponseTime q) sel) as Hle.
  split; [done|]. case_decide as Hl.
  - split; [lia|]. intros Hne. destruct sel; [done | simpl in Hl; lia].
  - set (n := Z.of_nat (length (filter (fun q => 0 < q_ResponseTime q) sel))) in *.
    pose proof (Z.mod_pos_bound (n * 100) (Z.of_nat (length sel))).
    pose proof (Z.div_mod (n * 100) (Z.of_nat (length sel))).
    split; [split; [apply Z.div_pos | apply Z.div_le_upper_bound]; lia|]. intros _. lia.
Qed.

(** [/stats] ignores a range starting at 0, where [/data] uses
    it: the test is [start > 0 && stop > 0] (line 477) against
    [start >= 0 && stop >= 0] (line 354), so [start=0] selects the
    whole history of the peer. *)
Lemma statsHandler_zero_start rows vs p :
  parse_stats vs = Some p -> sp_start p = 0 ->
  stats_rows rows p = filter (fun q => q_PeerID q = sp_peer p) rows.
Proof.
  intros _ H0. unfold stats_rows, stats_range. rewrite decide_False by lia.
  apply list_filter_iff. simpl. tauto.
Qed.

(** ** Concrete requests *)

(** Two samples of peer 7 in September 2020 and one of peer 8. *)
Definition example_rows : list Query :=
  [mkQuery 7 12 1600000000000; mkQuery 8 1 1600000000500; mkQuery 7 13 1600000001000].

Lemma dataHandler_answers_witness :
  (Forall (fun p => 0 < peer_Interval p <= 2 ^ 60) [] /\ 0 < 1000 <= 2 ^ 60 /\
   Forall (fun q => - 2 ^ 60 <= q_Time q <= 2 ^ 60) example_rows /\
   (forall p, parse_data [("peer", "7"); ("start", "1600000000000"); ("stop", "1600000002000")] = Some p ->
      - 2 ^ 60 <= dp_start p <= 2 ^ 60 /\ - 2 ^ 60 <= dp_stop p <= 2 ^ 60)) /\
  exists r, dataHandler [] 1000 example_rows
              [("peer", "7"); ("start", "1600000000000"); ("stop", "1600000002000")] = Some r.
Proof.
  assert (Forall (fun p => 0 < peer_Interval p <= 2 ^ 60) []) as H1 by constructor.
  assert (Forall (fun q => - 2 ^ 60 <= q_Time q <= 2 ^ 60) example_rows) as H2
    by (repeat constructor; simpl; lia).
  assert (forall p, parse_data [("peer", "7"); ("start", "1600000000000"); ("stop", "1600000002000")]
            = Some p -> - 2 ^ 60 <= dp_start p <= 2 ^ 60 /\ - 2 ^ 60 <= dp_stop p <= 2 ^ 60) as H3.
  { intros p Hp. vm_compute in Hp. injection Hp as <-. simpl. lia. }
  split; [split; [exact H1 | split; [lia | split; [exact H2 | exact H3]]]|].
  exact (dataHandler_answers [] 1000 example_rows _ H1 ltac:(lia) H2 H3).
Defined.

Lemma dataHandler_without_range_witness :
  (parse_int "7" = Some 7 /\
   0 < Series.getPeerInterval [] 1000 7 <= 2 ^ 60 /\
   Series.getPeerInterval [] 1000 7 < 1600000000000 - 499 /\
   Forall (fun q => - 2 ^ 60 <= q_Time q <= 2 ^ 60) example_rows /\
   Forall (fun q => q_PeerID q = 7 -> 1600000000000 <= q_Time q) example_rows /\
   (2 <= length (filter (fun q => q_PeerID q = 7%Z) example_rows))%nat) /\
  exists out, dataHandler [] 1000 example_rows [("peer", "7")] = Some (JSON out) /\
    (Z.to_nat ((1600000000000 - Series.getPeerInterval [] 1000 7 - 500) `div`
               Series.getPeerInterval [] 1000 7) + 2 <= length out)%nat.
Proof.
  assert (parse_int "7" = Some 7) as H1 by reflexivity.
  assert (Forall (fun q => - 2 ^ 60 <= q_Time q <= 2 ^ 60) example_rows) as H2
    by (repeat constructor; simpl; lia).
  assert (Forall (fun q => q_PeerID q = 7 -> 1600000000000 <= q_Time q) example_rows) as H3
    by (repeat constructor; simpl; lia).
  assert (2 <= length (filter (fun q => q_PeerID q = 7%Z) example_rows))%nat as H4
    by (vm_compute; lia).
  split; [repeat split; simpl; try lia; assumption|].
  exact (dataHandler_without_range [] 1000 example_rows "7" 7 1600000000000 H1
           ltac:(simpl; lia) ltac:(simpl; lia) H2 H3 H4).
Defined.

Lemma dataHandler_reversed_range_witness :
  (Get [("peer", "7"); ("start", "5000"); ("stop", "3000")] "peer" =
     Get [("peer", "7"); ("start", "3000"); ("stop", "5000")] "peer" /\
   Get [("peer", "7"); ("start", "5000"); ("stop", "3000")] "max" =
     Get [("peer", "7"); ("start", "3000"); ("stop", "5000")] "max" /\
   Get [("peer", "7"); ("start", "5000"); ("stop", "3000")] "start" =
     Get [("peer", "7"); ("start", "3000"); ("stop", "5000")] "stop" /\
   Get [("peer", "7"); ("start", "5000"); ("stop", "3000")] "stop" =
     Get [("peer", "7"); ("start", "3000"); ("stop", "5000")] "start" /\
   optional parse_int (Get [("peer", "7"); ("start", "5000"); ("stop", "3000")] "start") (-1) = Some 5000 /\
   optional parse_int (Get [("peer", "7"); ("start", "5000"); ("stop", "3000")] "stop") (-1) = Some 3000) /\
  dataHandler [] 1000 example_rows [("peer", "7"); ("start", "5000"); ("stop", "3000")] =
  dataHandler [] 1000 example_rows [("peer", "7"); ("start", "3000"); ("stop", "5000")].
Proof.
  split; [repeat split; reflexivity|].
  apply (dataHandler_reversed_range [] 1000 example_rows _ _ 5000 3000); (reflexivity || lia).
Defined.

Lemma dataHandler_bad_request_witness :
  dataHandler [] 1000 example_rows [("peer", "7"); ("max", "ten")] = Some BadRequest.
Proof.
  apply (proj2 (dataHandler_bad_request [] 1000 example_rows [("peer", "7"); ("max", "ten")])).
  right. right. right. split; [done | vm_compute; congruence].
Defined.

(** Three probes of peer 7, the second unanswered. *)
Definition example_probes : list Query :=
  [mkQuery 7 12 1000; mkQuery 7 (-1) 2000; mkQuery 7 14 3000].

Lemma statsHandler_reversed_range_witness :
  (parse_stats [("peer", "7"); ("start", "5000"); ("stop", "3000")] = Some (mkStatsParams 7 5000 3000) /\
   0 < sp_stop (mkStatsParams 7 5000 3000) < sp_start (mkStatsParams 7 5000 3000)) /\
  statsHandler example_probes [("peer", "7"); ("start", "5000"); ("stop", "3000")] = Stats 0 0 0.
Proof.
  assert (parse_stats [("peer", "7"); ("start", "5000"); ("stop", "3000")] = Some (mkStatsParams 7 5000 3000))
    as H by reflexivity.
  split; [split; [exact H | simpl; lia]|].
  exact (statsHandler_reversed_range example_probes _ _ H ltac:(simpl; lia)).
Defined.

Lemma statsHandler_uptime_witness :
  (parse_stats [("peer", "7")] = Some (mkStatsParams 7 (-1) (-1)) /\
   statsHandler example_probes [("peer", "7")] = Stats 26 2 66) /\
  let sel := stats_rows example_probes (mkStatsParams 7 (-1) (-1)) in
  2 = Z.of_nat (length (filter (fun q => 0 < q_ResponseTime q) sel)) /\ 0 <= 66 <= 100 /\
  (sel <> [] -> 66 * Z.of_nat (length sel) <= 100 * 2 < (66 + 1) * Z.of_nat (length sel)).
Proof.
  assert (parse_stats [("peer", "7")] = Some (mkStatsParams 7 (-1) (-1))) as H1 by reflexivity.
  assert (statsHandler example_probes [("peer", "7")] = Stats 26 2 66) as H2 by (vm_compute; reflexivity).
  split; [split; [exact H1 | exact H2]|].
  exact (statsHandler_uptime example_probes _ _ _ _ _ H1 H2).
Defined.

Lemma statsHandler_zero_start_witness :
  (parse_stats [("peer", "7"); ("start", "0"); ("stop", "2500")] = Some (mkStatsParams 7 0 2500) /\
   sp_start (mkStatsParams 7 0 2500) = 0) /\
  stats_rows example_probes (mkStatsParams 7 0 2500) =
    filter (fun q => q_PeerID q = sp_peer (mkStatsParams 7 0 2500)) example_probes.
Proof.
  assert (parse_stats [("peer", "7"); ("start", "0"); ("stop", "2500")] = Some (mkStatsParams 7 0 2500))
    as H by reflexivity.
  split; [split; [exact H | reflexivity]|].
  exact (statsHandler_zero_start example_probes _ _ H eq_refl).
Defined.

End Handlers.
