(* ===== verification/Live.v ===== *)
(** * Live: [liveDataHandler] of [src/icmpmon.go] (lines 266-309)

    One WebSocket client.  The handler subscribes to [queryChannel]
    ([Add]: a ring of 100 samples in the shared store, of which it keeps
    the handle) and starts a reader goroutine that receives one message
    from the client and puts into the one-place channel [offset] either
    the error or [binary.BigEndian.Uint32] of the message.  Its loop
    then selects among three arms: the quit notification (close the
    socket, acknowledge, and [break], which leaves only the [select]);
    the [offset] value (return on an error, otherwise take it as the
    [peerID] to follow); a sample from its ring (send it when it belongs
    to [peerID]; return when the send fails).

    [LState] holds the shared [QueryChannel] store and the handler's
    state; [live_exec] runs one event: a [Push] by the collector, the
    reader goroutine's completion, or one arm of the loop.  Like
    [System.exec] it reports the samples the handler's full ring
    discards.  The quit arm is enabled here whenever the handler runs;
    when the signal arrives is the [Shutdown] protocol's business. *)

From S2P Require Import Prelude Data Ring Broadcast System.
From stdpp Require Import options.

Local Open Scope Z_scope.

Module Live.

(** [uint32(x)]: Go's conversion, modulo 2^32. *)
Definition uint32 (x : Z) : Z := x mod 2 ^ 32.

(** [binary.BigEndian.Uint32(b)]: [_ = b[3]] panics ([None]) when [b]
    has fewer than 4 bytes; the shifts are [uint32] operations. *)
Definition BigEndian_Uint32 (b : list Z) : option Z :=
  match b with
  | b0 :: b1 :: b2 :: b3 :: _ =>
      Some (Z.lor (Z.lor (Z.lor (uint32 b3) (uint32 (Z.shiftl (uint32 b2) 8)))
                         (uint32 (Z.shiftl (uint32 b1) 16)))
                  (uint32 (Z.shiftl (uint32 b0) 24)))
  | _ => None
  end.

(** The value put into [offset]: [st{PeerID: 0, Err: err}] or
    [st{PeerID: ..., Err: nil}]. *)
Inductive offset_msg := OffsetErr | OffsetID (id : Z).

(** The reader goroutine (lines 277-285), given the outcome of
    [websocket.Message.Receive] ([None]: an error).  [None] as result:
    the goroutine panics, which ends the process. *)
Definition reader (recv : option (list Z)) : option offset_msg :=
  match recv with
  | None => Some OffsetErr
  | Some bytes => OffsetID <$> BigEndian_Uint32 bytes
  end.

Inductive Status := Serving | Returned | Crashed.

Record Handler := mkH {
  h_ring : nat;              (** the handle [queryChannel.Add()] returned *)
  reader_done : bool;        (** the reader goroutine has finished *)
  offset : list offset_msg;  (** [make(chan st, 1)] *)
  peerID : Z;                (** [var peerID int64 = 0] *)
  sent : list Query;         (** the samples [websocket.JSON.Send] sent *)
  closed : bool;             (** [ws.Close()] was called *)
  acks : nat;                (** [quitChannel <- true] executed *)
  status : Status
}.

Record LState := mkL { qc : QueryChannel.t; hd : Handler }.

Inductive LiveEvent :=
| Publish (q : Query)                   (** [queryChannel.Push(q)] by the collector *)
| ReaderDone (recv : option (list Z))   (** the reader goroutine completes *)
| ArmQuit                               (** [case <-quitChannel] *)
| ArmOffset                             (** [case v := <-offset] *)
| ArmQuery (send_ok : bool).            (** [case query := <-queryChannel.Out()] *)

(** The handler's start: [queryChannel.Add()] on the shared store. *)
Definition start (store : QueryChannel.t) : LState :=
  let '(store', h) := QueryChannel.Add store in
  mkL store' (mkH h false [] 0 [] false 0 Serving).

Definition set_status (st : Status) (h : Handler) : Handler :=
  mkH (h_ring h) (reader_done h) (offset h) (peerID h) (sent h) (closed h) (acks h) st.

(** The loop's arms, on a running handler. *)
Definition arm (e : LiveEvent) (s : LState) : option LState :=
  let h := hd s in
  match e with
  | Publish _ => None
  | ReaderDone recv =>
      if reader_done h then None else
      match reader recv with
      | None => Some (mkL (qc s) (set_status Crashed h))
      | Some m => Some (mkL (qc s) (mkH (h_ring h) true [m] (peerID h) (sent h) (closed h)
                                         (acks h) Serving))
      end
  | ArmQuit =>
      Some (mkL (qc s) (mkH (h_ring h) (reader_done h) (offset h) (peerID h) (sent h) true
                            (S (acks h)) Serving))
  | ArmOffset =>
      match offset h with
      | [] => None
      | OffsetErr :: _ =>
          Some (mkL (qc s) (mkH (h_ring h) (reader_done h) [] (peerID h) (sent h) (closed h)
                                (acks h) Returned))
      | OffsetID id :: _ =>
          Some (mkL (qc s) (mkH (h_ring h) (reader_done h) [] id (sent h) (closed h)
                                (acks h) Serving))
      end
  | ArmQuery ok =>
      match QueryChannel.Out (h_ring h) (qc s) with
      | None => None
      | Some (q, store) =>
          if decide (q_PeerID q = peerID h) then
            if ok && negb (closed h)
            then Some (mkL store (mkH (h_ring h) (reader_done h) (offset h) (peerID h)
                                      (sent h ++ [q]) (closed h) (acks h) Serving))
            else Some (mkL store (set_status Returned h))
          else Some (mkL store h)
      end
  end.

(** The handler's ring in the store. *)
Definition ring_of (s : LState) : option (Ring.t Query) :=
  QueryChannel.channels (qc s) !! h_ring (hd s).

(** One event.  The collector publishes as long as the process lives;
    the arms need a running handler.  The report lists the samples the
    handler's ring discards. *)
Definition live_exec (e : LiveEvent) (s : LState) : option (LState * list Query) :=
  match status (hd s), e with
  | Crashed, _ => None
  | _, Publish q =>
      Some (mkL (QueryChannel.Push q (qc s)) (hd s),
            from_option (fun r => option_list (System.evicted q r)) [] (ring_of s))
  | Serving, _ => (fun s' => (s', [])) <$> arm e s
  | Returned, _ => None
  end.

Fixpoint live_run (evs : list LiveEvent) (s : LState) : option (LState * list Query) :=
  match evs with
  | [] => Some (s, [])
  | e :: evs' =>
      match live_exec e s with
      | None => None
      | Some (s1, l1) =>
          match live_run evs' s1 with
          | None => None
          | Some (s2, l2) => Some (s2, l1 ++ l2)
          end
      end
  end.

(** ** The reader goroutine *)

Lemma crashed_stuck e s : status (hd s) = Crashed -> live_exec e s = None.
Proof. unfold live_exec. by intros ->. Qed.

(** C10. A client whose first WebSocket message has fewer than 4 bytes
    brings the whole monitor down: [binary.BigEndian.Uint32] panics in
    the reader goroutine, where no [recover] applies, and with exactly
    those messages.  After it no event runs, not even the collector's
    [Push]. *)
Theorem live_short_message_crashes s bytes :
  status (hd s) = Serving -> reader_done (hd s) = false ->
  ((length bytes < 4)%nat <->
   exists s', live_exec (ReaderDone (Some bytes)) s = Some (s', []) /\
              forall e, live_exec e s' = None).
Proof.
  intros Hs Hr.
  assert (live_exec (ReaderDone (Some bytes)) s =
          (fun s' => (s', [])) <$> arm (ReaderDone (Some bytes)) s) as ->
    by (unfold live_exec; by rewrite Hs).
  unfold arm. rewrite Hr.
  destruct bytes as [|b0 [|b1 [|b2 [|b3 rest]]]]; simpl;
    [.. | split; [lia | intros (s' & [= <-] & Hnone); by specialize (Hnone ArmQuit)]];
    (split; [intros _; eexists; split; [reflexivity | intros e; by apply crashed_stuck] | lia]).
Qed.

(** ** Peer ids *)

Lemma uint32_range x : 0 <= uint32 x < 2 ^ 32.
Proof. unfold uint32. apply Z.mod_pos_bound. lia. Qed.

Lemma lor_range a b : 0 <= a < 2 ^ 32 -> 0 <= b < 2 ^ 32 -> 0 <= Z.lor a b < 2 ^ 32.
Proof.
  intros Ha Hb. split; [apply Z.lor_nonneg; lia|].
  destruct (Z.eq_dec (Z.lor a b) 0) as [->|Hnz]; [lia|].
  apply Z.log2_lt_pow2; [pose proof (Z.lor_nonneg a b); lia|].
  rewrite Z.log2_lor by lia. apply Z.max_lub_lt.
  - destruct (Z.eq_dec a 0) as [->|]; [done|]. apply Z.log2_lt_pow2; lia.
  - destruct (Z.eq_dec b 0) as [->|]; [done|]. apply Z.log2_lt_pow2; lia.
Qed.

#[export] Hint Resolve uint32_range lor_range : icmpmon.

Lemma BigEndian_Uint32_range b v : BigEndian_Uint32 b = Some v -> 0 <= v < 2 ^ 32.
Proof.
  destruct b as [|b0 [|b1 [|b2 [|b3 rest]]]]; intros; simplify_eq/=.
  auto 6 with icmpmon.
Qed.

Definition id_ok (m : offset_msg) : Prop := if m is OffsetID id then 0 <= id < 2 ^ 32 else True.

(** The handler only ever follows, and sends, ids of [uint32] range. *)
Definition ids_inv (s : LState) : Prop :=
  0 <= peerID (hd s) < 2 ^ 32 /\ Forall id_ok (offset (hd s)) /\
  Forall (fun q => 0 <= q_PeerID q < 2 ^ 32) (sent (hd s)).

Lemma exec_ids_inv e s s' l : ids_inv s -> live_exec e s = Some (s', l) -> ids_inv s'.
Proof.
  destruct s as [store [hr rd off p snt cl ak st]]. unfold ids_inv, live_exec. simpl.
  intros (Hp & Hoff & Hsnt) H.
  destruct st; [|destruct e; simplify_eq/=; done..].
  destruct e as [q|recv| | |ok]; simpl in H.
  - by simplify_eq/=.
  - destruct rd; [done|]. destruct (reader recv) as [m|] eqn:Hm; simplify_eq/=; [|done].
    split; [done|split; [|done]]. constructor; [|done].
    destruct recv as [b|]; simpl in Hm; [|by simplify_eq].
    destruct (BigEndian_Uint32 b) eqn:Hb; simplify_eq/=. by apply BigEndian_Uint32_range in Hb.
  - by simplify_eq/=.
  - destruct off as [|[|id] off']; simplify_eq/=; [done|]. by inversion Hoff.
  - destruct (QueryChannel.Out hr store) as [[q store']|]; [|done].
    case_decide as Hq; [destruct (ok && negb cl)|]; simplify_eq/=; [|done..].
    split; [done|]. split; [done|]. apply Forall_app. split; [done|]. by constructor.
Qed.

(** C12. Live samples of a peer whose id is negative or at least 2^32
    never reach a client: the subscription message is decoded as a
    [uint32], so over any run of a handler from its start, the id it
    follows and the id of every sample it sends are in [0, 2^32), while
    [ReadConfig] accepts any [int] as a peer's [ID]. *)
Theorem live_sends_uint32_ids store evs s lost :
  live_run evs (start store) = Some (s, lost) ->
  0 <= peerID (hd s) < 2 ^ 32 /\ Forall (fun q => 0 <= q_PeerID q < 2 ^ 32) (sent (hd s)).
Proof.
  cut (forall s0, ids_inv s0 -> forall s l, live_run evs s0 = Some (s, l) -> ids_inv s).
  { intros Hgen Hrun. destruct (Hgen (start store)) with s lost as (Hp & _ & Hs); [|done|done].
    unfold start, ids_inv. destruct (QueryChannel.Add store). simpl. split_and!; [lia | lia | done..]. }
  induction evs as [|e evs IH]; intros s0 Hs0 s' l Hrun; simpl in Hrun; [by simplify_eq|].
  destruct (live_exec e s0) as [[s1 l1]|] eqn:He; [|done].
  destruct (live_run evs s1) as [[s2 l2]|] eqn:Hr; [|done]. simplify_eq.
  eapply IH; [|done]. by eapply exec_ids_inv.
Qed.

(** ** Forwarding *)

(** The events of a subscribed client's steady state: the collector
    publishes, the handler takes a sample and its send succeeds. *)
Definition steady (e : LiveEvent) : Prop :=
  match e with Publish _ | ArmQuery true => True | _ => False end.

Definition published (evs : list LiveEvent) : list Query :=
  flat_map (fun e => if e is Publish q then [q] else []) evs.

(** A running handler following [p] on an open socket. *)
Definition following (p : Z) (s : LState) : Prop :=
  status (hd s) = Serving /\ closed (hd s) = false /\ peerID (hd s) = p.

Definition of_peer (p : Z) : list Query -> list Query := filter (fun q => q_PeerID q = p).

Lemma ring_of_Push q s : ring_of (mkL (QueryChannel.Push q (qc s)) (hd s)) = Ring.push q <$> ring_of s.
Proof. apply QueryChannel.Push_lookup. Qed.

Lemma Out_ring_of s r q store :
  ring_of s = Some r -> QueryChannel.Out (h_ring (hd s)) (qc s) = Some (q, store) ->
  exists r', Ring.buf r = q :: Ring.buf r' /\ QueryChannel.channels store !! h_ring (hd s) = Some r'.
Proof.
  unfold ring_of, QueryChannel.Out. intros Hr. rewrite Hr. simpl.
  unfold Ring.pop. destruct (Ring.buf r) as [|x b] eqn:Hb; [done|]. intros; simplify_eq/=.
  exists (Ring.mk (Ring.cap r) b). split; [done|]. apply list_lookup_insert_eq. by eapply lookup_lt_Some.
Qed.

Lemma exec_forwards p e s s' l r :
  steady e -> following p s -> ring_of s = Some r -> live_exec e s = Some (s', l) ->
  exists r', ring_of s' = Some r' /\ following p s' /\
    sent (hd s') ++ of_peer p (Ring.buf r') `sublist_of` sent (hd s) ++ of_peer p (Ring.buf r ++ published [e]) /\
    sent (hd s') ++ of_peer p (Ring.buf r') ++ of_peer p l ≡ₚ
      sent (hd s) ++ of_peer p (Ring.buf r ++ published [e]).
Proof.
  intros He (Hs & Hc & Hp) Hr H. unfold live_exec in H. rewrite Hs in H.
  destruct e as [q| | | |[]]; try contradiction; simpl in H.
  - simplify_eq/=. rewrite ring_of_Push, Hr. eexists. split; [done|].
    split; [done|]. unfold of_peer. cbn [from_option].
    rewrite <- (System.push_evicted q r), list.filter_app. split.
    + apply sublist_app; [done|]. by apply sublist_inserts_l.
    + apply Permutation_app_head. apply Permutation_app_comm.
  - destruct (QueryChannel.Out _ _) as [[q store]|] eqn:Ho; [|done].
    destruct (Out_ring_of _ _ _ _ Hr Ho) as (r' & Hb & Hr').
    exists r'. simpl. rewrite app_nil_r, Hb. unfold of_peer.
    rewrite Hc in H. case_decide as Hq; simplify_eq/=.
    + rewrite filter_cons_True by done. split; [exact Hr'|]. split; [by repeat split|].
      rewrite <- !app_assoc. simpl. split; [done|]. by rewrite ?filter_nil, ?app_nil_r.
    + rewrite filter_cons_False by done. split; [exact Hr'|]. split; [by repeat split|].
      split; [done|]. by rewrite ?filter_nil, ?app_nil_r.
Qed.

Lemma of_peer_app p l1 l2 : of_peer p (l1 ++ l2) = of_peer p l1 ++ of_peer p l2.
Proof. apply list.filter_app. Qed.

Lemma published_cons e evs : published (e :: evs) = published [e] ++ published evs.
Proof. by destruct e; simpl; rewrite ?app_nil_r. Qed.

(** C11. A client following peer [p] gets that peer's samples in the
    order they were published, never twice and never another peer's,
    and misses exactly those its full ring discarded: over any run of
    publications and successful sends, what it has been sent followed
    by the [p]-samples its ring holds is a subsequence of what it had
    been sent followed by the [p]-samples its ring held and those
    published since, and adding the discarded [p]-samples makes the two
    equal up to order. *)
Theorem live_forwards_in_order p evs s s' lost r :
  Forall steady evs -> following p s -> ring_of s = Some r ->
  live_run evs s = Some (s', lost) ->
  exists r', ring_of s' = Some r' /\ following p s' /\
    sent (hd s') ++ of_peer p (Ring.buf r') `sublist_of`
      sent (hd s) ++ of_peer p (Ring.buf r ++ published evs) /\
    sent (hd s') ++ of_peer p (Ring.buf r') ++ of_peer p lost ≡ₚ
      sent (hd s) ++ of_peer p (Ring.buf r ++ published evs).
Proof.
  revert s lost r. induction evs as [|e evs IH]; intros s lost r Hevs Hs Hr Hrun; simpl in Hrun.
  - simplify_eq/=. exists r. rewrite of_peer_app. simpl. rewrite !app_nil_r. done.
  - inversion Hevs as [|? ? He Hrest]; subst.
    destruct (live_exec e s) as [[s1 l1]|] eqn:Hx; [|done].
    destruct (live_run evs s1) as [[s2 l2]|] eqn:Hy; [|done]. simplify_eq.
    destruct (exec_forwards p e s s1 l1 r He Hs Hr Hx) as (r1 & Hr1 & Hs1 & Hsub1 & Hperm1).
    destruct (IH s1 l2 r1 Hrest Hs1 Hr1 Hy) as (r2 & Hr2 & Hs2 & Hsub2 & Hperm2).
    exists r2. split; [done|]. split; [done|].
    rewrite published_cons. rewrite !of_peer_app in *. split.
    + etrans; [exact Hsub2|]. rewrite !app_assoc. apply sublist_app; [|done].
      rewrite <- !app_assoc. exact Hsub1.
    + transitivity ((sent (hd s') ++ of_peer p (Ring.buf r2) ++ of_peer p l2) ++ of_peer p l1);
        [solve_Permutation|].
      rewrite Hperm2.
      transitivity ((sent (hd s1) ++ of_peer p (Ring.buf r1) ++ of_peer p l1) ++ of_peer p (published evs));
        [solve_Permutation|].
      rewrite Hperm1. by rewrite <- !app_assoc.
Qed.

(** ** Concrete clients *)

(** A client that just connected, alone on the store. *)
Definition fresh_client : LState := start QueryChannel.NewQueryChannel.

Lemma live_short_message_crashes_witness :
  status (hd fresh_client) = Serving /\ reader_done (hd fresh_client) = false /\
  exists s', live_exec (ReaderDone (Some [7])) fresh_client = Some (s', []) /\
             forall e, live_exec e s' = None.
Proof.
  assert (status (hd fresh_client) = Serving) as H1 by reflexivity.
  assert (reader_done (hd fresh_client) = false) as H2 by reflexivity.
  split; [exact H1|]. split; [exact H2|].
  apply (live_short_message_crashes fresh_client [7] H1 H2). simpl. lia.
Defined.

(** The client subscribes to peer 7 with the bytes 0 0 0 7, then gets a
    sample of peer 7 and skips one of peer 8. *)
Definition subscribe7 : list LiveEvent :=
  [ReaderDone (Some [0; 0; 0; 7]); ArmOffset;
   Publish (mkQuery 7 12 1000); Publish (mkQuery 8 3 1000); ArmQuery true; ArmQuery true].

Lemma live_sends_uint32_ids_witness :
  exists s lost, live_run subscribe7 fresh_client = Some (s, lost) /\
    sent (hd s) = [mkQuery 7 12 1000] /\
    0 <= peerID (hd s) < 2 ^ 32 /\ Forall (fun q => 0 <= q_PeerID q < 2 ^ 32) (sent (hd s)).
Proof.
  do 2 eexists. assert (live_run subscribe7 fresh_client = Some (_, _)) as H
    by (vm_compute; reflexivity).
  split; [exact H|]. split; [reflexivity|].
  exact (live_sends_uint32_ids _ _ _ _ H).
Defined.

(** A client following peer 7 with an empty ring of 100. *)
Definition following7 : LState :=
  mkL (QueryChannel.mk [Ring.mk 100 []]) (mkH 0 true [] 7 [] false 0 Serving).

Definition steady7 : list LiveEvent :=
  [Publish (mkQuery 7 12 1000); Publish (mkQuery 8 3 1000); ArmQuery true;
   Publish (mkQuery 7 14 2000); ArmQuery true; ArmQuery true].

Lemma live_forwards_in_order_witness :
  Forall steady steady7 /\ following 7 following7 /\ ring_of following7 = Some (Ring.mk 100 []) /\
  exists s' lost r', live_run steady7 following7 = Some (s', lost) /\
    sent (hd s') = [mkQuery 7 12 1000; mkQuery 7 14 2000] /\
    ring_of s' = Some r' /\ following 7 s' /\
    sent (hd s') ++ of_peer 7 (Ring.buf r') `sublist_of`
      sent (hd following7) ++ of_peer 7 (Ring.buf (Ring.mk 100 []) ++ published steady7) /\
    sent (hd s') ++ of_peer 7 (Ring.buf r') ++ of_peer 7 lost ≡ₚ
      sent (hd following7) ++ of_peer 7 (Ring.buf (Ring.mk 100 []) ++ published steady7).
Proof.
  assert (Forall steady steady7) as H1 by (repeat constructor).
  assert (following 7 following7) as H2 by (repeat split).
  assert (ring_of following7 = Some (Ring.mk 100 [])) as H3 by reflexivity.
  split; [exact H1|]. split; [exact H2|]. split; [exact H3|].
  assert (live_run steady7 following7 = Some (_, _)) as H by (vm_compute; reflexivity).
  destruct (live_forwards_in_order 7 _ _ _ _ _ H1 H2 H3 H) as (r' & Hr' & Hrest).
  do 3 eexists. split; [exact H|]. split; [reflexivity|]. split; [exact Hr'|]. exact Hrest.
Defined.

End Live.
