(* ===== verification/Main.v ===== *)
(** * Main: [main]'s startup decisions and [assetHandler]

    [src/icmpmon.go] lines 572-611: the flags [init] declares, the
    version and usage exits, [ReadConfig] and the check that the
    configuration has peers.  The process outcome is an exit status or
    the start of the monitor with the configuration read.  The file
    read and HJSON decoding ([ioutil.ReadFile], [hjson.Unmarshal]) are
    the [loaded] argument: [None] stands for either error.

    Lines 516-535: [assetHandler] strips every leading [/] of the URL
    path, serves [index.html] for an empty one, and answers 404 when
    [Asset] (generated bindata, not in the repository) has no such
    file.  [Asset] and [mime.TypeByExtension(path.Ext(_))] are section
    parameters.

    Lines 608-626: [NewDB] and the two [icmp.ListenPacket] calls, each
    ending the process through [log.Fatal] when it fails
    ([main_open]).  Lines 543-552: [webServer]'s route table, with
    [http.ServeMux]'s rules modelled from its documentation: a pattern
    registered twice panics ([register]), and a path goes to its
    longest matching pattern, a pattern ending in a slash matching the
    paths below it ([dispatch]). *)

From S2P Require Import Prelude Data Config.
From Stdlib Require Import Ascii.
From stdpp Require Import strings.
From stdpp Require Import options.

Local Open Scope Z_scope.

Module Main.
Import Config.

Inductive outcome :=
| Exit (code : Z)            (** [os.Exit(code)] *)
| Start (cfg : Config).      (** the monitor starts with [config = cfg] *)

(** [flag.Arg(0) == s], false when there is no argument. *)
Definition first_arg_is (args : list string) (s : string) : bool :=
  match args with a :: _ => String.eqb a s | [] => false end.

Section Startup.
Context (FormatFloat32 FormatFloat64 : Z -> positive -> string) (ParseIP : string -> option IP).

(** Lines 579-606, after [flag.Parse()]: [configFile] (default
    [config.hjson] for [-config] and [-c]), [-help], [-version] and
    the positional arguments. *)
Definition main_start (configFile : string) (showHelp showVersion : bool) (args : list string)
    (loaded : option (list (string * value))) : outcome :=
  if showVersion || first_arg_is args "version" then Exit 0
  else if (String.length configFile <=? 0)%nat || showHelp || first_arg_is args "help" then
    if (String.length configFile <=? 0)%nat then Exit 1 else Exit 0
  else
    match loaded with
    | None => Exit 1
    | Some dat =>
        let '(cfg, err) := ReadConfig FormatFloat32 FormatFloat64 ParseIP dat in
        match err with
        | Some _ => Exit 1
        | None => if Peers cfg is [] then Exit 1 else Start cfg
        end
    end.

(** The monitor starts exactly when no flag or argument asks for the
    version or the usage, the configuration file name is not empty,
    the file is read and decoded, [ReadConfig] returns no error, and
    the configuration has a peer; it starts with what [ReadConfig]
    built. *)
Lemma main_start_spec configFile showHelp showVersion args loaded cfg :
  main_start configFile showHelp showVersion args loaded = Start cfg <->
  showVersion = false /\ first_arg_is args "version" = false /\
  configFile <> ""%string /\ showHelp = false /\ first_arg_is args "help" = false /\
  exists dat, loaded = Some dat /\
    ReadConfig FormatFloat32 FormatFloat64 ParseIP dat = (cfg, None) /\ Peers cfg <> [].
Proof.
  unfold main_start.
  destruct showVersion, (first_arg_is args "version"); simpl; [naive_solver..|].
  destruct configFile as [|c cs]; simpl; [naive_solver|].
  destruct showHelp, (first_arg_is args "help"); simpl; [naive_solver..|].
  destruct loaded as [dat|]; [|naive_solver].
  destruct (ReadConfig _ _ _ dat) as [cfg' [e|]] eqn:Hr.
  - split; [done|]. intros (_ & _ & _ & _ & _ & dat' & [= <-] & Hr' & _). congruence.
  - destruct (Peers cfg') as [|p ps] eqn:Hp.
    + split; [done|]. intros (_ & _ & _ & _ & _ & dat' & [= <-] & Hr' & Hne). congruence.
    + split.
      * intros [= <-]. split_and!; try done. exists dat. by rewrite Hp.
      * intros (_ & _ & _ & _ & _ & dat' & [= <-] & Hr' & _). congruence.
Qed.

(** [main] exits with status 0 exactly on a version request, or on a
    usage request with a non-empty configuration file name. *)
Lemma main_exit_0 configFile showHelp showVersion args loaded :
  main_start configFile showHelp showVersion args loaded = Exit 0 <->
  (showVersion = true \/ first_arg_is args "version" = true) \/
  (configFile <> ""%string /\ (showHelp = true \/ first_arg_is args "help" = true)).
Proof.
  unfold main_start.
  destruct showVersion, (first_arg_is args "version"); simpl; [naive_solver..|].
  destruct configFile as [|c cs]; simpl; [naive_solver|].
  destruct showHelp, (first_arg_is args "help"); simpl; [naive_solver..|].
  split; [|naive_solver].
  destruct loaded as [dat|]; [|done].
  destruct (ReadConfig _ _ _ dat) as [cfg' [e|]]; [done|]. by destruct (Peers cfg').
Qed.

End Startup.

(** Lines 608-626, once the configuration is read: [NewDB] and the two
    [icmp.ListenPacket] calls, each of which ends the process through
    [log.Fatal] (exit status 1) when it fails.  Whether each succeeded
    is an argument: opening a file or a socket is I/O. *)
Definition main_open (configured : outcome) (db_ok listen4_ok listen6_ok : bool) : outcome :=
  match configured with
  | Exit code => Exit code
  | Start cfg =>
      if negb db_ok then Exit 1
      else if negb listen4_ok then Exit 1
      else if negb listen6_ok then Exit 1
      else Start cfg
  end.


(** ** Static assets *)

(** [strings.HasPrefix(file, "/")]. *)
Definition has_slash_prefix (file : string) : bool :=
  match file with String c _ => Ascii.eqb c "/"%char | EmptyString => false end.

(** [for strings.HasPrefix(file, "/") { file = file[1:] }]. *)
Fixpoint strip_slashes (file : string) : string :=
  match file with
  | String c rest => if Ascii.eqb c "/"%char then strip_slashes rest else file
  | EmptyString => file
  end.

(** Lines 518-525: the asset name served for a URL path. *)
Definition asset_file (urlPath : string) : string :=
  let file := strip_slashes urlPath in
  if (String.length file =? 0)%nat || String.eqb file "" then "index.html"%string else file.

Inductive http_response :=
| NotFound                                     (** [w.WriteHeader(404)] *)
| Ok (content_type : string) (body : list Z).  (** 200, the asset's bytes *)

Section Assets.
Context (Asset : string -> option (list Z)) (TypeByExtension : string -> string).

Definition assetHandler (urlPath : string) : http_response :=
  let file := asset_file urlPath in
  match Asset file with
  | None => NotFound
  | Some bytes => Ok (TypeByExtension file) bytes
  end.

End Assets.

(** The loop ends with a name that does not start with a slash, and
    running it again changes nothing. *)
Lemma strip_slashes_head file : has_slash_prefix (strip_slashes file) = false.
Proof.
  induction file as [|c rest IH]; [done|]. simpl.
  destruct (Ascii.eqb c "/"%char) eqn:Hc; [done|]. simpl. by rewrite Hc.
Qed.

Lemma strip_slashes_idem file : strip_slashes (strip_slashes file) = strip_slashes file.
Proof.
  pose proof (strip_slashes_head file) as H.
  destruct (strip_slashes file) as [|c rest]; [done|]. simpl in *. by rewrite H.
Qed.

(** Every URL path names a non-empty asset that does not start with a
    slash: [/], [//] and the empty path all serve [index.html], and
    [/a/b] serves [a/b]. *)
Lemma asset_file_spec urlPath :
  asset_file urlPath <> ""%string /\ has_slash_prefix (asset_file urlPath) = false /\
  (strip_slashes urlPath = ""%string -> asset_file urlPath = "index.html"%string) /\
  (strip_slashes urlPath <> ""%string -> asset_file urlPath = strip_slashes urlPath).
Proof.
  unfold asset_file. pose proof (strip_slashes_head urlPath) as H.
  destruct (strip_slashes urlPath) as [|c rest]; simpl; [done|]. by split_and!.
Qed.

(** ** [webServer]'s routes *)

(** The handlers [webServer] registers (lines 543-552). *)
Inductive Handler := HAsset | HData | HStats | HPeers | HLive.

(** Lines 542-552: ["/"] and ["/" + a] for every asset name go to
    [assetHandler], then the four API paths, in registration order. *)
Definition webServer_patterns (assetNames : list string) : list (string * Handler) :=
  ("/", HAsset) :: map (fun a => (("/" ++ a)%string, HAsset)) assetNames ++
  [("/data", HData); ("/stats", HStats); ("/peers", HPeers); ("/livedata", HLive)].

(** [http.ServeMux.HandleFunc]: registering a pattern twice panics
    ([None]). *)
Fixpoint register (mux : list (string * Handler)) (ps : list (string * Handler))
    : option (list (string * Handler)) :=
  match ps with
  | [] => Some mux
  | (p, h) :: ps' =>
      if existsb (fun ph => String.eqb ph.1 p) mux then None else register (mux ++ [(p, h)]) ps'
  end.

(** A pattern ending in a slash names a subtree. *)
Definition is_subtree (p : string) : bool :=
  match String.get (String.length p - 1) p with Some c => Ascii.eqb c "/"%char | None => false end.

Definition pattern_matches (p path : string) : bool :=
  String.eqb p path || (is_subtree p && String.prefix p path).

(** [ServeMux]'s choice for a clean path: the longest matching pattern. *)
Fixpoint dispatch (mux : list (string * Handler)) (path : string) : option (string * Handler) :=
  match mux with
  | [] => None
  | (p, h) :: mux' =>
      let best := dispatch mux' path in
      if pattern_matches p path then
        match best with
        | Some (q, _) => if (String.length p <? String.length q)%nat then best else Some (p, h)
        | None => Some (p, h)
        end
      else best
  end.

(** [main] goes on to start the monitor exactly when the database and
    both sockets open. *)
Lemma main_open_start configured db_ok listen4_ok listen6_ok cfg :
  main_open configured db_ok listen4_ok listen6_ok = Start cfg <->
  configured = Start cfg /\ db_ok = true /\ listen4_ok = true /\ listen6_ok = true.
Proof.
  unfold main_open. destruct configured; [naive_solver|].
  destruct db_ok, listen4_ok, listen6_ok; naive_solver.
Qed.

(** Registration succeeds exactly when no pattern is registered twice. *)
Lemma register_spec mux ps :
  NoDup (map fst mux) ->
  register mux ps = if decide (NoDup (map fst (mux ++ ps))) then Some (mux ++ ps) else None.
Proof.
  revert mux. induction ps as [|[p h] ps IH]; intros mux Hmux; simpl.
  { rewrite app_nil_r, decide_True by done. done. }
  destruct (existsb (fun ph => String.eqb ph.1 p) mux) eqn:Hex.
  - apply existsb_exists in Hex as ([q g] & Hin & Hq). apply String.eqb_eq in Hq. simpl in Hq. subst q.
    rewrite decide_False; [done|]. rewrite map_app. simpl. intros Hnd.
    apply NoDup_app in Hnd as (_ & Hdis & _). apply (Hdis p); [|by left].
    apply list_elem_of_In, in_map_iff. by exists (p, g).
  - assert (NoDup (map fst (mux ++ [(p, h)]))) as Hmux'.
    { rewrite map_app. apply NoDup_app. split_and!; [done| |apply NoDup_singleton].
      intros x Hx Hx'. apply list_elem_of_singleton in Hx'. subst x.
      apply list_elem_of_In, in_map_iff in Hx as ([q g] & Hq & Hin). simpl in Hq. subst q.
      assert (existsb (fun ph => String.eqb ph.1 p) mux = true) as Ht
        by (apply existsb_exists; exists (p, g); split; [done|apply String.eqb_refl]).
      congruence. }
    rewrite (IH _ Hmux'), <- app_assoc. done.
Qed.

Lemma prefix_length p s :
  String.prefix p s = true -> (String.length p <= String.length s)%nat /\
    (String.length p = String.length s -> p = s).
Proof.
  revert s. induction p as [|c p IH]; intros s H.
  - destruct s; simpl; split; [lia|done|lia|done].
  - destruct s as [|d s]; [done|]. simpl in H.
    destruct (Ascii.ascii_dec c d) as [->|]; [|done].
    destruct (IH s H) as [Hle Heq]. simpl. split; [lia|]. intros Hl. f_equal. apply Heq. lia.
Qed.

Lemma pattern_matches_length p path :
  pattern_matches p path = true -> (String.length p <= String.length path)%nat /\
    (String.length p = String.length path -> p = path).
Proof.
  unfold pattern_matches. intros [Heq|Hsub]%orb_true_iff.
  - apply String.eqb_eq in Heq. subst. split; [lia|done].
  - apply andb_true_iff in Hsub as [_ Hp]. by apply prefix_length.
Qed.

Lemma dispatch_sound mux path p h :
  dispatch mux path = Some (p, h) -> (p, h) ∈ mux /\ pattern_matches p path = true.
Proof.
  induction mux as [|[q g] mux IH]; [done|]. simpl. intros Hd.
  destruct (pattern_matches q path) eqn:Hm.
  - destruct (dispatch mux path) as [[q' g']|] eqn:Hd'.
    + case_match; simplify_eq.
      * destruct (IH eq_refl). split; [by right|done].
      * split; [by left|done].
    + simplify_eq. split; [by left|done].
  - destruct (IH Hd). split; [by right|done].
Qed.

Lemma dispatch_complete mux path p h :
  (p, h) ∈ mux -> pattern_matches p path = true -> is_Some (dispatch mux path).
Proof.
  induction mux as [|[q g] mux IH]; [by intros ?%elem_of_nil|]. simpl.
  intros [[= -> ->]|Hin]%elem_of_cons Hm.
  - rewrite Hm. repeat case_match; eauto.
  - destruct (IH Hin Hm) as [r Hr]. rewrite Hr. repeat case_match; eauto.
Qed.

(** With distinct patterns, a registered path is served by its own
    pattern. *)
Lemma dispatch_exact mux path h :
  NoDup (map fst mux) -> (path, h) ∈ mux -> dispatch mux path = Some (path, h).
Proof.
  induction mux as [|[q g] mux IH]; [by intros _ ?%elem_of_nil|]. simpl.
  intros Hnd%NoDup_cons Hin. destruct Hnd as [Hq Hnd].
  apply elem_of_cons in Hin as [[= <- <-]|Hin].
  - assert (pattern_matches path path = true) as -> by (unfold pattern_matches; by rewrite String.eqb_refl).
    destruct (dispatch mux path) as [[q' g']|] eqn:Hd; [|done].
    destruct (dispatch_sound _ _ _ _ Hd) as [_ Hm]. apply pattern_matches_length in Hm as [Hle _].
    rewrite (proj2 (Nat.ltb_ge _ _)) by lia. done.
  - rewrite (IH Hnd Hin). destruct (pattern_matches q path) eqn:Hm; [|done].
    apply pattern_matches_length in Hm as [Hle Heq].
    destruct (decide (String.length q = String.length path)) as [Hl|Hl].
    + exfalso. apply Hq. rewrite (Heq Hl). apply list_elem_of_In, in_map_iff.
      exists (path, h). split; [done|by apply list_elem_of_In].
    + rewrite (proj2 (Nat.ltb_lt _ _)) by lia. done.
Qed.

Lemma exact_pattern_matches p path : is_subtree p = false -> pattern_matches p path = String.eqb p path.
Proof. intros H. unfold pattern_matches. by rewrite H, andb_false_l, orb_false_r. Qed.

(** The handler each path is meant for: the four API paths, and the
    assets for everything else. *)
Definition api_handler (path : string) : Handler :=
  if String.eqb path "/data" then HData
  else if String.eqb path "/stats" then HStats
  else if String.eqb path "/peers" then HPeers
  else if String.eqb path "/livedata" then HLive
  else HAsset.

(** When [webServer]'s registrations do not panic, every request path
    goes to the handler it is meant for: exactly [/data], [/stats],
    [/peers] and [/livedata] reach the API handlers (not [/data/] nor
    [/data?x], which is the path [/data]), and every other path,
    registered asset or not, reaches [assetHandler]. *)
Lemma webServer_routes assetNames mux path :
  register [] (webServer_patterns assetNames) = Some mux -> String.prefix "/" path = true ->
  snd <$> dispatch mux path = Some (api_handler path).
Proof.
  intros Hreg Hslash. rewrite register_spec in Hreg by constructor.
  case_decide as Hnd; [|done]. injection Hreg as <-. rewrite app_nil_l in Hnd.
  assert (forall p h, (p, h) ∈ [("/data", HData); ("/stats", HStats); ("/peers", HPeers);
            ("/livedata", HLive)] -> (p, h) ∈ webServer_patterns assetNames) as Happ.
  { intros p h Hin. apply elem_of_cons. right. apply elem_of_app. by right. }
  unfold api_handler.
  destruct (String.eqb path "/data") eqn:E1;
    [apply String.eqb_eq in E1 as ->; by rewrite (dispatch_exact _ _ HData); [..|apply Happ, list_elem_of_In; simpl; tauto]|].
  destruct (String.eqb path "/stats") eqn:E2;
    [apply String.eqb_eq in E2 as ->; by rewrite (dispatch_exact _ _ HStats); [..|apply Happ, list_elem_of_In; simpl; tauto]|].
  destruct (String.eqb path "/peers") eqn:E3;
    [apply String.eqb_eq in E3 as ->; by rewrite (dispatch_exact _ _ HPeers); [..|apply Happ, list_elem_of_In; simpl; tauto]|].
  destruct (String.eqb path "/livedata") eqn:E4;
    [apply String.eqb_eq in E4 as ->; by rewrite (dispatch_exact _ _ HLive); [..|apply Happ, list_elem_of_In; simpl; tauto]|].
  destruct (dispatch (webServer_patterns assetNames) path) as [[p h]|] eqn:Hd.
  2:{ destruct (dispatch_complete (webServer_patterns assetNames) path "/" HAsset) as [r Hr];
        [by left|unfold pattern_matches; by rewrite Hslash, orb_true_r|congruence]. }
  destruct (dispatch_sound _ _ _ _ Hd) as [Hin Hm]. cbn [fmap option_fmap option_map snd]. f_equal.
  apply elem_of_cons in Hin as [[= -> ->]|Hin]; [done|].
  apply elem_of_app in Hin as [Hin|Hin].
  - by apply list_elem_of_In, in_map_iff in Hin as (a & [= _ ->] & _).
  - exfalso. rewrite String.eqb_sym in E1, E2, E3, E4.
    apply list_elem_of_In in Hin. simpl in Hin.
    destruct Hin as [[= <- _]|[[= <- _]|[[= <- _]|[[= <- _]|[]]]]];
      rewrite exact_pattern_matches in Hm by reflexivity; congruence.
Qed.

End Main.
